(** * OKX order subscription service: the connection manager of
      [src/okx/okx.service.ts] (the version that writes to [LoggingService]),
      its message decoder and its order dispatcher, embedded in Rocq.

    The service is a NestJS provider that owns one private WebSocket, logs
    in, subscribes to the [orders] channel and forwards every order update to
    [WechatService.sendOrderNotification].

    Modelling conventions.
    - A JavaScript string is a [string]; one character of the model stands
      for one UTF-16 code unit, so [substring(0, 500)] is
      [String.substring 0 500].
    - Every value that [JSON.parse] can return, plus [undefined] and the
      members inherited from [Object.prototype], is a [Value].
    - The fields of the class are the record [OkxService]; the Node.js
      runtime (sockets, timers, clock) is the record [Runtime]; every call
      that leaves the class (logger, log file, socket, timers, notification
      sink) is appended to the output trace of the [World].
    - A conversion to a string (a template literal, a property key as in
      [TABLE[v]], the argument of [parseInt], the operand of [+]) is
      [ToString], which throws for an object that hides the [toString] it
      inherits.
    - Node.js library functions ([JSON.parse], [JSON.stringify],
      [crypto.createHmac], [Date.prototype.toLocaleString]) and the answer
      of the notification endpoint are fields of the class [Platform].
    - One event of the event loop (a socket event, a timer, a lifecycle
      hook) runs its handler together with the promise continuations it
      queues. Every promise awaited by the handlers, the notification call
      apart, is settled by synchronous code ([LoggingService] writes its
      file synchronously), so these continuations run before the next
      event. The awaited notification call is represented by its eventual
      boolean result. *)

(** Besides the connection manager the development embeds
    [LoggingService] with the log file it keeps (module [Logging]),
    [WechatService] with the request it makes (module [Wechat]), and the
    formatters of the earlier revision of the service, which sends a title,
    a content and a remark (module [Legacy]). The file system and the HTTP
    client are modelled by what the classes can observe of them: a log
    file that is absent, readable or inaccessible, and a request that
    returns a body or throws. *)

From Stdlib Require Import ZArith String Ascii List DecimalString.
From stdpp Require Import base tactics option list strings gmap.
Import ListNotations.
Local Open Scope string_scope.
Local Open Scope Z_scope.

(** ** JavaScript values *)

Local Set Warnings "-register-all".

Inductive Value : Type :=
| VUndefined
| VNull
| VBool (b : bool)
| VNum (repr : string)            (* a Number, carried as its ToString rendering *)
| VStr (s : string)
| VArr (items : list Value)
| VObj (props : list (string * Value))
| VNative (name : string).        (* the member [name] of Object.prototype *)

(** Own property names of [Object.prototype] in Node.js. *)
Definition objectPrototypeNames : list string :=
  [ "constructor"; "__defineGetter__"; "__defineSetter__"; "hasOwnProperty";
    "__lookupGetter__"; "__lookupSetter__"; "isPrototypeOf";
    "propertyIsEnumerable"; "toString"; "valueOf"; "__proto__";
    "toLocaleString" ].

Fixpoint ownProperty (props : list (string * Value)) (k : string) : option Value :=
  match props with
  | [] => None
  | (k', v) :: rest => if String.eqb k' k then Some v else ownProperty rest k
  end.

(** [o[k]] for an ordinary object whose own properties are [props]. *)
Definition lookupObject (props : list (string * Value)) (k : string) : Value :=
  match ownProperty props k with
  | Some v => v
  | None => if existsb (String.eqb k) objectPrototypeNames then VNative k else VUndefined
  end.

Inductive Exn : Type :=
| SyntaxError (message : string)
| TypeError (message : string)
| Error (message : string).

Definition exn_message (e : Exn) : string :=
  match e with SyntaxError m | TypeError m | Error m => m end.

(** [v.k] for the property names this service reads ([event], [code], [msg],
    [arg], [channel], [data] and the order fields): none of them exists on
    the prototypes of arrays, strings, numbers or booleans. *)
Definition getProp (v : Value) (k : string) : Exn + Value :=
  match v with
  | VUndefined =>
      inl (TypeError ("Cannot read properties of undefined (reading '" ++ k ++ "')"))
  | VNull =>
      inl (TypeError ("Cannot read properties of null (reading '" ++ k ++ "')"))
  | VObj props => inr (lookupObject props k)
  | _ => inr VUndefined
  end.

(** ToBoolean *)
Definition truthy (v : Value) : bool :=
  match v with
  | VUndefined | VNull => false
  | VBool b => b
  | VNum r => negb (String.eqb r "0" || String.eqb r "NaN")
  | VStr s => negb (String.eqb s "")
  | VArr _ | VObj _ | VNative _ => true
  end.

(** [v === 'lit'] *)
Definition strictEqStr (v : Value) (lit : string) : bool :=
  match v with VStr s => String.eqb s lit | _ => false end.

Definition joinWith (sep : string) (parts : list string) : string :=
  match parts with
  | [] => ""
  | p :: rest => fold_left (fun acc q => acc ++ sep ++ q) rest p
  end.

(** Computations that may throw. *)
Global Instance E_ret : MRet (sum Exn) := fun A (a : A) => inr a.
Global Instance E_bind : MBind (sum Exn) := fun A B (f : A -> Exn + B) (r : Exn + A) =>
  match r with
  | inr a => f a
  | inl e => inl e
  end.

(** What a conversion to a primitive throws for an object that has neither
    a callable [toString] nor a [valueOf] returning a primitive. *)
Definition notPrimitive : Exn := TypeError "Cannot convert object to primitive value".

(** The name under which a member of [Object.prototype] prints. *)
Definition nativeName (name : string) : string :=
  if String.eqb name "constructor" then "Object" else name.

(** ToString. An object is converted by the [toString] it inherits from
    [Object.prototype]; an own property of that name, which is no function
    in a parsed value, hides it, and the conversion throws. An array joins
    the conversions of its elements. *)
Fixpoint ToString (v : Value) : Exn + string :=
  match v with
  | VUndefined => inr "undefined"
  | VNull => inr "null"
  | VBool true => inr "true"
  | VBool false => inr "false"
  | VNum r => inr r
  | VStr s => inr s
  | VArr items =>
      let fix elements (xs : list Value) : Exn + list string :=
        match xs with
        | [] => inr []
        | x :: rest =>
            match match x with
                  | VUndefined | VNull => inr ""
                  | _ => ToString x
                  end with
            | inl e => inl e
            | inr s =>
                match elements rest with
                | inl e => inl e
                | inr parts => inr (s :: parts)
                end
            end
        end in
      match elements items with
      | inl e => inl e
      | inr parts => inr (joinWith "," parts)
      end
  | VObj props =>
      match ownProperty props "toString" with
      | Some _ => inl notPrimitive
      | None => inr "[object Object]"
      end
  | VNative name =>
      inr (if String.eqb name "__proto__" then "[object Object]"
           else "function " ++ nativeName name ++ "() { [native code] }")
  end.

(** [a || b] *)
Definition orElse (a b : Value) : Value := if truthy a then a else b.

(** [TABLE[v] || v] for an object literal [TABLE]: the key is [v]
    converted to a property key. *)
Definition labelled (table : list (string * Value)) (v : Value) : Exn + Value :=
  key ← ToString v;
  mret (orElse (lookupObject table key) v).

(** Number.prototype.toString for an integer *)
Definition numberToString (z : Z) : string := NilZero.string_of_int (Z.to_int z).

(** ** The Node.js platform the service runs on *)

(** The five arguments of [WechatService.sendOrderNotification]. *)
Record Notification : Type := mkNotification {
  n_time : string;
  n_instId : Value;
  n_side : Value;
  n_size : Value;
  n_state : Value;
}.

Class Platform : Type := {
  (** [JSON.parse]: the parsed value, or the [SyntaxError] it throws *)
  JSON_parse : string -> Exn + Value;
  (** [JSON.stringify] *)
  JSON_stringify : Value -> string;
  (** [crypto.createHmac(algorithm, key)], [hmac.update(data)],
      [hmac.digest(encoding)] *)
  Hmac : Type;
  createHmac : string -> string -> Hmac;
  update : Hmac -> string -> Hmac;
  digest : Hmac -> string -> string;
  (** [new Date(parseInt(text)).toLocaleString('zh-CN', {...})] for a
      string [text] *)
  toLocaleString_zhCN : string -> string;
  (** what the [k]-th call of the notification endpoint resolves to *)
  notificationResult : nat -> Notification -> bool;
}.

(** ** LoggingService (src/common/logging/logging.service.ts) *)

Inductive LogLevel : Type := INFO | WARN | ERROR | DEBUG.
Inductive LogCategory : Type := CONNECTION | AUTH | SUBSCRIBE | ORDER | NOTIFY | SYSTEM.

(** [OkxLogEntry] without its wall-clock [timestamp] *)
Record OkxLogEntry : Type := mkEntry {
  level : LogLevel;
  category : LogCategory;
  message : string;
  data : Value;                     (* [VUndefined] when absent *)
}.

(** ** Output trace *)

Inductive LoggerLevel : Type := LLog | LWarn | LError.

Inductive Payload : Type :=
| PText (s : string)                (* [ws.send(s)] *)
| PJson (v : Value).                (* [ws.send(JSON.stringify(v))] *)

Inductive Callback : Type :=
| PingTick                          (* the closure given to [setInterval] in [startPing] *)
| Reconnect.                        (* the closure given to [setTimeout] in [scheduleReconnect] *)

Inductive Effect : Type :=
| ELogger (lvl : LoggerLevel) (msg : string)
| EWriteLog (entry : OkxLogEntry)
| ENewWebSocket (s : nat) (url : string)
| ESend (s : nat) (p : Payload)
| ECloseSocket (s : nat)
| ESetInterval (t : nat) (cb : Callback) (ms : Z)
| EClearInterval (t : nat)
| ESetTimeout (t : nat) (cb : Callback) (ms : Z)
| EClearTimeout (t : nat)
| ENotify (n : Notification)
| EUnhandledRejection (e : Exn).

(** The calls of the notification sink recorded in a trace, in order. *)
Definition notifications (tr : list Effect) : list Notification :=
  omap (fun e => match e with ENotify n => Some n | _ => None end) tr.

(** The frames handed to socket [s] for transmission, in order. *)
Definition sent_on (s : nat) (tr : list Effect) : list Payload :=
  omap (fun e => match e with
                 | ESend s' p => if decide (s' = s) then Some p else None
                 | _ => None
                 end) tr.

(** The sockets created, in order. *)
Definition sockets_created (tr : list Effect) : list nat :=
  omap (fun e => match e with ENewWebSocket s _ => Some s | _ => None end) tr.

(** The entries written to the log file, in order. *)
Definition log_entries (tr : list Effect) : list OkxLogEntry :=
  omap (fun e => match e with EWriteLog x => Some x | _ => None end) tr.

(** ** State *)

Record OkxService : Type := mkService {
  ws : option nat;                  (* WebSocket | null *)
  pingInterval : option nat;        (* NodeJS.Timeout | null *)
  reconnectTimeout : option nat;
  isConnecting : bool;
  shouldReconnect : bool;
  apiKey : string;
  secretKey : string;
  passphrase : string;
  isSimulated : bool;
}.

Inductive ReadyState : Type := CONNECTING | OPEN | CLOSING | CLOSED.

Record Timer : Type := mkTimer {
  callback : Callback;
  due : Z;                          (* milliseconds on the runtime clock *)
  period : option Z;                (* [Some ms] for an interval *)
}.

Record Runtime : Type := mkRuntime {
  sockets : gmap nat ReadyState;    (* every socket created so far *)
  timers : gmap nat Timer;          (* the timers that are armed *)
  nextHandle : nat;
  clock : Z;                        (* Date.now() *)
}.

Record World : Type := mkWorld {
  svc : OkxService;
  rt : Runtime;
  out : list Effect;                (* oldest first *)
}.

Global Instance ReadyState_eq_dec : EqDecision ReadyState.
Proof. solve_decision. Defined.
Global Instance Callback_eq_dec : EqDecision Callback.
Proof. solve_decision. Defined.

Definition set_ws (x : option nat) (o : OkxService) : OkxService :=
  mkService x (pingInterval o) (reconnectTimeout o) (isConnecting o)
    (shouldReconnect o) (apiKey o) (secretKey o) (passphrase o) (isSimulated o).
Definition set_pingInterval (x : option nat) (o : OkxService) : OkxService :=
  mkService (ws o) x (reconnectTimeout o) (isConnecting o)
    (shouldReconnect o) (apiKey o) (secretKey o) (passphrase o) (isSimulated o).
Definition set_reconnectTimeout (x : option nat) (o : OkxService) : OkxService :=
  mkService (ws o) (pingInterval o) x (isConnecting o)
    (shouldReconnect o) (apiKey o) (secretKey o) (passphrase o) (isSimulated o).
Definition set_isConnecting (x : bool) (o : OkxService) : OkxService :=
  mkService (ws o) (pingInterval o) (reconnectTimeout o) x
    (shouldReconnect o) (apiKey o) (secretKey o) (passphrase o) (isSimulated o).
Definition set_shouldReconnect (x : bool) (o : OkxService) : OkxService :=
  mkService (ws o) (pingInterval o) (reconnectTimeout o) (isConnecting o)
    x (apiKey o) (secretKey o) (passphrase o) (isSimulated o).

(** ** The monad of handlers: state, output and exceptions *)

Definition M (A : Type) : Type := World -> (Exn + A) * World.

Global Instance M_ret : MRet M := fun A (a : A) w => (inr a, w).
Global Instance M_bind : MBind M := fun A B (f : A -> M B) (m : M A) w =>
  match m w with
  | (inr a, w') => f a w'
  | (inl e, w') => (inl e, w')
  end.

Definition throw {A} (e : Exn) : M A := fun w => (inl e, w).

(** [try { body } catch (error) { handler }] *)
Definition try_catch {A} (body : M A) (handler : Exn -> M A) : M A := fun w =>
  match body w with
  | (inr a, w') => (inr a, w')
  | (inl e, w') => handler e w'
  end.

(** A promise nobody awaits: a rejection is reported by the runtime and
    does not reach the caller. *)
Definition detached (m : M unit) : M unit := fun w =>
  match m w with
  | (inr _, w') => (inr tt, w')
  | (inl e, w') => (inr tt, mkWorld (svc w') (rt w') (out w' ++ [EUnhandledRejection e]))
  end.

Definition lift {A} (r : Exn + A) : M A := fun w => (r, w).

Definition emit (e : Effect) : M unit := fun w =>
  (inr tt, mkWorld (svc w) (rt w) (out w ++ [e])).

Definition this {A} (field : OkxService -> A) : M A := fun w => (inr (field (svc w)), w).

Definition assign (upd : OkxService -> OkxService) : M unit := fun w =>
  (inr tt, mkWorld (upd (svc w)) (rt w) (out w)).

Definition runtime {A} (field : Runtime -> A) : M A := fun w => (inr (field (rt w)), w).

Definition set_runtime (upd : Runtime -> Runtime) : M unit := fun w =>
  (inr tt, mkWorld (svc w) (upd (rt w)) (out w)).

Definition skip : M unit := mret tt.

(** ** Runtime services: sockets ([ws]) and timers *)

Definition fresh : M nat := fun w =>
  let r := rt w in
  (inr (nextHandle r),
   mkWorld (svc w) (mkRuntime (sockets r) (timers r) (S (nextHandle r)) (clock r)) (out w)).

Definition set_socket (s : nat) (st : ReadyState) (r : Runtime) : Runtime :=
  mkRuntime (<[s := st]> (sockets r)) (timers r) (nextHandle r) (clock r).

Definition set_timer (t : nat) (tm : Timer) (r : Runtime) : Runtime :=
  mkRuntime (sockets r) (<[t := tm]> (timers r)) (nextHandle r) (clock r).

Definition drop_timer (t : nat) (r : Runtime) : Runtime :=
  mkRuntime (sockets r) (delete t (timers r)) (nextHandle r) (clock r).

(** [new WebSocket(url)] *)
Definition new_WebSocket (url : string) : M nat :=
  s ← fresh;
  set_runtime (set_socket s CONNECTING);;
  emit (ENewWebSocket s url);;
  mret s.

(** [socket.send(data)] of the [ws] package: throws while the socket is
    connecting, transmits when it is open, drops the data otherwise. *)
Definition ws_send (s : nat) (p : Payload) : M unit :=
  socks ← runtime sockets;
  match socks !! s with
  | Some CONNECTING => throw (Error "WebSocket is not open: readyState 0 (CONNECTING)")
  | Some OPEN => emit (ESend s p)
  | _ => skip
  end.

(** [socket.close()]: starts the closing handshake (or aborts the opening
    one); does nothing on a socket that is closing or closed. *)
Definition ws_close (s : nat) : M unit :=
  emit (ECloseSocket s);;
  socks ← runtime sockets;
  match socks !! s with
  | Some CONNECTING | Some OPEN => set_runtime (set_socket s CLOSING)
  | _ => skip
  end.

Definition setInterval (cb : Callback) (ms : Z) : M nat :=
  t ← fresh;
  now ← runtime clock;
  set_runtime (set_timer t (mkTimer cb (now + ms) (Some ms)));;
  emit (ESetInterval t cb ms);;
  mret t.

Definition setTimeout (cb : Callback) (ms : Z) : M nat :=
  t ← fresh;
  now ← runtime clock;
  set_runtime (set_timer t (mkTimer cb (now + ms) None));;
  emit (ESetTimeout t cb ms);;
  mret t.

Definition clearInterval (t : nat) : M unit :=
  set_runtime (drop_timer t);; emit (EClearInterval t).

Definition clearTimeout (t : nat) : M unit :=
  set_runtime (drop_timer t);; emit (EClearTimeout t).

(** ** Logger and LoggingService calls *)

Definition logger_log (msg : string) : M unit := emit (ELogger LLog msg).
Definition logger_warn (msg : string) : M unit := emit (ELogger LWarn msg).
Definition logger_error (msg : string) : M unit := emit (ELogger LError msg).

Definition writeLog (entry : OkxLogEntry) : M unit := emit (EWriteLog entry).

Definition logConnection (message : string) (data : Value) : M unit :=
  writeLog (mkEntry INFO CONNECTION message data).
Definition logAuth (message : string) (success : bool) (data : Value) : M unit :=
  writeLog (mkEntry (if success then INFO else ERROR) AUTH message data).
Definition logSubscribe (message : string) (data : Value) : M unit :=
  writeLog (mkEntry INFO SUBSCRIBE message data).
Definition logOrder (message : string) (orderData : Value) : M unit :=
  writeLog (mkEntry INFO ORDER message orderData).
Definition logNotify (message : string) (success : bool) (data : Value) : M unit :=
  writeLog (mkEntry (if success then INFO else ERROR) NOTIFY message data).
Definition logSystem (level : LogLevel) (message : string) (data : Value) : M unit :=
  writeLog (mkEntry level SYSTEM message data).
(** the callers pass plain objects, never an [Error] instance *)
Definition logError (category : LogCategory) (message : string) (error : Value) : M unit :=
  writeLog (mkEntry ERROR category message error).

(** ** Lookup tables (src/common/interfaces/okx-order.interface.ts) *)

Definition ORDER_STATE_MAP : list (string * Value) :=
  [ ("canceled", VStr "已撤销");
    ("live", VStr "等待成交");
    ("partially_filled", VStr "部分成交");
    ("filled", VStr "完全成交");
    ("mmp_canceled", VStr "做市商保护撤销") ].

Definition ORDER_SIDE_MAP : list (string * Value) :=
  [ ("buy", VStr "买入"); ("sell", VStr "卖出") ].

(** ** OkxService (src/okx/okx.service.ts) *)

Section Service.
Context `{P : Platform}.

Definition cleanup : M unit :=
  p ← this pingInterval;
  match p with
  | Some t => clearInterval t;; assign (set_pingInterval None)
  | None => skip
  end;;
  r ← this reconnectTimeout;
  match r with
  | Some t => clearTimeout t;; assign (set_reconnectTimeout None)
  | None => skip
  end;;
  s ← this ws;
  match s with
  | Some s => ws_close s;; assign (set_ws None)
  | None => skip
  end.

(** [body] is [None] when the argument is omitted. *)
Definition sign (o : OkxService) (timestamp method requestPath : string)
    (body : option string) : string :=
  let body := default "" body in
  let prehash := timestamp ++ method ++ requestPath ++ body in
  let hmac := createHmac "sha256" (secretKey o) in
  digest (update hmac prehash) "base64".

Definition wsUrl (o : OkxService) : string :=
  if isSimulated o
  then "wss://wspap.okx.com:8443/ws/v5/private?brokerId=9999"
  else "wss://ws.okx.com:8443/ws/v5/private".

Definition mode (o : OkxService) : string :=
  if isSimulated o then "模拟盘" else "实盘".

(** [this.ws?.send(JSON.stringify(v))] *)
Definition send_json (v : Value) : M unit :=
  s ← this ws;
  match s with
  | Some s => ws_send s (PJson v)
  | None => skip
  end.

Definition loginMessage (o : OkxService) (timestamp sign : string) : Value :=
  VObj [ ("op", VStr "login");
         ("args", VArr [ VObj [ ("apiKey", VStr (apiKey o));
                                ("passphrase", VStr (passphrase o));
                                ("timestamp", VStr timestamp);
                                ("sign", VStr sign) ] ]) ].

(** [login()] is called without [await]: the call runs up to the awaited
    [logAuth] and hands back what is left, the send, which runs once the
    caller has returned. *)
Definition login : M (M unit) :=
  now ← runtime clock;
  let timestamp := numberToString (now / 1000) in
  o ← this id;
  let sign := sign o timestamp "GET" "/users/self/verify" None in
  let loginMessage := loginMessage o timestamp sign in
  logger_log "发送登录请求...";;
  logAuth "发送登录请求" true
    (VObj [ ("apiKey", VStr (substring 0 8 (apiKey o) ++ "***")) ]);;
  mret (send_json loginMessage).

Definition subscribeMessage : Value :=
  VObj [ ("op", VStr "subscribe");
         ("args", VArr [ VObj [ ("channel", VStr "orders");
                                ("instType", VStr "ANY") ] ]) ].

Definition subscribeOrders : M unit :=
  logger_log "订阅订单频道...";;
  logSubscribe "发送订阅请求" subscribeMessage;;
  send_json subscribeMessage.

Definition startPing : M unit :=
  t ← setInterval PingTick 25000;
  assign (set_pingInterval (Some t)).

(** the closure of [startPing] *)
Definition pingTick : M unit :=
  s ← this ws;
  match s with
  | Some s =>
      socks ← runtime sockets;
      match socks !! s with
      | Some OPEN => ws_send s (PText "ping")     (* readyState === WebSocket.OPEN *)
      | _ => skip
      end
  | None => skip
  end.

Definition scheduleReconnect : M unit :=
  allowed ← this shouldReconnect;
  if negb allowed then skip
  else
    logger_log "5秒后尝试重连...";;
    logConnection "计划5秒后重连" VUndefined;;
    t ← setTimeout Reconnect 5000;
    assign (set_reconnectTimeout (Some t)).

Definition connectWebSocket : M unit :=
  connecting ← this isConnecting;
  if (connecting : bool) then logger_warn "正在连接中，跳过重复连接"
  else
    assign (set_isConnecting true);;
    cleanup;;
    o ← this id;
    logger_log ("连接到OKX WebSocket: " ++ wsUrl o ++ " (" ++ mode o ++ ")");;
    logConnection ("正在连接OKX WebSocket (" ++ mode o ++ ")")
      (VObj [ ("url", VStr (wsUrl o)) ]);;
    s ← new_WebSocket (wsUrl o);
    assign (set_ws (Some s)).

(** [parseInt] converts its argument to a string first. *)
Definition formatDate (timestamp : Value) : Exn + string :=
  text ← ToString timestamp;
  mret (toLocaleString_zhCN text).

(** [l + r] where [r] is a string *)
Definition plusString (l : Value) (r : string) : Exn + Value :=
  text ← ToString l;
  mret (VStr (text ++ r)).

Definition formatSize (order : Value) : Exn + Value :=
  result ← getProp order "sz";
  avgPx ← getProp order "avgPx";
  if truthy avgPx && negb (strictEqStr avgPx "0") && negb (strictEqStr avgPx "")
  then
    text ← ToString avgPx;
    plusString result (" @ " ++ text)
  else mret result.

(** [await this.wechatService.sendOrderNotification(...)] *)
Definition sendOrderNotification (n : Notification) : M bool := fun w =>
  let k := length (notifications (out w)) in
  (inr (notificationResult k n), mkWorld (svc w) (rt w) (out w ++ [ENotify n])).

(** [`${JSON.stringify(v)}`]: [JSON.stringify] returns [undefined] for
    [undefined] and for a function; [Object.prototype] is an object
    without enumerable properties. *)
Definition stringified (v : Value) : string :=
  match v with
  | VUndefined => "undefined"
  | VNative name => if String.eqb name "__proto__" then "{}" else "undefined"
  | _ => JSON_stringify v
  end.

(** the body of the loop of [handleOrderData] *)
Definition handleOrder (order : Value) : M unit :=
  logger_log ("收到订单更新: " ++ stringified order);;
  ordId ← lift (getProp order "ordId");
  instId ← lift (getProp order "instId");
  side ← lift (getProp order "side");
  state ← lift (getProp order "state");
  sz ← lift (getProp order "sz");
  px ← lift (getProp order "px");
  avgPx ← lift (getProp order "avgPx");
  pnl ← lift (getProp order "pnl");
  logOrder "收到订单更新"
    (VObj [ ("ordId", ordId); ("instId", instId); ("side", side); ("state", state);
            ("sz", sz); ("px", px); ("avgPx", avgPx); ("pnl", pnl) ]);;
  uTime ← lift (getProp order "uTime");
  time ← lift (formatDate uTime);
  side ← lift (labelled ORDER_SIDE_MAP side);
  size ← lift (formatSize order);
  state ← lift (labelled ORDER_STATE_MAP state);
  success ← sendOrderNotification (mkNotification time instId side size state);
  logNotify (if (success : bool) then "微信通知发送成功" else "微信通知发送失败") success
    (VObj [ ("ordId", ordId); ("instId", instId); ("side", side); ("size", size);
            ("state", state) ]).

(** what [for (const order of orders)] iterates over *)
Definition iterate (orders : Value) : Exn + list Value :=
  match orders with
  | VArr items => inr items
  | VStr s => inr (map (fun c => VStr (String c "")) (list_ascii_of_string s))
  | _ => inl (TypeError "orders is not iterable")
  end.

Fixpoint forEach (body : Value -> M unit) (items : list Value) : M unit :=
  match items with
  | [] => skip
  | x :: rest => body x;; forEach body rest
  end.

Definition handleOrderData (orders : Value) : M unit :=
  items ← lift (iterate orders);
  forEach handleOrder items.

Definition handleMessage (data : string) : M unit :=
  let messageStr := data in
  if String.eqb messageStr "pong" then skip
  else
    try_catch
      (message ← lift (JSON_parse messageStr);
       event ← lift (getProp message "event");
       if strictEqStr event "login" then
         code ← lift (getProp message "code");
         if strictEqStr code "0" then
           logger_log "登录成功";;
           logAuth "登录成功" true VUndefined;;
           detached subscribeOrders
         else
           msg ← lift (getProp message "msg");
           text ← lift (ToString msg);
           logger_error ("登录失败: " ++ text);;
           logAuth "登录失败" false (VObj [ ("code", code); ("msg", msg) ])
       else if strictEqStr event "subscribe" then
         arg ← lift (getProp message "arg");
         logger_log ("订阅成功: " ++ stringified arg);;
         logSubscribe "订阅成功" arg
       else if strictEqStr event "error" then
         msg ← lift (getProp message "msg");
         text ← lift (ToString msg);
         code ← lift (getProp message "code");
         codeText ← lift (ToString code);
         logger_error ("收到错误: " ++ text ++ " (code: " ++ codeText ++ ")");;
         logError SYSTEM "收到OKX错误" (VObj [ ("code", code); ("msg", msg) ])
       else
         arg ← lift (getProp message "arg");
         channel ← match arg with
                   | VUndefined | VNull => mret VUndefined
                   | _ => lift (getProp arg "channel")
                   end;
         if strictEqStr channel "orders" then
           data ← lift (getProp message "data");
           if truthy data then handleOrderData data else skip
         else skip)
      (fun error =>
         let errorMessage := exn_message error in
         logger_error ("解析消息失败: " ++ errorMessage);;
         logError SYSTEM "解析消息失败"
           (VObj [ ("error", VStr errorMessage);
                   ("rawMessage", VStr (substring 0 500 messageStr)) ])).

(** *** The handlers registered on the socket by [connectWebSocket] *)

Definition on_open : M unit :=
  o ← this id;
  logger_log "WebSocket连接已建立";;
  logConnection "WebSocket连接已建立"
    (VObj [ ("url", VStr (wsUrl o)); ("mode", VStr (mode o)) ]);;
  assign (set_isConnecting false);;
  rest ← login;
  startPing;;
  detached rest.

Definition on_message (data : string) : M unit := detached (handleMessage data).

Definition on_error (message : string) : M unit :=
  logger_error ("WebSocket错误: " ++ message);;
  logError CONNECTION "WebSocket连接错误" (VObj [ ("error", VStr message) ]);;
  assign (set_isConnecting false).

Definition on_close (code : Z) (reason : string) : M unit :=
  let reasonStr := reason in
  logger_warn ("WebSocket连接关闭: code=" ++ numberToString code ++ ", reason=" ++ reasonStr);;
  logConnection "WebSocket连接关闭"
    (VObj [ ("code", VNum (numberToString code)); ("reason", VStr reasonStr) ]);;
  assign (set_isConnecting false);;
  detached scheduleReconnect.

(** *** Lifecycle hooks *)

Definition onModuleInit : M unit :=
  logger_log "OKX服务初始化...";;
  logSystem INFO "OKX服务初始化" VUndefined;;
  detached connectWebSocket.

Definition onModuleDestroy : M unit :=
  logger_log "OKX服务销毁...";;
  logSystem INFO "OKX服务销毁" VUndefined;;
  assign (set_shouldReconnect false);;
  cleanup.

End Service.

(** ** The event loop *)

Inductive Event : Type :=
| ModuleInit                                        (* NestJS calls [onModuleInit] *)
| ModuleDestroy                                     (* NestJS calls [onModuleDestroy] *)
| SocketOpen (s : nat)                              (* socket [s] emits ['open'] *)
| SocketMessage (s : nat) (data : string)           (* ['message'] *)
| SocketError (s : nat) (message : string)          (* ['error'] *)
| SocketClose (s : nat) (code : Z) (reason : string) (* ['close'] *)
| TimerFires (t : nat)
| TimeElapses (ms : Z).

Section EventLoop.
Context `{P : Platform}.

(** Runs a handler to completion; an exception that escapes it is reported
    by the runtime. *)
Definition exec (handler : M unit) (w : World) : World := snd (detached handler w).

Definition with_runtime (upd : Runtime -> Runtime) (w : World) : World :=
  mkWorld (svc w) (upd (rt w)) (out w).

Definition run_callback (cb : Callback) : M unit :=
  match cb with
  | PingTick => pingTick
  | Reconnect => detached connectWebSocket
  end.

Definition advance (ms : Z) (r : Runtime) : Runtime :=
  mkRuntime (sockets r) (timers r) (nextHandle r) (clock r + ms).

(** What the runtime does to timer [t] when it fires: an interval is armed
    again, a timeout is gone. *)
Definition rearm (t : nat) (tm : Timer) (r : Runtime) : Runtime :=
  match period tm with
  | Some ms => set_timer t (mkTimer (callback tm) (clock r + ms) (Some ms)) r
  | None => drop_timer t r
  end.

(** What the runtime does with one event: [None] when the event cannot
    happen in this world (an unknown or closed socket, a timer that is not
    armed or not due). The [ws] package moves the socket to OPEN before
    ['open'], to CLOSING before ['error'] and to CLOSED before ['close']. *)
Definition deliver (ev : Event) (w : World) : option World :=
  match ev with
  | ModuleInit => Some (exec onModuleInit w)
  | ModuleDestroy => Some (exec onModuleDestroy w)
  | SocketOpen s =>
      match sockets (rt w) !! s with
      | Some CONNECTING => Some (exec on_open (with_runtime (set_socket s OPEN) w))
      | _ => None
      end
  | SocketMessage s data =>
      match sockets (rt w) !! s with
      | Some OPEN | Some CLOSING => Some (exec (on_message data) w)
      | _ => None
      end
  | SocketError s message =>
      match sockets (rt w) !! s with
      | Some CONNECTING | Some OPEN | Some CLOSING =>
          Some (exec (on_error message) (with_runtime (set_socket s CLOSING) w))
      | _ => None
      end
  | SocketClose s code reason =>
      match sockets (rt w) !! s with
      | Some CONNECTING | Some OPEN | Some CLOSING =>
          Some (exec (on_close code reason) (with_runtime (set_socket s CLOSED) w))
      | _ => None
      end
  | TimerFires t =>
      match timers (rt w) !! t with
      | Some tm =>
          if decide (due tm <= clock (rt w))
          then Some (exec (run_callback (callback tm)) (with_runtime (rearm t tm) w))
          else None
      | None => None
      end
  | TimeElapses ms =>
      if decide (0 <= ms) then Some (with_runtime (advance ms) w) else None
  end.

Fixpoint run (evs : list Event) (w : World) : option World :=
  match evs with
  | [] => Some w
  | ev :: rest =>
      match deliver ev w with
      | Some w' => run rest w'
      | None => None
      end
  end.

End EventLoop.

(** The service as its constructor leaves it, in a fresh runtime. *)
Definition construct (apiKey secretKey passphrase : string) (isSimulated : bool) : OkxService :=
  mkService None None None false true apiKey secretKey passphrase isSimulated.

Definition boot (o : OkxService) (now : Z) : World :=
  mkWorld o (mkRuntime ∅ ∅ 0%nat now) [].

(** ** A concrete platform, to run the service on actual frames *)

Module Node.

Local Open Scope char_scope.

Definition is_space (c : ascii) : bool :=
  Ascii.eqb c " " || Ascii.eqb c "009" || Ascii.eqb c "010" || Ascii.eqb c "013".

Fixpoint skip_space (s : list ascii) : list ascii :=
  match s with
  | c :: rest => if is_space c then skip_space rest else s
  | [] => []
  end.

Definition is_digit (c : ascii) : bool :=
  (48 <=? nat_of_ascii c)%nat && (nat_of_ascii c <=? 57)%nat.

Fixpoint take_digits (s : list ascii) : list ascii * list ascii :=
  match s with
  | c :: rest =>
      if is_digit c then let '(ds, r) := take_digits rest in (c :: ds, r) else ([], s)
  | [] => ([], [])
  end.

Local Close Scope char_scope.

(** the value of a digit, up to base 16 *)
Definition digit_value (c : ascii) : option Z :=
  let n := Z.of_nat (nat_of_ascii c) in
  if (48 <=? n) && (n <=? 57) then Some (n - 48)
  else if (97 <=? n) && (n <=? 102) then Some (n - 87)
  else if (65 <=? n) && (n <=? 70) then Some (n - 55)
  else None.

(** the code unit of a [\u] escape, from its four digits *)
Definition code_unit (a b c d : ascii) : option Z :=
  match digit_value a, digit_value b, digit_value c, digit_value d with
  | Some a, Some b, Some c, Some d => Some (((a * 16 + b) * 16 + c) * 16 + d)
  | _, _, _, _ => None
  end.

Definition byte (n : Z) : ascii := ascii_of_nat (Z.to_nat n).

(** The character of a code unit: the model has characters for the code
    units below 256 only. *)
Definition character (unit : Z) : option ascii :=
  if unit <? 256 then Some (byte unit) else None.

Local Open Scope char_scope.

(** the characters of a string literal after its opening quote *)
Fixpoint string_body (s : list ascii) : option (list ascii * list ascii) :=
  match s with
  | "034" :: rest => Some ([], rest)
  | "\" :: "u" :: a :: b :: c :: d :: rest =>
      match code_unit a b c d with
      | Some unit =>
          match character unit, string_body rest with
          | Some c', Some (cs, r) => Some (c' :: cs, r)
          | _, _ => None
          end
      | None => None
      end
  | "\" :: c :: rest =>
      let unescaped :=
        if Ascii.eqb c "n" then Some "010"
        else if Ascii.eqb c "t" then Some "009"
        else if Ascii.eqb c "r" then Some "013"
        else if Ascii.eqb c "b" then Some "008"
        else if Ascii.eqb c "f" then Some "012"
        else if Ascii.eqb c "034" || Ascii.eqb c "\" || Ascii.eqb c "/" then Some c
        else None in
      match unescaped, string_body rest with
      | Some c', Some (cs, r) => Some (c' :: cs, r)
      | _, _ => None
      end
  | c :: rest =>
      if (nat_of_ascii c <? 32)%nat then None
      else match string_body rest with
           | Some (cs, r) => Some (c :: cs, r)
           | None => None
           end
  | [] => None
  end.

Local Close Scope char_scope.

(** *** Numbers: the double nearest to a decimal numeral, and the shortest
    numeral that denotes it (Number::toString) *)

(** A positive rational, as numerator and denominator. *)
Definition Ratio : Type := (Z * Z)%type.

(** [m * 2^e] and [s * 10^p] *)
Definition binary (m e : Z) : Ratio := if 0 <=? e then (m * 2 ^ e, 1) else (m, 2 ^ (- e)).
Definition decimal (s p : Z) : Ratio := if 0 <=? p then (s * 10 ^ p, 1) else (s, 10 ^ (- p)).

Definition ratio_compare (x y : Ratio) : comparison :=
  (fst x * snd y ?= fst y * snd x).

(** The finite doubles above zero are the [m * 2^e] with [0 < m < 2^53]
    and [-1074 <= e <= 971], written with [2^52 <= m] unless [e = -1074].
    [nearest x] is the double nearest to [x > 0], ties to the even
    mantissa: [None] is Infinity and a mantissa of [0] is zero. *)
Definition nearest (x : Ratio) : option (Z * Z) :=
  let '(num, den) := x in
  let e1 := Z.log2 num - Z.log2 den - 52 in
  let quotient (e : Z) := let '(n, d) := binary 1 e in (num * d) / (den * n) in
  let e := Z.max (if quotient e1 <? 2 ^ 52 then e1 - 1 else e1) (-1074) in
  let '(n, d) := binary 1 e in
  let q := (num * d) / (den * n) in
  let r := (num * d) mod (den * n) in
  let m :=
    match 2 * r ?= den * n with
    | Lt => q
    | Gt => q + 1
    | Eq => if Z.even q then q else q + 1
    end in
  let '(m, e) := if m =? 2 ^ 53 then (2 ^ 52, e + 1) else (m, e) in
  if 971 <? e then None else Some (m, e).

(** [n] with [10^(n-1) <= x < 10^n] *)
Fixpoint adjust (fuel : nat) (x : Ratio) (n : Z) : Z :=
  match fuel with
  | O => n
  | S fuel =>
      match ratio_compare x (decimal 1 (n - 1)) with
      | Lt => adjust fuel x (n - 1)
      | _ =>
          match ratio_compare x (decimal 1 n) with
          | Lt => n
          | _ => adjust fuel x (n + 1)
          end
      end
  end.

Definition magnitude (x : Ratio) : Z :=
  adjust 8 x ((Z.log2 (fst x) - Z.log2 (snd x)) * 30103 / 100000 + 1).

Fixpoint strip_zeros (fuel : nat) (s p : Z) : Z * Z :=
  match fuel with
  | O => (s, p)
  | S fuel => if (0 <? s) && (s mod 10 =? 0) then strip_zeros fuel (s / 10) (p + 1) else (s, p)
  end.

(** The shortest [s * 10^p] whose nearest double is [m * 2^e], tried with
    [k] digits and then with more; of two with the same number of digits,
    the one closer to the double. *)
Fixpoint shortest (fuel : nat) (k : Z) (m e n : Z) : Z * Z :=
  match fuel with
  | O => (m, 0)
  | S fuel =>
      let x := binary m e in
      let p := n - k in
      let '(pn, pd) := decimal 1 p in
      let lo := (fst x * pd) / (snd x * pn) in
      let hi := lo + 1 in
      let fits (s : Z) :=
        match nearest (decimal s p) with
        | Some (m', e') => (m' =? m) && (e' =? e)
        | None => false
        end in
      (* x - lo * 10^p against hi * 10^p - x, over the common denominator *)
      let below := fst x * pd - lo * pn * snd x in
      let above := hi * pn * snd x - fst x * pd in
      let pick :=
        match fits lo, fits hi with
        | true, true =>
            match below ?= above with
            | Lt => Some lo
            | Gt => Some hi
            | Eq => Some (if Z.even lo then lo else hi)
            end
        | true, false => Some lo
        | false, true => Some hi
        | false, false => None
        end in
      match pick with
      | Some s => strip_zeros 400 s p
      | None => shortest fuel (k + 1) m e n
      end
  end.

Fixpoint zeros (n : nat) : string :=
  match n with O => "" | S n => String "0" (zeros n) end.

(** Number::toString for the double [m * 2^e], [m > 0] *)
Definition render (m e : Z) : string :=
  let n0 := magnitude (binary m e) in
  let '(s, p) := shortest 17 1 m e n0 in
  let digits := numberToString s in
  let k := Z.of_nat (String.length digits) in
  let n := k + p in
  if (k <=? n) && (n <=? 21) then digits ++ zeros (Z.to_nat (n - k))
  else if (0 <? n) && (n <=? 21)
  then substring 0 (Z.to_nat n) digits ++ "." ++ substring (Z.to_nat n) (Z.to_nat (k - n)) digits
  else if (-6 <? n) && (n <=? 0) then "0." ++ zeros (Z.to_nat (- n)) ++ digits
  else
    let exponent := (if 0 <? n - 1 then "+" else "-") ++ numberToString (Z.abs (n - 1)) in
    if k =? 1 then digits ++ "e" ++ exponent
    else substring 0 1 digits ++ "." ++ substring 1 (Z.to_nat (k - 1)) digits ++ "e" ++ exponent.

(** The rendering of the Number that the numeral [-? s * 10^p] denotes;
    numerals beyond [10^400] and below [10^-400] are Infinity and zero
    without a computation. *)
Definition numeral (negative : bool) (s p : Z) : string :=
  if s =? 0 then "0"
  else
    let size := Z.log2 s * 30103 / 100000 + p in
    if 400 <? size then (if negative then "-Infinity" else "Infinity")
    else if size <? -400 then "0"
    else
      match nearest (decimal s p) with
      | None => if negative then "-Infinity" else "Infinity"
      | Some (m, e) =>
          if m =? 0 then "0"
          else (if negative then "-" else "") ++ render m e
      end.


Local Open Scope char_scope.

Definition digits_value (ds : list ascii) : Z :=
  fold_left (fun acc c => 10 * acc + (Z.of_nat (nat_of_ascii c) - 48)) ds 0.

(** a number literal: an integer part without a leading zero, then an
    optional fraction and an optional exponent *)
Definition number (s : list ascii) : option (Value * list ascii) :=
  let '(negative, s1) := match s with "-" :: r => (true, r) | _ => (false, s) end in
  match take_digits s1 with
  | ([], _) => None
  | ("0" :: _ :: _, _) => None
  | (whole, s2) =>
      let fraction :=
        match s2 with
        | "." :: r =>
            match take_digits r with
            | ([], _) => None
            | (ds, s3) => Some (ds, s3)
            end
        | _ => Some ([], s2)
        end in
      match fraction with
      | None => None
      | Some (part, s3) =>
          let exponent :=
            match s3 with
            | "e" :: r | "E" :: r =>
                let '(sign, r1) :=
                  match r with
                  | "-" :: r1 => (-1, r1)
                  | "+" :: r1 => (1, r1)
                  | _ => (1, r)
                  end in
                match take_digits r1 with
                | ([], _) => None
                | (ds, s4) => Some (sign * digits_value ds, s4)
                end
            | _ => Some (0, s3)
            end in
          match exponent with
          | None => None
          | Some (e, s4) =>
              Some (VNum (numeral negative (digits_value (whole ++ part)%list)
                            (e - Z.of_nat (length part))),
                    s4)
          end
      end
  end.

(** an array index: the canonical numeral of an integer below [2^32 - 1] *)
Definition array_index (k : string) : option Z :=
  match list_ascii_of_string k with
  | [] => None
  | "0" :: _ :: _ => None
  | cs =>
      if forallb is_digit cs && (length cs <=? 10)%nat && (digits_value cs <? 4294967295)%Z
      then Some (digits_value cs)
      else None
  end.

(** [o[k] = v] while an object literal is read: a repeated key keeps its
    place and takes the later value; a new array index goes among the
    array indices, which come first and in ascending order; any other new
    key goes last *)
Fixpoint define (props : list (string * Value)) (k : string) (v : Value)
    : list (string * Value) :=
  match props with
  | [] => [(k, v)]
  | (k', v') :: rest =>
      if String.eqb k' k then (k', v) :: rest
      else
        let before :=
          match array_index k, array_index k' with
          | Some i, Some i' => (i <? i')%Z
          | Some _, None => true
          | None, _ => false
          end in
        if before && negb (existsb (fun kv => String.eqb (fst kv) k) rest)
        then (k, v) :: props
        else (k', v') :: define rest k v
  end.

Fixpoint value (fuel : nat) (s : list ascii) : option (Value * list ascii) :=
  match fuel with
  | O => None
  | S fuel =>
      match skip_space s with
      | "n" :: "u" :: "l" :: "l" :: r => Some (VNull, r)
      | "t" :: "r" :: "u" :: "e" :: r => Some (VBool true, r)
      | "f" :: "a" :: "l" :: "s" :: "e" :: r => Some (VBool false, r)
      | "034" :: r =>
          match string_body r with
          | Some (cs, r') => Some (VStr (string_of_list_ascii cs), r')
          | None => None
          end
      | "[" :: r =>
          match skip_space r with
          | "]" :: r' => Some (VArr [], r')
          | _ => elements fuel r []
          end
      | "{" :: r =>
          match skip_space r with
          | "}" :: r' => Some (VObj [], r')
          | _ => members fuel r []
          end
      | s' => number s'
      end
  end
with elements (fuel : nat) (s : list ascii) (acc : list Value)
    : option (Value * list ascii) :=
  match fuel with
  | O => None
  | S fuel =>
      match value fuel s with
      | Some (v, r) =>
          match skip_space r with
          | "," :: r' => elements fuel r' (acc ++ [v])
          | "]" :: r' => Some (VArr (acc ++ [v]), r')
          | _ => None
          end
      | None => None
      end
  end
with members (fuel : nat) (s : list ascii) (acc : list (string * Value))
    : option (Value * list ascii) :=
  match fuel with
  | O => None
  | S fuel =>
      match skip_space s with
      | "034" :: r =>
          match string_body r with
          | Some (k, r1) =>
              match skip_space r1 with
              | ":" :: r2 =>
                  match value fuel r2 with
                  | Some (v, r3) =>
                      let acc' := define acc (string_of_list_ascii k) v in
                      match skip_space r3 with
                      | "," :: r4 => members fuel r4 acc'
                      | "}" :: r4 => Some (VObj acc', r4)
                      | _ => None
                      end
                  | None => None
                  end
              | _ => None
              end
          | None => None
          end
      | _ => None
      end
  end.

(** [JSON.parse]. The message of the [SyntaxError] is V8's to word, by the
    position and the character it stopped at and differently from one
    version to the next; the model tells only the two kinds of failure
    apart. A [\u] escape of a code unit above 255, for which the model
    has no character, is refused. *)
Definition parse (text : string) : Exn + Value :=
  let s := list_ascii_of_string text in
  match value (2 * length s + 2) s with
  | Some (v, r) =>
      match skip_space r with
      | [] => inr v
      | _ => inl (SyntaxError "Unexpected non-whitespace character after JSON")
      end
  | None => inl (SyntaxError "Unexpected token in JSON")
  end.

Local Close Scope char_scope.

Definition hex_digit (i : Z) : string :=
  match get (Z.to_nat i) "0123456789abcdef" with
  | Some c => String c ""
  | None => ""
  end.

Definition quote (s : string) : string :=
  let esc (c : ascii) : string :=
    if Ascii.eqb c "034"%char then String "\"%char (String "034"%char "")
    else if Ascii.eqb c "\"%char then "\\"
    else if Ascii.eqb c "010"%char then "\n"
    else if Ascii.eqb c "013"%char then "\r"
    else if Ascii.eqb c "009"%char then "\t"
    else if Ascii.eqb c "008"%char then "\b"
    else if Ascii.eqb c "012"%char then "\f"
    else if (nat_of_ascii c <? 32)%nat
    then "\u00" ++ hex_digit (Z.of_nat (nat_of_ascii c) / 16)
           ++ hex_digit (Z.of_nat (nat_of_ascii c) mod 16)
    else String c "" in
  String "034"%char (String.concat "" (map esc (list_ascii_of_string s)))
    ++ String "034"%char "".

(** [JSON.stringify] *)
Fixpoint stringify (v : Value) : string :=
  match v with
  | VUndefined | VNull => "null"
  | VNative name => if String.eqb name "__proto__" then "{}" else "null"
  | VBool true => "true"
  | VBool false => "false"
  | VNum r =>
      if String.eqb r "Infinity" || String.eqb r "-Infinity" || String.eqb r "NaN"
      then "null" else r
  | VStr s => quote s
  | VArr items => "[" ++ joinWith "," (map stringify items) ++ "]"
  | VObj props =>
      "{" ++ joinWith ","
               ((fix go (ps : list (string * Value)) : list string :=
                   match ps with
                   | [] => []
                   | (k, v') :: rest =>
                       let skipped :=
                         match v' with
                         | VUndefined => true
                         | VNative name => negb (String.eqb name "__proto__")
                         | _ => false
                         end in
                       if skipped then go rest
                       else (quote k ++ ":" ++ stringify v') :: go rest
                   end) props) ++ "}"
  end.

(** Frames are written with ['] for the double quote. *)
Definition text (s : string) : string :=
  string_of_list_ascii
    (map (fun c => if Ascii.eqb c "'"%char then "034"%char else c) (list_ascii_of_string s)).

(** *** [crypto]: SHA-256 (FIPS 180-4), HMAC (RFC 2104), base64 (RFC 4648) *)

Definition word (x : Z) : Z := Z.land x 0xffffffff.

Definition rotr (n x : Z) : Z := Z.lor (Z.shiftr x n) (word (Z.shiftl x (32 - n))).

Definition Ch (x y z : Z) : Z := Z.lxor (Z.land x y) (Z.ldiff z x).
Definition Maj (x y z : Z) : Z := Z.lxor (Z.lxor (Z.land x y) (Z.land x z)) (Z.land y z).
Definition Sigma0 (x : Z) : Z := Z.lxor (Z.lxor (rotr 2 x) (rotr 13 x)) (rotr 22 x).
Definition Sigma1 (x : Z) : Z := Z.lxor (Z.lxor (rotr 6 x) (rotr 11 x)) (rotr 25 x).
Definition sigma0 (x : Z) : Z := Z.lxor (Z.lxor (rotr 7 x) (rotr 18 x)) (Z.shiftr x 3).
Definition sigma1 (x : Z) : Z := Z.lxor (Z.lxor (rotr 17 x) (rotr 19 x)) (Z.shiftr x 10).

Definition is_prime (n : nat) : bool :=
  forallb (fun d => negb (Nat.eqb (n mod d) 0)) (seq 2 (n - 2)).

Definition primes (count : nat) : list Z :=
  map Z.of_nat (firstn count (List.filter is_prime (seq 2 310))).

(** the integer cube root of [n], below [2 ^ bits] *)
Fixpoint cube_root (bits : nat) (n acc : Z) : Z :=
  match bits with
  | O => acc
  | S b =>
      let c := acc + 2 ^ Z.of_nat b in
      cube_root b n (if c * c * c <=? n then c else acc)
  end.

(** the round constants: the first 32 bits of the fractional parts of the
    cube roots of the first 64 primes *)
Definition K256 : list Z :=
  Eval vm_compute in map (fun p => word (cube_root 36 (p * 2 ^ 96) 0)) (primes 64).

(** the initial hash value: the same of the square roots of the first 8
    primes *)
Definition H256 : list Z :=
  Eval vm_compute in map (fun p => word (Z.sqrt (p * 2 ^ 64))) (primes 8).

(** the message schedule, latest word first *)
Fixpoint schedule (n : nat) (rev_w : list Z) : list Z :=
  match n with
  | O => rev_w
  | S n' =>
      let at_ i := nth i rev_w 0 in
      schedule n'
        (word (sigma1 (at_ 1%nat) + at_ 6%nat + sigma0 (at_ 14%nat) + at_ 15%nat) :: rev_w)
  end.

Definition round (st : list Z) (kw : Z * Z) : list Z :=
  match st with
  | [a; b; c; d; e; f; g; h] =>
      let t1 := h + Sigma1 e + Ch e f g + fst kw + snd kw in
      let t2 := Sigma0 a + Maj a b c in
      [word (t1 + t2); a; b; c; word (d + t1); e; f; g]
  | _ => st
  end.

Definition compress (h : list Z) (block : list Z) : list Z :=
  let w := rev (schedule 48 (rev block)) in
  let st := fold_left round (combine K256 w) h in
  map (fun p => word (fst p + snd p)) (combine h st).

Fixpoint words (bytes : list Z) : list Z :=
  match bytes with
  | b0 :: b1 :: b2 :: b3 :: rest =>
      (Z.shiftl b0 24 + Z.shiftl b1 16 + Z.shiftl b2 8 + b3) :: words rest
  | _ => []
  end.

Fixpoint blocks (fuel : nat) (ws : list Z) (h : list Z) : list Z :=
  match fuel, ws with
  | S fuel', _ :: _ => blocks fuel' (skipn 16 ws) (compress h (firstn 16 ws))
  | _, _ => h
  end.

Definition bytes_of (width : nat) (x : Z) : list Z :=
  map (fun i => Z.land (Z.shiftr x (8 * Z.of_nat i)) 255) (rev (seq 0 width)).

Definition sha256 (msg : list Z) : list Z :=
  let len := Z.of_nat (length msg) in
  let zeros := Z.to_nat ((55 - len) mod 64) in
  let padded := (msg ++ [128] ++ repeat 0 zeros ++ bytes_of 8 (8 * len))%list in
  let ws := words padded in
  flat_map (bytes_of 4) (blocks (length ws) ws H256).

Definition hmac_sha256 (key msg : list Z) : list Z :=
  let key := if (64 <? Z.of_nat (length key)) then sha256 key else key in
  let key := (key ++ repeat 0 (64 - length key))%list in
  let ipad := map (Z.lxor 0x36) key in
  let opad := map (Z.lxor 0x5c) key in
  sha256 (opad ++ sha256 (ipad ++ msg))%list.

Definition base64_alphabet : string :=
  "ABCDEFGHIJKLMNOPQRSTUVWXYZabcdefghijklmnopqrstuvwxyz0123456789+/".

Definition base64_char (i : Z) : string :=
  match get (Z.to_nat i) base64_alphabet with
  | Some c => String c ""
  | None => ""
  end.

Fixpoint base64 (bytes : list Z) : string :=
  match bytes with
  | [] => ""
  | [a] =>
      base64_char (Z.shiftr a 2) ++ base64_char (Z.shiftl (Z.land a 3) 4) ++ "=="
  | [a; b] =>
      base64_char (Z.shiftr a 2)
        ++ base64_char (Z.lor (Z.shiftl (Z.land a 3) 4) (Z.shiftr b 4))
        ++ base64_char (Z.shiftl (Z.land b 15) 2) ++ "="
  | a :: b :: c :: rest =>
      base64_char (Z.shiftr a 2)
        ++ base64_char (Z.lor (Z.shiftl (Z.land a 3) 4) (Z.shiftr b 4))
        ++ base64_char (Z.lor (Z.shiftl (Z.land b 15) 2) (Z.shiftr c 6))
        ++ base64_char (Z.land c 63) ++ base64 rest
  end.

Definition hex (bytes : list Z) : string :=
  String.concat "" (map (fun b => hex_digit (Z.shiftr b 4) ++ hex_digit (Z.land b 15)) bytes).

(** the UTF-8 encoding of a string of code units below 256 *)
Definition utf8 (s : string) : list Z :=
  flat_map (fun c => let n := Z.of_nat (nat_of_ascii c) in
                     if n <? 128 then [n]
                     else [Z.lor 192 (Z.shiftr n 6); Z.lor 128 (Z.land n 63)])
           (list_ascii_of_string s).

(** an [Hmac] object: the algorithm, the key and the data fed so far *)
Record HmacObject : Type := mkHmac {
  algorithm : string;
  hmac_key : string;
  hmac_data : string;
}.

(** only ["sha256"] is provided *)
Definition hmac_digest (h : HmacObject) (encoding : string) : string :=
  let mac := hmac_sha256 (utf8 (hmac_key h)) (utf8 (hmac_data h)) in
  if String.eqb encoding "base64" then base64 mac else hex mac.

(** *** [Date]: the zh-CN rendering, in the UTC time zone *)

Definition two (n : Z) : string :=
  (if n <? 10 then "0" else "") ++ numberToString n.

(** the civil date of a day number counted from 1970-01-01 *)
Definition civil (days : Z) : Z * Z * Z :=
  let z := days + 719468 in
  let era := z / 146097 in
  let doe := z - era * 146097 in
  let yoe := (doe - doe / 1460 + doe / 36524 - doe / 146096) / 365 in
  let doy := doe - (365 * yoe + yoe / 4 - yoe / 100) in
  let mp := (5 * doy + 2) / 153 in
  let d := doy - (153 * mp + 2) / 5 + 1 in
  let m := if mp <? 10 then mp + 3 else mp - 9 in
  let y := yoe + era * 400 + (if m <=? 2 then 1 else 0) in
  (y, m, d).

(** the value of the longest prefix of digits in [radix], if there is one *)
Fixpoint digits (radix : Z) (cs : list ascii) (acc : option Z) : option Z :=
  match cs with
  | c :: rest =>
      match digit_value c with
      | Some d =>
          if d <? radix then digits radix rest (Some (radix * default 0 acc + d)) else acc
      | None => acc
      end
  | [] => acc
  end.

(** the white space and line terminators that [parseInt] skips, among the
    characters of the model *)
Definition is_blank (c : ascii) : bool :=
  let n := nat_of_ascii c in
  ((9 <=? n) && (n <=? 13) || (n =? 32) || (n =? 160))%nat.

Fixpoint skip_blank (s : list ascii) : list ascii :=
  match s with
  | c :: rest => if is_blank c then skip_blank rest else s
  | [] => []
  end.

(** [parseInt(s)]: [None] is NaN *)
Definition parseInt (s : string) : option Z :=
  let cs := skip_blank (list_ascii_of_string s) in
  let '(sign, cs) :=
    match cs with
    | "-"%char :: rest => (-1, rest)
    | "+"%char :: rest => (1, rest)
    | _ => (1, cs)
    end in
  let magnitude :=
    match cs with
    | "0"%char :: "x"%char :: rest | "0"%char :: "X"%char :: rest => digits 16 rest None
    | _ => digits 10 cs None
    end in
  option_map (Z.mul sign) magnitude.

(** for the years from 1 on *)
Definition toLocaleString (text : string) : string :=
  match parseInt text with
  | Some ms =>
      if Z.abs ms <=? 8640000000000000 then
        let '(y, m, d) := civil (ms / 86400000) in
        let secs := (ms mod 86400000) / 1000 in
        numberToString y ++ "/" ++ two m ++ "/" ++ two d ++ " "
          ++ two (secs / 3600) ++ ":" ++ two (secs mod 3600 / 60) ++ ":" ++ two (secs mod 60)
      else "Invalid Date"
  | None => "Invalid Date"
  end.

(** Node.js in the UTC time zone; [answers] is what the notification
    endpoint replies. *)
Definition platform (answers : nat -> Notification -> bool) : Platform :=
  {| JSON_parse := parse;
     JSON_stringify := stringify;
     Hmac := HmacObject;
     createHmac := fun alg key => mkHmac alg key "";
     update := fun h d => mkHmac (algorithm h) (hmac_key h) (hmac_data h ++ d);
     digest := hmac_digest;
     toLocaleString_zhCN := toLocaleString;
     notificationResult := answers |}.

End Node.

(** * The vocabulary of the properties *)

Local Open Scope list_scope.

Section Vocabulary.
Context `{P : Platform}.

(** ** Handlers *)

(** The notification the loop body builds from an order record, or what
    building it throws. *)
Definition rendering (order : Value) : Exn + Notification :=
  instId ← getProp order "instId";
  side ← getProp order "side";
  state ← getProp order "state";
  uTime ← getProp order "uTime";
  time ← formatDate uTime;
  side ← labelled ORDER_SIDE_MAP side;
  size ← formatSize order;
  state ← labelled ORDER_STATE_MAP state;
  mret (mkNotification time instId side size state).

(** [ToString] converts the value: it is a primitive, or an array or
    object in which no object to convert has an own [toString] member. *)
Definition convertible (v : Value) : bool :=
  match ToString v with inr _ => true | inl _ => false end.

(** The fields of an order record that the dispatcher converts to text. *)
Definition textFields : list string := [ "uTime"; "side"; "sz"; "avgPx"; "state" ].

(** An order record: an object whose text fields are convertible, as the
    strings that [OkxOrderData] declares are. *)
Definition orderRecord (order : Value) : Prop :=
  match order with
  | VObj props => Forall (fun k => convertible (lookupObject props k) = true) textFields
  | _ => False
  end.

(** The calls of the sink are the renderings of the records, one for one. *)
Definition rendered (calls : list Notification) (orders : list Value) : Prop :=
  Forall2 (fun n order => rendering order = inr n) calls orders.

(** What the loop body writes when it takes up the record [order], an
    object: a line of the logger and an [ORDER] entry. *)
Definition taken (order : Value) : list Effect :=
  let field k := match getProp order k with inr v => v | inl _ => VUndefined end in
  [ ELogger LLog ("收到订单更新: " +:+ stringified order);
    EWriteLog (mkEntry INFO ORDER "收到订单更新"
                 (VObj [ ("ordId", field "ordId"); ("instId", field "instId");
                         ("side", field "side"); ("state", field "state");
                         ("sz", field "sz"); ("px", field "px");
                         ("avgPx", field "avgPx"); ("pnl", field "pnl") ])) ].

(** What the loop body writes once the notification [n] of [order] has
    been built, when it is the [k]-th one handed to the sink: the call of
    the sink and a [NOTIFY] entry with its outcome. *)
Definition notified (k : nat) (order : Value) (n : Notification) : list Effect :=
  let field k := match getProp order k with inr v => v | inl _ => VUndefined end in
  let success := notificationResult k n in
  [ ENotify n;
    EWriteLog (mkEntry (if success then INFO else ERROR) NOTIFY
                 (if success then "微信通知发送成功" else "微信通知发送失败")
                 (VObj [ ("ordId", field "ordId"); ("instId", n_instId n);
                         ("side", n_side n); ("size", n_size n);
                         ("state", n_state n) ])) ].

(** A handler that only writes to the output: [w'] is [w] with [tr]
    appended. *)
Definition appends (w w' : World) (tr : list Effect) : Prop :=
  svc w' = svc w /\ rt w' = rt w /\ out w' = out w ++ tr.

(** A piece of output that creates no socket and transmits nothing. *)
Definition silent (tr : list Effect) : Prop :=
  sockets_created tr = [] /\ forall s, sent_on s tr = [].

Definition isControlEvent (event : Value) : bool :=
  strictEqStr event "login" || strictEqStr event "subscribe" || strictEqStr event "error".

(** [message.arg?.channel] of a parsed object *)
Definition channelOf (props : list (string * Value)) : Value :=
  match lookupObject props "arg" with
  | VObj arg => lookupObject arg "channel"
  | _ => VUndefined
  end.

(** The frame decodes to a login answer with [code === '0'] (or not). *)
Definition isLoginAnswer (success : bool) (data : string) : bool :=
  negb (String.eqb data "pong") &&
  match JSON_parse data with
  | inr message =>
      match getProp message "event", getProp message "code" with
      | inr event, inr code =>
          strictEqStr event "login" && Bool.eqb (strictEqStr code "0") success
      | _, _ => false
      end
  | inl _ => false
  end.

(** What [this.ws?.send(p)] hands to socket [s] in world [w]. *)
Definition transmits (w : World) (s : nat) (p : Payload) : list Payload :=
  match ws (svc w) with
  | Some s' =>
      if decide (s' = s)
      then match sockets (rt w) !! s' with Some OPEN => [p] | _ => [] end
      else []
  | None => []
  end.

(** What the [catch] block of [handleMessage] writes for the exception [e]. *)
Definition decodeFailureLog (data : string) (e : Exn) : list Effect :=
  [ ELogger LError ("解析消息失败: " +:+ exn_message e);
    EWriteLog (mkEntry ERROR SYSTEM "解析消息失败"
                 (VObj [ ("error", VStr (exn_message e));
                         ("rawMessage", VStr (substring 0 500 data)) ])) ].

(** A parsed object that is none of the known frames: no control event,
    and not an [orders] frame carrying data. *)
Definition unclassified (props : list (string * Value)) : Prop :=
  isControlEvent (lookupObject props "event") = false /\
  strictEqStr (channelOf props) "orders" && truthy (lookupObject props "data") = false.

Fixpoint repeatedly (n : nat) (m : M unit) : M unit :=
  match n with
  | O => skip
  | S n' => m;; repeatedly n' m
  end.

(** The effect of [cleanup] on the timers, the sockets and the fields. *)
Definition cancelled (h : option nat) (tms : gmap nat Timer) : gmap nat Timer :=
  match h with Some t => delete t tms | None => tms end.

Definition closing (s : option nat) (socks : gmap nat ReadyState) : gmap nat ReadyState :=
  match s with
  | Some s =>
      match socks !! s with
      | Some CONNECTING | Some OPEN => <[s := CLOSING]> socks
      | _ => socks
      end
  | None => socks
  end.

Definition cleaned (o : OkxService) : OkxService :=
  set_ws None (set_reconnectTimeout None (set_pingInterval None o)).

Definition cleaned_runtime (o : OkxService) (r : Runtime) : Runtime :=
  mkRuntime (closing (ws o) (sockets r))
    (cancelled (reconnectTimeout o) (cancelled (pingInterval o) (timers r)))
    (nextHandle r) (clock r).

(** The size text that [formatSize] builds from a size and an average fill
    price that are strings: the size, followed by [" @ "] and the price
    unless the price is absent, the empty text or the text ["0"]. *)
Definition sizeText (sz : string) (avgPx : option string) : string :=
  match avgPx with
  | Some a => if String.eqb a "" || String.eqb a "0" then sz else sz +:+ " @ " +:+ a
  | None => sz
  end.

Definition take_handle (r : Runtime) : Runtime :=
  mkRuntime (sockets r) (timers r) (S (nextHandle r)) (clock r).

Definition reconnectTimer (r : Runtime) : Timer :=
  mkTimer Reconnect (clock r + 5000) None.

Definition heartbeatTimer (r : Runtime) : Timer :=
  mkTimer PingTick (clock r + 25000) (Some 25000).

(** The login request built by [login()] in world [w]. *)
Definition loginRequest (w : World) : Value :=
  let timestamp := numberToString (clock (rt w) / 1000) in
  loginMessage (svc w) timestamp (sign (svc w) timestamp "GET" "/users/self/verify" None).

(** ** The worlds the event loop can reach *)

Definition all_closed (socks : gmap nat ReadyState) : Prop :=
  forall s st, socks !! s = Some st -> st = CLOSED.

(** What holds of the fields and the runtime after [onModuleInit]:
    - an armed reconnect timer is the one [reconnectTimeout] refers to, it
      is a timeout, and it is armed only while every socket is closed;
    - an armed heartbeat timer is the one [pingInterval] refers to, and no
      socket is connecting while it is armed;
    - at most one socket is not closed;
    - a socket that is connecting or open is the one [ws] refers to. *)
Record Inv (o : OkxService) (r : Runtime) : Prop := mkInv {
  inv_reconnect : forall t tm, timers r !! t = Some tm -> callback tm = Reconnect ->
    reconnectTimeout o = Some t /\ period tm = None /\ all_closed (sockets r);
  inv_heartbeat : forall t tm, timers r !! t = Some tm -> callback tm = PingTick ->
    pingInterval o = Some t /\ forall s, sockets r !! s <> Some CONNECTING;
  inv_one_live : forall s s' st st',
    sockets r !! s = Some st -> sockets r !! s' = Some st' ->
    st <> CLOSED -> st' <> CLOSED -> s = s';
  inv_current : forall s st, sockets r !! s = Some st ->
    st = CONNECTING \/ st = OPEN -> ws o = Some s;
}.

Definition WInv (w : World) : Prop := Inv (svc w) (rt w).

(** The frames the handler of [ev] hands to socket [s] in world [w]. *)
Definition sent (ev : Event) (w : World) (s : nat) : list Payload :=
  match ev with
  | SocketOpen s0 => if decide (s0 = s) then [PJson (loginRequest w)] else []
  | SocketMessage s0 data =>
      if decide (s0 = s) then
        if isLoginAnswer true data then
          match sockets (rt w) !! s0 with
          | Some OPEN => [PJson subscribeMessage]
          | _ => []
          end
        else []
      else []
  | TimerFires t =>
      match timers (rt w) !! t with
      | Some tm =>
          match callback tm with
          | PingTick => transmits w s (PText "ping")
          | Reconnect => []
          end
      | None => []
      end
  | _ => []
  end.

(** The worlds of a running service: [onModuleInit] on the freshly
    constructed service, then any events; NestJS calls [onModuleInit]
    once. *)
Inductive reachable : World -> Prop :=
| reachable_init (apiKey secretKey passphrase : string) (isSimulated : bool) (now : Z) :
    reachable (exec onModuleInit (boot (construct apiKey secretKey passphrase isSimulated) now))
| reachable_step (w w' : World) (ev : Event) :
    reachable w -> ev <> ModuleInit -> deliver ev w = Some w' -> reachable w'.

Definition laterEvent (ev : Event) : Prop := ev <> ModuleInit.

(** The login and subscribe requests among the frames handed to socket [s]. *)
Definition requests_on (s : nat) (tr : list Effect) : list Value :=
  omap (fun p => match p with PJson v => Some v | PText _ => None end) (sent_on s tr).

(** The requests the handler of [ev] sends on socket [s] in world [w]. *)
Definition requested (ev : Event) (w : World) (s : nat) : list Value :=
  match ev with
  | SocketOpen s0 => if decide (s0 = s) then [loginRequest w] else []
  | SocketMessage s0 data =>
      if decide (s0 = s) then
        if isLoginAnswer true data then
          match sockets (rt w) !! s0 with
          | Some OPEN => [subscribeMessage]
          | _ => []
          end
        else []
      else []
  | _ => []
  end.

(** The runtime after [connectWebSocket()] has passed its guard. *)
Definition connecting_runtime (o : OkxService) (r : Runtime) : Runtime :=
  set_socket (nextHandle r) CONNECTING
    (mkRuntime (closing (ws o) (sockets r))
       (cancelled (reconnectTimeout o) (cancelled (pingInterval o) (timers r)))
       (S (nextHandle r)) (clock r)).

(** The runtime after the event [ev] has been handled in world [w]. *)
Definition runtime_after (ev : Event) (w : World) : Runtime :=
  match ev with
  | ModuleInit =>
      if isConnecting (svc w) then rt w else connecting_runtime (svc w) (rt w)
  | ModuleDestroy => cleaned_runtime (svc w) (rt w)
  | SocketOpen s =>
      let r0 := set_socket s OPEN (rt w) in
      set_timer (nextHandle r0) (heartbeatTimer r0) (take_handle r0)
  | SocketMessage _ _ => rt w
  | SocketError s _ => set_socket s CLOSING (rt w)
  | SocketClose s _ _ =>
      let r0 := set_socket s CLOSED (rt w) in
      if shouldReconnect (svc w)
      then set_timer (nextHandle r0) (reconnectTimer r0) (take_handle r0)
      else r0
  | TimerFires t =>
      match timers (rt w) !! t with
      | Some tm =>
          let r0 := rearm t tm (rt w) in
          match callback tm with
          | PingTick => r0
          | Reconnect => if isConnecting (svc w) then r0 else connecting_runtime (svc w) r0
          end
      | None => rt w
      end
  | TimeElapses ms => advance ms (rt w)
  end.

(** A login request: the message sent has [op: 'login']. *)
Definition isLoginRequest (v : Value) : Prop :=
  getProp v "op" = inr (VStr "login").

(** The requests of a connection that has been opened: one login request,
    then subscribe requests only. *)
Definition opened_session (reqs : list Value) : Prop :=
  exists login k, isLoginRequest login /\ reqs = login :: replicate k subscribeMessage.

Definition session (reqs : list Value) : Prop :=
  reqs = [] \/ opened_session reqs.

(** The requests sent so far on a socket, by the state of the socket. *)
Definition requests_fit (st : option ReadyState) (reqs : list Value) : Prop :=
  match st with
  | None | Some CONNECTING => reqs = []
  | Some OPEN => opened_session reqs
  | Some CLOSING | Some CLOSED => session reqs
  end.

(** Handles are fresh, and on every socket the requests sent fit its state. *)
Record Traced (w : World) : Prop := mkTraced {
  traced_fresh : forall s st, sockets (rt w) !! s = Some st -> (s < nextHandle (rt w))%nat;
  traced_requests : forall s, requests_fit (sockets (rt w) !! s) (requests_on s (out w));
}.

(** Reconnection is disabled and no reconnect timer is armed. *)
Definition Stopped (w : World) : Prop :=
  shouldReconnect (svc w) = false /\
  forall t tm, timers (rt w) !! t = Some tm -> callback tm = PingTick.

(** ** The claims that the code does not meet, as they are stated *)

(** C1, its last sentence: once a login failure has been decoded on a
    connection, no subscribe request is ever sent on that connection. *)
Definition no_subscribe_after_login_failure : Prop :=
  forall (w w1 w2 : World) (s : nat) (data : string) (evs : list Event) (tr : list Effect),
    reachable w ->
    isLoginAnswer false data = true ->
    deliver (SocketMessage s data) w = Some w1 ->
    Forall laterEvent evs ->
    run evs w1 = Some w2 ->
    out w2 = out w1 ++ tr ->
    ~ In (ESend s (PJson subscribeMessage)) tr.

(** C3: every close or error event cancels the heartbeat timer, clears the
    socket reference and, if reconnection is allowed, arms a reconnect
    timer of 5 seconds. *)
Definition close_or_error_disconnects : Prop :=
  forall (w w' : World) (ev : Event),
    reachable w ->
    (exists s code reason, ev = SocketClose s code reason) \/
    (exists s message, ev = SocketError s message) ->
    deliver ev w = Some w' ->
    pingInterval (svc w') = None /\
    ws (svc w') = None /\
    (shouldReconnect (svc w) = true ->
     exists t, reconnectTimeout (svc w') = Some t /\
               timers (rt w') !! t = Some (mkTimer Reconnect (clock (rt w) + 5000) None)).

(** C5: a frame that is not valid JSON, or that parses to an object
    matching none of the known frames, is dropped without raising and
    without a change of state, and is logged. *)
Definition decode_fault_is_logged : Prop :=
  forall (data : string) (w : World),
    data <> "pong" ->
    (exists e, JSON_parse data = inl e) \/
    (exists props, JSON_parse data = inr (VObj props) /\ unclassified props) ->
    exists tr entry,
      handleMessage data w = (inr tt, mkWorld (svc w) (rt w) (out w ++ tr)) /\
      In (EWriteLog entry) tr.

(** The text is a decimal numeral of value zero: an optional sign, then
    digits that are all ["0"], at least one, with at most one point among
    them. *)
Definition isZeroNumeral (text : string) : bool :=
  let unsigned :=
    match text with
    | String "-" rest | String "+" rest => rest
    | _ => text
    end in
  let chars := list_ascii_of_string unsigned in
  forallb (fun c => Ascii.eqb c "0" || Ascii.eqb c ".") chars
  && existsb (Ascii.eqb "0") chars
  && (length (List.filter (Ascii.eqb ".") chars) <=? 1)%nat.

(** C8, the size text as the claim words it: the size, followed by
    [" @ "] and the average fill price when that price is present and
    non-zero, the size alone otherwise. *)
Definition claimedSizeText (sz : string) (avgPx : option string) : string :=
  match avgPx with
  | Some a => if String.eqb a "" || isZeroNumeral a then sz else sz +:+ " @ " +:+ a
  | None => sz
  end.

(** C8: for every order record the formatted size is the claimed text. *)
Definition size_is_appended_unless_zero : Prop :=
  forall (props : list (string * Value)) (sz : string) (avgPx : option string),
    lookupObject props "sz" = VStr sz ->
    lookupObject props "avgPx" = from_option VStr VUndefined avgPx ->
    formatSize (VObj props) = inr (VStr (claimedSizeText sz avgPx)).

End Vocabulary.

(** * The service as a transition system *)

Section Transitions.
Context `{P : Platform}.

(** The fields after [connectWebSocket()] has passed its guard. *)
Definition connecting_service (o : OkxService) (r : Runtime) : OkxService :=
  set_ws (Some (nextHandle r)) (cleaned (set_isConnecting true o)).

(** The fields after the event [ev] has been handled in world [w]. *)
Definition service_after (ev : Event) (w : World) : OkxService :=
  match ev with
  | ModuleInit =>
      if isConnecting (svc w) then svc w else connecting_service (svc w) (rt w)
  | ModuleDestroy => cleaned (set_shouldReconnect false (svc w))
  | SocketOpen _ => set_pingInterval (Some (nextHandle (rt w))) (set_isConnecting false (svc w))
  | SocketMessage _ _ => svc w
  | SocketError _ _ => set_isConnecting false (svc w)
  | SocketClose _ _ _ =>
      if shouldReconnect (svc w)
      then set_reconnectTimeout (Some (nextHandle (rt w))) (set_isConnecting false (svc w))
      else set_isConnecting false (svc w)
  | TimerFires t =>
      match timers (rt w) !! t with
      | Some tm =>
          match callback tm with
          | PingTick => svc w
          | Reconnect =>
              if isConnecting (svc w) then svc w
              else connecting_service (svc w) (rearm t tm (rt w))
          end
      | None => svc w
      end
  | TimeElapses _ => svc w
  end.

(** The promise rejections nobody handled, in order. *)
Definition rejections (tr : list Effect) : list Exn :=
  omap (fun e => match e with EUnhandledRejection x => Some x | _ => None end) tr.

(** While a reconnect timer is armed the [isConnecting] guard is clear;
    a heartbeat timer is an interval of 25000 ms. *)
Record Armed (w : World) : Prop := mkArmed {
  armed_reconnect : forall t tm, timers (rt w) !! t = Some tm -> callback tm = Reconnect ->
    isConnecting (svc w) = false;
  armed_heartbeat : forall t tm, timers (rt w) !! t = Some tm -> callback tm = PingTick ->
    period tm = Some 25000;
}.

(** The service after [onModuleDestroy]: reconnection is disabled, [ws] is
    cleared, no timer is armed and no socket is connecting or open. *)
Record Halted (w : World) : Prop := mkHalted {
  halted_flag : shouldReconnect (svc w) = false;
  halted_ws : ws (svc w) = None;
  halted_timers : timers (rt w) = ∅;
  halted_sockets : forall s st, sockets (rt w) !! s = Some st -> st = CLOSING \/ st = CLOSED;
}.

(** The socket [ws] refers to, if any, is not connecting. *)
Definition sendable (w : World) : Prop :=
  forall s, ws (svc w) = Some s -> sockets (rt w) !! s <> Some CONNECTING.

End Transitions.

(** * The order dispatcher: further vocabulary *)

Section Dispatch.
Context `{P : Platform}.

(** What the loop of [handleOrderData] writes before it reads the first
    field of a [null] record. *)
Definition nullRecordLog : Effect :=
  ELogger LLog ("收到订单更新: " +:+ JSON_stringify VNull).

Definition nullRecordError : Exn :=
  TypeError "Cannot read properties of null (reading 'ordId')".

Definition notIterable : Exn := TypeError "orders is not iterable".

(** A truthy [data] field that [for ... of] cannot iterate: a number, [true]
    or an object. *)
Definition notIterableData (orders : Value) : Prop :=
  truthy orders = true /\
  match orders with VArr _ | VStr _ => False | _ => True end.

(** [TABLE[key] || key] for a string [key] that names no member of
    [Object.prototype]. *)
Definition translated (table : list (string * Value)) (key : string) : Value :=
  match ownProperty table key with
  | Some v => v
  | None => VStr key
  end.

(** An object in which a field that the loop converts for every record
    cannot be converted. *)
Definition unconvertibleRecord (order : Value) : Prop :=
  match order with
  | VObj props =>
      Exists (fun k => convertible (lookupObject props k) = false) [ "uTime"; "side"; "state" ]
  | _ => False
  end.

(** What the loop of [handleOrderData] hands to [LoggingService] for a
    record, as (category, level) pairs, when the record is the [k]-th one
    handed to the notification sink, as the notification [n]. *)
Definition recordLogged (k : nat) (n : Notification) : list (LogCategory * LogLevel) :=
  [ (ORDER, INFO);
    (NOTIFY, if notificationResult k n then INFO else ERROR) ].

End Dispatch.

(** * Independence from the secrets *)

Section Secrets.

(** Two services that agree on every field but [secretKey] and
    [passphrase]. *)
Definition alike_service (o1 o2 : OkxService) : Prop :=
  ws o1 = ws o2 /\ pingInterval o1 = pingInterval o2 /\
  reconnectTimeout o1 = reconnectTimeout o2 /\
  isConnecting o1 = isConnecting o2 /\ shouldReconnect o1 = shouldReconnect o2 /\
  apiKey o1 = apiKey o2 /\ isSimulated o1 = isSimulated o2.

(** The trace without the frames handed to the sockets. *)
Definition unsent (tr : list Effect) : list Effect :=
  omap (fun e => match e with ESend _ _ => None | _ => Some e end) tr.

(** Two worlds that differ at most in the two secrets and in the frames
    sent. *)
Definition alike (w1 w2 : World) : Prop :=
  alike_service (svc w1) (svc w2) /\ rt w1 = rt w2 /\ unsent (out w1) = unsent (out w2).

(** From alike worlds the two computations end in alike worlds, both
    returning, with results related by [R], or both raising the same
    exception. *)
Definition related {A} (R : A -> A -> Prop) (h1 h2 : M A) : Prop :=
  forall w1 w2, alike w1 w2 ->
    match h1 w1, h2 w2 with
    | (inr a1, w1'), (inr a2, w2') => R a1 a2 /\ alike w1' w2'
    | (inl e1, w1'), (inl e2, w2') => e1 = e2 /\ alike w1' w2'
    | _, _ => False
    end.

End Secrets.

(** * LoggingService: the log file (src/common/logging/logging.service.ts) *)

Module Logging.

(** ** The file system, as far as the service touches it *)

(** The path [logs/okx.log]. *)
Inductive LogFile : Type :=
| Absent
| Content (text : string)
| Inaccessible.                     (* the path exists but cannot be read or written *)

Record Disk : Type := mkDisk {
  dirExists : bool;                 (* the directory [logs] exists *)
  readOnly : bool;                  (* creating a directory or writing a file fails *)
  file : LogFile;
}.

(** A call of the Nest logger of the class, with the error handed to it. *)
Record LoggerCall : Type := mkCall {
  call_level : LoggerLevel;
  call_message : string;
  call_error : option Exn;
}.

Record LogState : Type := mkLogState {
  disk : Disk;
  wallClock : string;               (* what [getTimestamp()] renders now *)
  console : list LoggerCall;        (* oldest first *)
}.

(** ** The monad of the methods: state and exceptions *)

Definition L (A : Type) : Type := LogState -> (Exn + A) * LogState.

#[global] Instance L_ret : MRet L := fun A (a : A) st => (inr a, st).
#[global] Instance L_bind : MBind L := fun A B (f : A -> L B) (m : L A) st =>
  match m st with
  | (inr a, st') => f a st'
  | (inl e, st') => (inl e, st')
  end.

Definition raise {A} (e : Exn) : L A := fun st => (inl e, st).

(** [try { body } catch (error) { handler }] *)
Definition attempt {A} (body : L A) (handler : Exn -> L A) : L A := fun st =>
  match body st with
  | (inr a, st') => (inr a, st')
  | (inl e, st') => handler e st'
  end.

Definition returned {A} (r : Exn + A) : L A := fun st => (r, st).

Definition on_disk {A} (f : Disk -> A) : L A := fun st => (inr (f (disk st)), st).

Definition set_disk (d : Disk) : L unit := fun st =>
  (inr tt, mkLogState d (wallClock st) (console st)).

Definition logger (lvl : LoggerLevel) (msg : string) (err : option Exn) : L unit := fun st =>
  (inr tt, mkLogState (disk st) (wallClock st) (console st ++ [mkCall lvl msg err])).

(** ** [fs] *)

Definition ENOENT : Exn := Error "ENOENT: no such file or directory".
Definition EACCES : Exn := Error "EACCES: permission denied".
Definition EROFS : Exn := Error "EROFS: read-only file system".

(** [fs.existsSync(this.logDir)] *)
Definition existsSync_dir : L bool := on_disk dirExists.

(** [fs.existsSync(this.logFile)] *)
Definition existsSync_file : L bool :=
  on_disk (fun d => match file d with Absent => false | _ => true end).

(** [fs.mkdirSync(this.logDir, { recursive: true })] *)
Definition mkdirSync : L unit :=
  d ← on_disk id;
  if readOnly d then raise EROFS
  else set_disk (mkDisk true (readOnly d) (file d)).

(** [fs.readFileSync(this.logFile, 'utf-8')] *)
Definition readFileSync : L string :=
  f ← on_disk file;
  match f with
  | Content text => mret text
  | Absent => raise ENOENT
  | Inaccessible => raise EACCES
  end.

(** [fs.writeFileSync(this.logFile, content, 'utf-8')] *)
Definition writeFileSync (content : string) : L unit :=
  d ← on_disk id;
  if readOnly d then raise EROFS
  else if negb (dirExists d) then raise ENOENT
  else match file d with
       | Inaccessible => raise EACCES
       | _ => set_disk (mkDisk (dirExists d) (readOnly d) (Content content))
       end.

(** ** Strings *)

Definition newline : string := String "010" "".

(** [s.split('\n')] *)
Fixpoint split_lines (s : string) : list string :=
  match s with
  | EmptyString => [""]
  | String c rest =>
      if Ascii.eqb c "010" then "" :: split_lines rest
      else match split_lines rest with
           | l :: ls => String c l :: ls
           | [] => [String c ""]
           end
  end.

(** [lines.join('\n')] *)
Definition join_lines (lines : list string) : string := joinWith newline lines.

(** [s.repeat(n)] *)
Fixpoint repeat_string (s : string) (n : nat) : string :=
  match n with
  | O => ""
  | S n' => s +:+ repeat_string s n'
  end.

(** [xs.slice(0, end)] *)
Definition slice0 {A} (finish : Z) (xs : list A) : list A :=
  let len := Z.of_nat (length xs) in
  let final := if finish <? 0 then Z.max (len + finish) 0 else Z.min finish len in
  take (Z.to_nat final) xs.

(** ** The service *)

Section Service.
Context `{P : Platform}.

(** [this.logDir], the directory [logs] under the working directory of
    the process. *)
Variable logDir : string.

Definition ensureLogDir : L unit :=
  attempt
    (present ← existsSync_dir;
     if negb present then
       mkdirSync;;
       logger LLog ("创建日志目录: " +:+ logDir) None
     else mret tt)
    (fun error => logger LError "创建日志目录失败" (Some error)).

Definition getTimestamp : L string := fun st => (inr (wallClock st), st).

Definition levelName (level : LogLevel) : string :=
  match level with INFO => "INFO" | WARN => "WARN" | ERROR => "ERROR" | DEBUG => "DEBUG" end.

Definition categoryName (category : LogCategory) : string :=
  match category with
  | CONNECTION => "CONNECTION" | AUTH => "AUTH" | SUBSCRIBE => "SUBSCRIBE"
  | ORDER => "ORDER" | NOTIFY => "NOTIFY" | SYSTEM => "SYSTEM"
  end.

(** [icons[level] || ...]: every level has an icon, so the fallback is
    never taken. *)
Definition getLevelIcon (level : LogLevel) : string :=
  match level with
  | INFO => "✅" | WARN => "⚠️" | ERROR => "❌" | DEBUG => "🔍"
  end.

Definition getCategoryIcon (category : LogCategory) : string :=
  match category with
  | CONNECTION => "🔗" | AUTH => "🔐" | SUBSCRIBE => "📡"
  | ORDER => "📦" | NOTIFY => "📱" | SYSTEM => "⚙️"
  end.

(** [JSON.stringify(obj, null, 0)]; [None] stands for [undefined], the
    result for [undefined] and for a function. *)
Definition stringify0 (obj : Value) : option string :=
  match obj with
  | VUndefined => None
  | VNative name => if String.eqb name "__proto__" then Some "{}" else None
  | _ => Some (JSON_stringify obj)
  end.

(** [JSON.stringify] does not throw on the values of the model, so the
    [catch] of the method is never entered. *)
Definition safeStringify (obj : Value) : option string :=
  match obj with
  | VStr s => Some s
  | _ => stringify0 obj
  end.

Definition truncationMark : string := "...(已截断)".

(** [dataStr.length > maxLength ? dataStr.substring(0, maxLength) + '...' : dataStr] *)
Definition truncate (dataStr : string) : string :=
  let maxLength := 2000%nat in
  if Nat.ltb maxLength (String.length dataStr)
  then substring 0 maxLength dataStr +:+ truncationMark
  else dataStr.

Definition formatLogEntry (timestamp : string) (entry : OkxLogEntry) : Exn + string :=
  let separator := repeat_string "═" 80 in
  let levelIcon := getLevelIcon (level entry) in
  let categoryIcon := getCategoryIcon (category entry) in
  let lines :=
    [ separator;
      "📅 " +:+ timestamp;
      levelIcon +:+ " [" +:+ levelName (level entry) +:+ "] " +:+ categoryIcon
        +:+ " [" +:+ categoryName (category entry) +:+ "]";
      "💬 " +:+ message entry ] in
  match data entry with
  | VUndefined => inr (join_lines (lines ++ [""]) +:+ newline)
  | d =>
      match safeStringify d with
      | Some dataStr =>
          inr (join_lines (lines ++ ["📦 数据: " +:+ truncate dataStr; ""]) +:+ newline)
      | None => inl (TypeError "Cannot read properties of undefined (reading 'length')")
      end
  end.

Definition maxLines : nat := Z.to_nat 10000.

(** [writeLog]: the newest entry goes first. *)
Definition writeLog (timestamp : string) (entry : OkxLogEntry) : L unit :=
  attempt
    (logLine ← returned (formatLogEntry timestamp entry);
     present ← existsSync_file;
     existingContent ← (if (present : bool) then readFileSync else mret "");
     let newContent := logLine +:+ existingContent in
     let lines := split_lines newContent in
     let trimmedContent :=
       if Nat.ltb maxLines (length lines)
       then join_lines (take maxLines lines)
       else newContent in
     writeFileSync trimmedContent)
    (fun error => logger LError "写入日志失败" (Some error)).

(** *** The public log methods *)

Definition logConnection (message : string) (data : Value) : L unit :=
  timestamp ← getTimestamp; writeLog timestamp (mkEntry INFO CONNECTION message data).
Definition logAuth (message : string) (success : bool) (data : Value) : L unit :=
  timestamp ← getTimestamp;
  writeLog timestamp (mkEntry (if success then INFO else ERROR) AUTH message data).
Definition logSubscribe (message : string) (data : Value) : L unit :=
  timestamp ← getTimestamp; writeLog timestamp (mkEntry INFO SUBSCRIBE message data).
Definition logOrder (message : string) (orderData : Value) : L unit :=
  timestamp ← getTimestamp; writeLog timestamp (mkEntry INFO ORDER message orderData).
Definition logNotify (message : string) (success : bool) (data : Value) : L unit :=
  timestamp ← getTimestamp;
  writeLog timestamp (mkEntry (if success then INFO else ERROR) NOTIFY message data).
Definition logSystem (level : LogLevel) (message : string) (data : Value) : L unit :=
  timestamp ← getTimestamp; writeLog timestamp (mkEntry level SYSTEM message data).
(** [error instanceof Error ? error.message : error] *)
Definition logError (category : LogCategory) (message : string) (error : Exn + Value) : L unit :=
  timestamp ← getTimestamp;
  writeLog timestamp
    (mkEntry ERROR category message
       (match error with inl e => VStr (exn_message e) | inr v => v end)).

(** *** Log management *)

(** [getRecentLogs(lines = 100)] *)
Definition getRecentLogs (lines : option Z) : L string :=
  let lines := default 100 lines in
  attempt
    (present ← existsSync_file;
     if negb present then mret "暂无日志"
     else
       content ← readFileSync;
       let allLines := split_lines content in
       mret (join_lines (slice0 lines allLines)))
    (fun error => logger LError "读取日志失败" (Some error);; mret "读取日志失败").

Definition clearLogs : L unit :=
  attempt
    (present ← existsSync_file;
     if (present : bool) then
       writeFileSync "";;
       logger LLog "日志已清空" None
     else mret tt)
    (fun error => logger LError "清空日志失败" (Some error)).

(** Replays entries, oldest first, as the service writes them. *)
Fixpoint writeAll (entries : list (string * OkxLogEntry)) : L unit :=
  match entries with
  | [] => mret tt
  | (timestamp, entry) :: rest => writeLog timestamp entry;; writeAll rest
  end.

(** ** The vocabulary of the properties *)

Definition lineCount (text : string) : nat := length (split_lines text).

(** The entry without its [data]. *)
Definition without_data (entry : OkxLogEntry) : OkxLogEntry :=
  mkEntry (level entry) (category entry) (message entry) VUndefined.

(** The longest text that a [data] field adds to a formatted entry: the
    label, 2000 characters, the truncation mark and the line break. *)
Definition dataLineBound : nat :=
  String.length "📦 数据: " + 2000 + String.length truncationMark + 1.

(** A text without a line break. *)
Fixpoint oneLine (s : string) : bool :=
  match s with
  | EmptyString => true
  | String c rest => negb (Ascii.eqb c "010") && oneLine rest
  end.

(** The file can be read and written. *)
Definition healthy (d : Disk) : Prop :=
  dirExists d = true /\ readOnly d = false /\ file d <> Inaccessible.

(** The text of the file; the empty text when there is none. *)
Definition existing (d : Disk) : string :=
  match file d with Content text => text | _ => "" end.

(** What [writeLog] stores when the entry is serialised to [logLine] and
    the disk is healthy. *)
Definition stored (logLine : string) (d : Disk) : string :=
  let newContent := logLine +:+ existing d in
  if Nat.ltb maxLines (lineCount newContent)
  then join_lines (take maxLines (split_lines newContent))
  else newContent.

(** The file holds at most [maxLines] lines. *)
Definition capped (d : Disk) : Prop :=
  forall text, file d = Content text -> (lineCount text <= maxLines)%nat.

End Service.

End Logging.

(** * WechatService: the revision of [wechat.service.ts] that inspects
      the answer of the endpoint *)

Module Wechat.

Record WechatService : Type := mkWechat {
  apiUrl : string;
  openid : string;
  templateId : string;
}.

(** What [axios.post] throws: a message and, when the endpoint answered
    with an error status, the status (a number, carried as its rendering)
    and the body of the response. *)
Record AxiosError : Type := mkAxiosError {
  ax_message : string;
  ax_response : option (string * Value);
}.

(** The calls that leave the class, in order. *)
Inductive Call : Type :=
| CLogger (lvl : LoggerLevel) (msg : string)
| CPost (url : string) (payload config : Value).

(** The requests made, in order. *)
Definition posts (calls : list Call) : list (string * Value) :=
  omap (fun c => match c with CPost url payload _ => Some (url, payload) | _ => None end) calls.

(** [v?.k] *)
Definition optional (v : Value) (k : string) : Value :=
  match v with
  | VUndefined | VNull => VUndefined
  | _ => match getProp v k with inr x => x | inl _ => VUndefined end
  end.

(** [v === 0] *)
Definition isZero (v : Value) : bool :=
  match v with VNum r => String.eqb r "0" | _ => false end.

(** [v !== false] *)
Definition isNotFalse (v : Value) : bool :=
  match v with VBool false => false | _ => true end.

Section Service.
Context `{P : Platform}.

(** [JSON.stringify(v, null, 2)] *)
Variable JSON_stringify_indented : Value -> string.

(** [axios.post(url, payload, config)]: the [data] of the response, or
    what the call throws. *)
Variable axios_post : string -> Value -> Value -> AxiosError + Value.

Definition requestConfig : Value :=
  VObj [ ("headers", VObj [ ("Content-Type", VStr "application/json") ]);
         ("timeout", VNum "10000") ].

Definition sendTemplateMessage (this : WechatService) (data : Value) (url : option string)
    : bool * list Call :=
  let payload :=
    VObj [ ("openid", VStr (openid this));
           ("templateId", VStr (templateId this));
           ("data", data);
           ("url", VStr (default "" url)) ] in
  let attempt :=
    [ CLogger LLog ("发送微信通知到: " +:+ apiUrl this);
      CLogger LLog ("请求数据: " +:+ JSON_stringify_indented payload);
      CPost (apiUrl this) payload requestConfig ] in
  match axios_post (apiUrl this) payload requestConfig with
  | inr resData =>
      (isZero (optional resData "errcode") || isNotFalse (optional resData "success"),
       attempt ++ [ CLogger LLog ("微信通知响应: " +:+ stringified resData) ])
  | inl err =>
      (false,
       attempt ++ CLogger LError ("发送微信通知失败: " +:+ ax_message err)
         :: match ax_response err with
            | Some (status, body) =>
                [ CLogger LError ("响应状态: " +:+ status);
                  CLogger LError ("响应数据: " +:+ stringified body) ]
            | None => []
            end)
  end.

Definition templateData (time : string) (instId side size state : Value) : Value :=
  VObj [ ("keyword1", VObj [ ("value", VStr time) ]);
         ("keyword2", VObj [ ("value", instId) ]);
         ("keyword3", VObj [ ("value", side) ]);
         ("keyword4", VObj [ ("value", size) ]);
         ("keyword5", VObj [ ("value", state) ]) ].

Definition sendOrderNotification (this : WechatService) (time : string)
    (instId side size state : Value) : bool * list Call :=
  sendTemplateMessage this (templateData time instId side size state) None.

(** ** The vocabulary of the properties *)

(** The body of the one request that [sendOrderNotification] makes. *)
Definition orderPayload (this : WechatService) (time : string)
    (instId side size state : Value) : Value :=
  VObj [ ("openid", VStr (openid this));
         ("templateId", VStr (templateId this));
         ("data", templateData time instId side size state);
         ("url", VStr "") ].

(** The answer refuses the message: [success] is [false] and [errcode] is
    not the number [0]. *)
Definition refused (resData : Value) : Prop :=
  optional resData "success" = VBool false /\ optional resData "errcode" <> VNum "0".

End Service.

End Wechat.

(** * The revision of OkxService that sends a title, a content and a
      remark (the second [okx.service.ts] of the sources), with the
      WechatService it calls (src/wechat/wechat.service.ts) *)

Module Legacy.

(** [INST_TYPE_MAP] (src/common/interfaces/okx-order.interface.ts) *)
Definition INST_TYPE_MAP : list (string * Value) :=
  [ ("SPOT", VStr "现货");
    ("MARGIN", VStr "杠杆");
    ("SWAP", VStr "永续合约");
    ("FUTURES", VStr "交割合约");
    ("OPTION", VStr "期权") ].

Section Formatting.

(** [parseFloat(text) >= 0] for a string [text]; [parseFloat] converts
    its argument to a string first. *)
Variable parseFloat_isNotNegative : string -> bool.

(** [order.k], once a first property of [order] has been read *)
Definition field (order : Value) (k : string) : Value :=
  match getProp order k with inr v => v | inl _ => VUndefined end.

(** [`${TABLE[v] || v}`] *)
Definition labelText (table : list (string * Value)) (v : Value) : Exn + string :=
  label ← labelled table v;
  ToString label.

(** [v && v !== '0'] *)
Definition shown (v : Value) : bool := truthy v && negb (strictEqStr v "0").

Definition formatOrderTitle (order : Value) : Exn + string :=
  side ← getProp order "side";
  side ← labelled ORDER_SIDE_MAP side;
  state ← getProp order "state";
  state ← labelled ORDER_STATE_MAP state;
  sideText ← ToString side;
  instId ← getProp order "instId";
  instIdText ← ToString instId;
  stateText ← ToString state;
  mret ("【OKX订单通知】" +:+ sideText +:+ " " +:+ instIdText +:+ " - " +:+ stateText).

(** [if (v && v !== '0') { parts.push(`label${v}`) }]: what is pushed *)
Definition optionalPart (label : string) (v : Value) : Exn + list string :=
  if shown v then
    text ← ToString v;
    mret [ label +:+ text ]
  else mret [].

Definition formatOrderContent (order : Value) : Exn + string :=
  instType ← getProp order "instType";
  instType ← labelled INST_TYPE_MAP instType;
  side ← getProp order "side";
  side ← labelled ORDER_SIDE_MAP side;
  typeText ← ToString instType;
  sideText ← ToString side;
  sz ← getProp order "sz";
  szText ← ToString sz;
  px ← getProp order "px";
  pxPart ← optionalPart "价格: " px;
  avgPx ← getProp order "avgPx";
  avgPxPart ← optionalPart "均价: " avgPx;
  accFillSz ← getProp order "accFillSz";
  accFillSzPart ← optionalPart "成交: " accFillSz;
  mret (joinWith " | "
          ([ "类型: " +:+ typeText; "方向: " +:+ sideText; "数量: " +:+ szText ]
           ++ pxPart ++ avgPxPart ++ accFillSzPart)).

Definition formatOrderRemark (order : Value) : Exn + string :=
  pnl ← getProp order "pnl";
  pnlPart ←
    (if shown pnl then
       text ← ToString pnl;
       mret [ "盈亏: " +:+ (if parseFloat_isNotNegative text then "+" +:+ text else text) ]
     else mret []);
  fee ← getProp order "fee";
  feePart ←
    (if shown fee then
       feeText ← ToString fee;
       feeCcy ← getProp order "feeCcy";
       feeCcyText ← ToString feeCcy;
       mret [ "手续费: " +:+ feeText +:+ " " +:+ feeCcyText ]
     else mret []);
  lever ← getProp order "lever";
  leverPart ←
    (if shown lever then
       text ← ToString lever;
       mret [ "杠杆: " +:+ text +:+ "x" ]
     else mret []);
  ordId ← getProp order "ordId";
  ordIdText ← ToString ordId;
  mret (joinWith " | " (pnlPart ++ feePart ++ leverPart ++ [ "订单ID: " +:+ ordIdText ])).

(** The fields of an order that the three formatters may convert to text. *)
Definition formattedFields : list string :=
  [ "side"; "state"; "instId"; "instType"; "sz"; "px"; "avgPx"; "accFillSz";
    "pnl"; "fee"; "feeCcy"; "lever"; "ordId" ].

(** The [data] that [WechatService.sendOrderNotification(title, date,
    content, remark)] hands to [sendTemplateMessage]; [remark] is [None]
    when the argument is omitted. *)
Definition templateData (title date content : string) (remark : option string) : Value :=
  VObj [ ("first", VObj [ ("value", VStr title); ("color", VStr "#173177") ]);
         ("keyword1", VObj [ ("value", VStr date) ]);
         ("keyword2", VObj [ ("value", VStr content) ]);
         ("remark",
          VObj [ ("value",
                  VStr (match remark with
                        | Some r => if String.eqb r "" then "点击查看详情" else r
                        | None => "点击查看详情"
                        end)) ]) ].

(** [object.a.b] *)
Definition path (object : Value) (a b : string) : Value := field (field object a) b.

End Formatting.

End Legacy.

(** * The service on a concrete platform *)

Module Scenario.

Definition node : Platform := Node.platform (fun _ _ => true).

Definition service : OkxService := construct "0a1b2c3d-api-key" "secret" "passphrase" false.

(** the process starts on 2024-12-26 at 08:10:00.123 UTC *)
Definition world0 : World := boot service 1735200600123.

Definition after (evs : list Event) (w : World) : World :=
  match run (P := node) evs w with Some w' => w' | None => w end.

Definition loginOk : string := Node.text "{'event':'login','code':'0'}".

Definition loginFailed : string :=
  Node.text "{'event':'login','code':'60009','msg':'Login failed.'}".

Definition order1 : Value :=
  VObj [ ("side", VStr "buy"); ("state", VStr "filled"); ("sz", VStr "0.1");
         ("avgPx", VStr "95000"); ("instId", VStr "BTC-USDT");
         ("uTime", VStr "1735200600000") ].

Definition order2 : Value :=
  VObj [ ("side", VStr "sell"); ("state", VStr "live"); ("sz", VStr "2");
         ("avgPx", VStr ""); ("instId", VStr "ETH-USDT");
         ("uTime", VStr "1735200601000") ].

Definition ordersFrame : string :=
  Node.text
    ("{'arg':{'channel':'orders','instType':'ANY'},'data':["
     +:+ "{'side':'buy','state':'filled','sz':'0.1','avgPx':'95000',"
     +:+ "'instId':'BTC-USDT','uTime':'1735200600000'},"
     +:+ "{'side':'sell','state':'live','sz':'2','avgPx':'',"
     +:+ "'instId':'ETH-USDT','uTime':'1735200601000'}]}").

Definition ordersProps : list (string * Value) :=
  [ ("arg", VObj [ ("channel", VStr "orders"); ("instType", VStr "ANY") ]);
    ("data", VArr [order1; order2]) ].

(** a login event that also carries an orders payload *)
Definition mixedFrame : string :=
  Node.text
    ("{'event':'login','code':'1','arg':{'channel':'orders'},'data':["
     +:+ "{'side':'buy','state':'filled','sz':'0.1','avgPx':'95000',"
     +:+ "'instId':'BTC-USDT','uTime':'1735200600000'}]}").

Definition mixedProps : list (string * Value) :=
  [ ("event", VStr "login"); ("code", VStr "1");
    ("arg", VObj [ ("channel", VStr "orders") ]);
    ("data", VArr [order1]) ].

(** the service once its first socket is open *)
Definition connected : World := Eval vm_compute in after [ModuleInit; SocketOpen 0] world0.

End Scenario.

(** * Further scenarios *)

Module Cases.
Import Scenario.

(** socket 0 has closed and five seconds have passed *)
Definition waiting : World :=
  Eval vm_compute in after [SocketClose 0 1006 ""; TimeElapses 5000] connected.

(** socket 0 is open and the first heartbeat is due *)
Definition beating : World := Eval vm_compute in after [TimeElapses 25000] connected.

(** the service after [onModuleDestroy] *)
Definition destroyed : World := Eval vm_compute in after [ModuleDestroy] connected.

(** an orders frame with a [null] between two records *)
Definition nullFrame : string :=
  Node.text
    ("{'arg':{'channel':'orders','instType':'ANY'},'data':["
     +:+ "{'side':'buy','state':'filled','sz':'0.1','avgPx':'95000',"
     +:+ "'instId':'BTC-USDT','uTime':'1735200600000'},null,"
     +:+ "{'side':'sell','state':'live','sz':'2','avgPx':'',"
     +:+ "'instId':'ETH-USDT','uTime':'1735200601000'}]}").

Definition nullProps : list (string * Value) :=
  [ ("arg", VObj [ ("channel", VStr "orders"); ("instType", VStr "ANY") ]);
    ("data", VArr [order1; VNull; order2]) ].

(** an orders frame whose second record has, as [side], an object with an
    own [toString] member *)
Definition opaqueFrame : string :=
  Node.text
    ("{'arg':{'channel':'orders','instType':'ANY'},'data':["
     +:+ "{'side':'buy','state':'filled','sz':'0.1','avgPx':'95000',"
     +:+ "'instId':'BTC-USDT','uTime':'1735200600000'},"
     +:+ "{'side':{'toString':1},'state':'live','sz':'1','instId':'BTC-USDT',"
     +:+ "'uTime':'1735200600500'},"
     +:+ "{'side':'sell','state':'live','sz':'2','avgPx':'',"
     +:+ "'instId':'ETH-USDT','uTime':'1735200601000'}]}").

Definition opaqueOrder : Value :=
  VObj [ ("side", VObj [ ("toString", VNum "1") ]); ("state", VStr "live");
         ("sz", VStr "1"); ("instId", VStr "BTC-USDT"); ("uTime", VStr "1735200600500") ].

Definition opaqueProps : list (string * Value) :=
  [ ("arg", VObj [ ("channel", VStr "orders"); ("instType", VStr "ANY") ]);
    ("data", VArr [order1; opaqueOrder; order2]) ].

(** an orders frame whose [data] is a number *)
Definition numberFrame : string :=
  Node.text "{'arg':{'channel':'orders'},'data':5}".

Definition numberProps : list (string * Value) :=
  [ ("arg", VObj [ ("channel", VStr "orders") ]); ("data", VNum "5") ].

(** an order with a side and a state that the tables do not list *)
Definition unlistedProps : list (string * Value) :=
  [ ("side", VStr "net"); ("state", VStr "order_failed"); ("sz", VStr "1");
    ("instId", VStr "BTC-USDT-SWAP"); ("uTime", VStr "1735200600000") ].

(** the same service with other secrets *)
Definition otherService : OkxService :=
  construct "0a1b2c3d-api-key" "another secret" "another passphrase" false.

(** a log file with one older line *)
Definition logState0 : Logging.LogState :=
  Logging.mkLogState
    (Logging.mkDisk true false (Logging.Content ("older entry" +:+ Logging.newline)))
    "2024/12/26 08:10:00" [].

Definition entry0 : OkxLogEntry :=
  mkEntry INFO CONNECTION "WebSocket连接已建立"
    (VObj [ ("url", VStr "wss://ws.okx.com:8443/ws/v5/private") ]).

Definition logLine0 : string :=
  Eval vm_compute in
    match Logging.formatLogEntry (P := node) "2024/12/26 08:10:00" entry0 with
    | inr logLine => logLine
    | inl _ => ""
    end.

(** the formatted entry without its final line break *)
Definition body0 : string :=
  Eval vm_compute in substring 0 (String.length logLine0 - 1) logLine0.

(** a platform whose notification endpoint fails on every second call *)
Definition flaky : Platform := Node.platform (fun k _ => Nat.even k).

(** a filled spot order, as the earlier revision reads it *)
Definition filledProps : list (string * Value) :=
  [ ("instType", VStr "SPOT"); ("instId", VStr "BTC-USDT"); ("side", VStr "buy");
    ("state", VStr "filled"); ("sz", VStr "0.1"); ("px", VStr "0");
    ("avgPx", VStr "95000"); ("accFillSz", VStr "0.1"); ("pnl", VStr "12.5");
    ("fee", VStr "-0.5"); ("feeCcy", VStr "USDT"); ("lever", VStr "");
    ("ordId", VStr "680800019749904384") ].

(** a notification endpoint, one that answers with [body] and one that
    times out *)
Definition wechat : Wechat.WechatService :=
  Wechat.mkWechat "https://example.invalid/wechat" "openid" "template".

Definition answering (body : Value) : string -> Value -> Value -> Wechat.AxiosError + Value :=
  fun _ _ _ => inr body.

Definition failing : string -> Value -> Value -> Wechat.AxiosError + Value :=
  fun _ _ _ => inl (Wechat.mkAxiosError "timeout of 10000ms exceeded" None).

End Cases.

(** * Properties *)

(** Unfolds the monad and the runtime services. *)
Ltac unfold_m :=
  unfold exec, on_message, logConnection, logAuth, logSubscribe, logOrder,
    logNotify, logSystem, logError, writeLog, logger_log, logger_warn,
    logger_error, clearInterval, clearTimeout, detached, try_catch, lift,
    throw, skip, emit, this, assign, runtime, set_runtime, fresh,
    mbind, mret, M_bind, M_ret in *.

Section Handlers.
Context `{P : Platform}.

Lemma notifications_app (a b : list Effect) :
  notifications (a ++ b) = notifications a ++ notifications b.
Proof. apply omap_app. Qed.

Lemma sent_on_app (s : nat) (a b : list Effect) :
  sent_on s (a ++ b) = sent_on s a ++ sent_on s b.
Proof. apply omap_app. Qed.

Lemma sockets_created_app (a b : list Effect) :
  sockets_created (a ++ b) = sockets_created a ++ sockets_created b.
Proof. apply omap_app. Qed.

Lemma log_entries_app (a b : list Effect) :
  log_entries (a ++ b) = log_entries a ++ log_entries b.
Proof. apply omap_app. Qed.

(** *** The order dispatcher *)

Lemma convertible_text (v : Value) :
  convertible v = true -> exists text, ToString v = inr text.
Proof. unfold convertible. destruct (ToString v); [discriminate|eauto]. Qed.

(** The one exception a conversion throws. *)
Lemma ToString_throws (v : Value) (e : Exn) : ToString v = inl e -> e = notPrimitive.
Proof.
  revert v e. fix IH 1. intros v e.
  destruct v as [| |[]| | |items|props|name]; cbn [ToString]; try discriminate.
  - assert (Hitems : forall parts : Exn + list string,
              parts = (fix elements (xs : list Value) : Exn + list string :=
                 match xs with
                 | [] => inr []
                 | x :: rest =>
                     match match x with
                           | VUndefined | VNull => inr ""
                           | _ => ToString x
                           end with
                     | inl e => inl e
                     | inr s =>
                         match elements rest with
                         | inl e => inl e
                         | inr parts => inr (s :: parts)
                         end
                     end
                 end) items ->
              forall e, parts = inl e -> e = notPrimitive).
    { induction items as [|x items IHitems]; intros parts -> e0; [discriminate|].
      pose proof (IH x) as Hx.
      destruct (match x with VUndefined | VNull => inr "" | _ => ToString x end)
        as [e1|s] eqn:Ex.
      - intros [= <-]. destruct x; try discriminate; apply Hx; exact Ex.
      - specialize (IHitems _ eq_refl).
        match goal with |- context [match ?t with inl _ => _ | inr _ => _ end] =>
          destruct t as [e2|parts] end; [|discriminate].
        intros [= <-]. apply IHitems. reflexivity. }
    specialize (Hitems _ eq_refl).
    match goal with |- context [match ?t with inl _ => _ | inr _ => _ end] =>
      destruct t as [e2|parts] end; [|discriminate].
    intros [= <-]. apply Hitems. reflexivity.
  - destruct (ownProperty props "toString"); [|discriminate]. intros [= <-]. reflexivity.
Qed.

Lemma labelled_convertible (table : list (string * Value)) (v : Value) :
  convertible v = true -> exists label, labelled table v = inr label.
Proof.
  intros H. destruct (convertible_text v H) as [text E].
  unfold labelled. rewrite E. cbn. eauto.
Qed.

Lemma formatSize_convertible (props : list (string * Value)) :
  convertible (lookupObject props "sz") = true ->
  convertible (lookupObject props "avgPx") = true ->
  exists size, formatSize (VObj props) = inr size.
Proof.
  intros Hsz Havg.
  destruct (convertible_text _ Hsz) as [sz Esz], (convertible_text _ Havg) as [avg Eavg].
  unfold formatSize, plusString. cbn. rewrite Esz, Eavg. cbn. case_match; eauto.
Qed.

(** An order record has a rendering. *)
Lemma rendering_record (order : Value) :
  orderRecord order -> exists n, rendering order = inr n.
Proof.
  destruct order as [| | | | | |props|]; try contradiction.
  unfold orderRecord, textFields. rewrite !Forall_cons.
  intros (HuTime & Hside & Hsz & Havg & Hstate & _).
  destruct (convertible_text _ HuTime) as [text EuTime].
  destruct (labelled_convertible ORDER_SIDE_MAP _ Hside) as [side Eside].
  destruct (labelled_convertible ORDER_STATE_MAP _ Hstate) as [state Estate].
  destruct (formatSize_convertible props Hsz Havg) as [size Esize].
  unfold rendering, formatDate. cbn [getProp mbind E_bind mret E_ret].
  rewrite EuTime, Eside, Esize, Estate. eauto.
Qed.

(** One turn of the loop on an object: the record is logged; if its
    notification can be built it is handed to the sink and the outcome is
    logged, otherwise what building it throws leaves the loop. The fields
    and the runtime are untouched. *)
Lemma handleOrder_object (props : list (string * Value)) (w : World) :
  let order := VObj props in
  handleOrder order w =
    match rendering order with
    | inr n =>
        (inr tt,
         mkWorld (svc w) (rt w)
           (out w ++ taken order ++ notified (length (notifications (out w))) order n))
    | inl e => (inl e, mkWorld (svc w) (rt w) (out w ++ taken order))
    end.
Proof.
  cbv zeta. unfold handleOrder, rendering, sendOrderNotification, taken, notified.
  unfold_m. cbn [getProp E_bind E_ret].
  destruct (formatDate _) as [e|time]; cbn -[labelled formatSize];
    [rewrite <- app_assoc; reflexivity|].
  destruct (labelled ORDER_SIDE_MAP _) as [e|side]; cbn -[labelled formatSize];
    [rewrite <- app_assoc; reflexivity|].
  destruct (formatSize _) as [e|size]; cbn -[labelled formatSize];
    [rewrite <- app_assoc; reflexivity|].
  destruct (labelled ORDER_STATE_MAP _) as [e|state]; cbn -[labelled formatSize];
    [rewrite <- app_assoc; reflexivity|].
  rewrite !notifications_app. cbn. rewrite !app_nil_r, <- !app_assoc. reflexivity.
Qed.

Lemma notifications_taken (order : Value) : notifications (taken order) = [].
Proof. reflexivity. Qed.

Lemma silent_taken (order : Value) : silent (taken order).
Proof. split; reflexivity. Qed.

Lemma silent_notified (k : nat) (order : Value) (n : Notification) :
  silent (notified k order n).
Proof. split; reflexivity. Qed.

(** One turn of the loop on an order record: the service fields and the
    runtime are untouched, and exactly one notification is requested. *)
Lemma handleOrder_record (order : Value) (w : World) :
  orderRecord order ->
  exists tr n,
    handleOrder order w = (inr tt, mkWorld (svc w) (rt w) (out w ++ tr)) /\
    rendering order = inr n /\
    tr = taken order ++ notified (length (notifications (out w))) order n /\
    notifications tr = [n] /\
    sockets_created tr = [] /\
    forall s, sent_on s tr = [].
Proof.
  intros Hrec. destruct (rendering_record order Hrec) as [n En].
  destruct order as [| | | | | |props|]; try contradiction.
  pose proof (handleOrder_object props w) as E. cbv zeta in E. rewrite En in E.
  eexists. exists n. split; [exact E|]. split; [exact En|]. repeat split.
Qed.

Lemma forEach_records (orders : list Value) (w : World) :
  Forall orderRecord orders ->
  exists tr,
    forEach handleOrder orders w = (inr tt, mkWorld (svc w) (rt w) (out w ++ tr)) /\
    rendered (notifications tr) orders /\
    sockets_created tr = [] /\
    forall s, sent_on s tr = [].
Proof.
  intros Hall. revert w. induction Hall as [|order orders Hrec _ IH]; intros w.
  - exists []. rewrite app_nil_r. destruct w. repeat split. constructor.
  - destruct (handleOrder_record order w Hrec) as (tr1 & n & E1 & R1 & _ & N1 & C1 & S1).
    destruct (IH (mkWorld (svc w) (rt w) (out w ++ tr1))) as (tr2 & E2 & N2 & C2 & S2).
    exists (tr1 ++ tr2). cbn [forEach]. unfold mbind, M_bind. rewrite E1, E2. cbn.
    rewrite app_assoc, notifications_app, sockets_created_app, N1, C1, C2.
    repeat split.
    + constructor; assumption.
    + intros s. rewrite sent_on_app, S1, S2. reflexivity.
Qed.

Lemma rendered_length (calls : list Notification) (orders : list Value) :
  rendered calls orders -> length calls = length orders.
Proof. apply Forall2_length. Qed.

Lemma appends_refl (w : World) : appends w w [].
Proof. unfold appends. rewrite app_nil_r. auto. Qed.

Lemma appends_trans (w1 w2 w3 : World) (tr1 tr2 : list Effect) :
  appends w1 w2 tr1 -> appends w2 w3 tr2 -> appends w1 w3 (tr1 ++ tr2).
Proof.
  unfold appends. intros (S1 & R1 & O1) (S2 & R2 & O2).
  rewrite S2, R2, O2, O1, app_assoc. auto.
Qed.

Lemma silent_nil : silent [].
Proof. split; auto. Qed.

Lemma silent_app (tr1 tr2 : list Effect) : silent tr1 -> silent tr2 -> silent (tr1 ++ tr2).
Proof.
  intros [C1 S1] [C2 S2]. split.
  - rewrite sockets_created_app, C1, C2. reflexivity.
  - intros s. rewrite sent_on_app, S1, S2. reflexivity.
Qed.

(** One turn of the loop on any value: only output, and nothing sent. *)
Lemma handleOrder_appends (order : Value) (w : World) :
  exists tr, appends w (snd (handleOrder order w)) tr /\ silent tr.
Proof.
  destruct order as [| | | | | |props|].
  7: { pose proof (handleOrder_object props w) as E. cbv zeta in E. rewrite E.
       destruct (rendering (VObj props)) as [e|n]; cbn [snd]; eexists;
         (split; [unfold appends; cbn [svc rt out]; repeat split|]);
         repeat apply silent_app; auto using silent_taken, silent_notified. }
  all: unfold appends, silent, handleOrder, sendOrderNotification, formatDate, formatSize,
         labelled, plusString; unfold_m; cbn;
       rewrite <- ?app_assoc; eexists; repeat split.
Qed.

Lemma forEach_appends (orders : list Value) (w : World) :
  exists tr, appends w (snd (forEach handleOrder orders w)) tr /\ silent tr.
Proof.
  revert w. induction orders as [|order orders IH]; intros w.
  - exists []. split; [apply appends_refl | apply silent_nil].
  - destruct (handleOrder_appends order w) as (tr1 & A1 & S1).
    cbn [forEach]. unfold mbind, M_bind.
    destruct (handleOrder order w) as [[e|[]] w1]; cbn in *.
    + exists tr1. auto.
    + destruct (IH w1) as (tr2 & A2 & S2).
      exists (tr1 ++ tr2). split; [eapply appends_trans; eauto | apply silent_app; auto].
Qed.

Lemma handleOrderData_appends (orders : Value) (w : World) :
  exists tr, appends w (snd (handleOrderData orders w)) tr /\ silent tr.
Proof.
  unfold handleOrderData, lift, mbind, M_bind.
  destruct (iterate orders) as [e|items]; cbn.
  - exists []. split; [apply appends_refl | apply silent_nil].
  - apply forEach_appends.
Qed.

(** *** The message decoder *)

Lemma not_pong (data : string) : data <> "pong" -> String.eqb data "pong" = false.
Proof. intros H. apply String.eqb_neq. exact H. Qed.

Lemma ws_send_spec (s0 : nat) (p : Payload) (w : World) :
  exists tr, appends w (snd (ws_send s0 p w)) tr /\
    sockets_created tr = [] /\ notifications tr = [] /\ log_entries tr = [] /\
    forall s, sent_on s tr =
      if decide (s0 = s)
      then match sockets (rt w) !! s0 with Some OPEN => [p] | _ => [] end
      else [].
Proof.
  unfold ws_send, appends. unfold_m.
  destruct (sockets (rt w) !! s0) as [[]|]; cbn.
  2: { exists [ESend s0 p]. repeat split. intros s. cbn. repeat case_decide; done. }
  all: exists []; rewrite app_nil_r; repeat split; intros s; case_decide; done.
Qed.

Lemma send_json_spec (v : Value) (w : World) :
  exists tr, appends w (snd (send_json v w)) tr /\
    sockets_created tr = [] /\ notifications tr = [] /\ log_entries tr = [] /\
    forall s, sent_on s tr = transmits w s (PJson v).
Proof.
  unfold send_json, transmits. unfold this, mbind, M_bind.
  destruct (ws (svc w)) as [s0|].
  - apply ws_send_spec.
  - exists []. split; [apply appends_refl|]. repeat split.
Qed.

Lemma subscribeOrders_spec (w : World) :
  exists tr, appends w (snd (subscribeOrders w)) tr /\
    sockets_created tr = [] /\ notifications tr = [] /\
    forall s, sent_on s tr = transmits w s (PJson subscribeMessage).
Proof.
  unfold subscribeOrders. unfold_m. cbn -[send_json].
  match goal with |- context [send_json ?v ?w0] =>
    destruct (send_json_spec v w0) as (tr & (Hs & Hr & Ho) & C & N & L & S);
    destruct (send_json v w0) as [r w1] end.
  cbn in *.
  eexists. unfold appends. rewrite Hs, Hr, Ho, <- !app_assoc. repeat split.
  - rewrite !sockets_created_app, C. reflexivity.
  - rewrite !notifications_app, N. reflexivity.
  - intros s. rewrite !sent_on_app, S. reflexivity.
Qed.

Ltac leaf := unfold appends; cbn; rewrite <- ?app_assoc; eexists; repeat split.
Ltac empty_leaf := exists []; unfold appends; cbn; rewrite ?app_nil_r; repeat split.

(** Whatever the frame, [handleMessage] returns normally, leaves the
    fields and the runtime as they are and creates no socket; the only
    frame it answers is a login success, with a subscribe request. *)
Lemma handleMessage_spec (data : string) (w : World) :
  exists tr,
    fst (handleMessage data w) = inr tt /\
    appends w (snd (handleMessage data w)) tr /\
    sockets_created tr = [] /\
    forall s, sent_on s tr =
      if isLoginAnswer true data then transmits w s (PJson subscribeMessage) else [].
Proof.
  unfold handleMessage, isLoginAnswer.
  destruct (String.eqb data "pong") eqn:Epong; [empty_leaf|].
  cbn [negb andb]. unfold_m.
  destruct (JSON_parse data) as [e|message]; [leaf|].
  destruct (getProp message "event") as [e|event] eqn:Eevent; [leaf|].
  cbn -[subscribeOrders handleOrderData].
  destruct (strictEqStr event "login") eqn:Elogin.
  { destruct (getProp message "code") as [e|code] eqn:Ecode; [leaf|].
    cbn -[subscribeOrders handleOrderData].
    destruct (strictEqStr code "0") eqn:Ezero; cbn -[subscribeOrders handleOrderData].
    - match goal with |- context [subscribeOrders ?w0] =>
        destruct (subscribeOrders_spec w0) as (tr & (Hs & Hr & Ho) & C & N & S);
        destruct (subscribeOrders w0) as [[e|[]] w1] end;
      cbn in *; unfold appends; cbn; rewrite Hs, Hr, Ho, <- !app_assoc;
      eexists; repeat split;
      try (rewrite !sockets_created_app, C; reflexivity);
      intros s; rewrite !sent_on_app, S; cbn; rewrite ?app_nil_r; reflexivity.
    - destruct (getProp message "msg") as [e|msg]; [leaf|].
      cbn. destruct (ToString msg) as [e|text]; leaf. }
  destruct (getProp message "code") as [e0|code] eqn:Ecode.
  { destruct message; cbn in Eevent, Ecode; try discriminate. }
  cbn [andb].
  destruct (strictEqStr event "subscribe") eqn:Esub.
  { destruct (getProp message "arg") as [e|arg]; leaf. }
  destruct (strictEqStr event "error") eqn:Eerr.
  { destruct (getProp message "msg") as [e|msg]; [leaf|].
    cbn. destruct (ToString msg) as [e|text]; [leaf|].
    cbn. destruct (ToString code) as [e|codeText]; leaf. }
  destruct (getProp message "arg") as [e|arg]; [leaf|].
  destruct arg as [| | | | | |argProps|]; cbn -[handleOrderData]; try (empty_leaf; fail).
  destruct (strictEqStr (lookupObject argProps "channel") "orders"); [|empty_leaf].
  destruct (getProp message "data") as [e|orders]; [leaf|].
  cbn -[handleOrderData].
  destruct (truthy orders); [|empty_leaf].
  destruct (handleOrderData_appends orders w) as (tr & (Hs & Hr & Ho) & C & S).
  destruct (handleOrderData orders w) as [[e|[]] w1]; cbn in *.
  - unfold appends; cbn. rewrite Hs, Hr, Ho, <- !app_assoc.
    eexists. repeat split.
    + rewrite !sockets_created_app, C. reflexivity.
    + intros s. rewrite !sent_on_app, S. reflexivity.
  - exists tr. unfold appends. auto.
Qed.

(** C10. Event fields take precedence over the orders channel: a parsed
    object whose [event] is ["login"], ["subscribe"] or ["error"] never
    reaches the order dispatcher, whatever its [arg] and [data] fields
    hold, so the notification sink is not called. *)
Theorem control_event_never_dispatches (data : string) (props : list (string * Value))
    (w : World) :
  JSON_parse data = inr (VObj props) ->
  isControlEvent (lookupObject props "event") = true ->
  notifications (out (snd (handleMessage data w))) = notifications (out w).
Proof.
  intros Hparse Hevent. unfold handleMessage.
  destruct (String.eqb data "pong"); [reflexivity|].
  unfold_m. rewrite Hparse. cbn -[subscribeOrders handleOrderData].
  unfold isControlEvent in Hevent.
  destruct (strictEqStr (lookupObject props "event") "login").
  - cbn -[subscribeOrders handleOrderData].
    destruct (strictEqStr (lookupObject props "code") "0");
      cbn -[subscribeOrders handleOrderData].
    + match goal with |- context [subscribeOrders ?w0] =>
        destruct (subscribeOrders_spec w0) as (tr & (Hs & Hr & Ho) & C & N & S);
        destruct (subscribeOrders w0) as [[e|[]] w1] end;
      cbn in *; rewrite Ho, !notifications_app, N; cbn; rewrite ?app_nil_r; reflexivity.
    + destruct (ToString (lookupObject props "msg")) as [e|text]; cbn;
        rewrite !notifications_app; cbn; rewrite !app_nil_r; reflexivity.
  - destruct (strictEqStr (lookupObject props "event") "subscribe").
    + cbn. rewrite !notifications_app. cbn. rewrite !app_nil_r. reflexivity.
    + destruct (strictEqStr (lookupObject props "event") "error"); [|discriminate].
      cbn.
      destruct (ToString (lookupObject props "msg")) as [e|text]; cbn;
        [rewrite !notifications_app; cbn; rewrite !app_nil_r; reflexivity|].
      destruct (ToString (lookupObject props "code")) as [e|codeText]; cbn;
        rewrite !notifications_app; cbn; rewrite !app_nil_r; reflexivity.
Qed.

(** C2. An order-data frame (a parsed object that is not a control event,
    whose [arg.channel] is ["orders"] and whose [data] is an array of [N]
    order records) makes the handler call [sendOrderNotification] exactly
    [N] times, once per record and in the order of the array; the [i]-th
    call carries the rendering of the [i]-th record. The handler returns
    normally and changes neither the fields nor the runtime. *)
Theorem orders_frame_notifies_each_record (data : string)
    (props : list (string * Value)) (orders : list Value) (w : World) :
  data <> "pong" ->
  JSON_parse data = inr (VObj props) ->
  isControlEvent (lookupObject props "event") = false ->
  channelOf props = VStr "orders" ->
  lookupObject props "data" = VArr orders ->
  Forall orderRecord orders ->
  exists tr,
    handleMessage data w = (inr tt, mkWorld (svc w) (rt w) (out w ++ tr)) /\
    rendered (notifications tr) orders /\
    length (notifications tr) = length orders.
Proof.
  intros Hpong Hparse Hevent Hchan Hdata Hrecords.
  unfold handleMessage. rewrite (not_pong _ Hpong).
  unfold_m. rewrite Hparse. cbn -[handleOrderData].
  unfold isControlEvent in Hevent.
  apply orb_false_iff in Hevent as [Hevent Eerr].
  apply orb_false_iff in Hevent as [Elogin Esub].
  rewrite Elogin, Esub, Eerr. cbn -[handleOrderData].
  unfold channelOf in Hchan.
  destruct (lookupObject props "arg") as [| | | | | |argProps|]; try discriminate.
  cbn -[handleOrderData]. rewrite Hchan, Hdata. cbn -[handleOrderData].
  unfold handleOrderData, lift, mbind, M_bind. cbn [iterate].
  destruct (forEach_records orders w Hrecords) as (tr & E & N & _).
  rewrite E. exists tr. split; [reflexivity|]. split; [exact N|].
  apply rendered_length, N.
Qed.

(** C5, as the code has it. A text frame that is not valid JSON never
    raises past the handler and changes neither the fields nor the
    runtime: the failure is logged, with the first 500 characters of the
    raw payload, and the frame is dropped. A frame that parses to an
    object matching none of the known frames is dropped too, but
    silently: the handler returns without writing anything. *)
Theorem undecodable_frame_is_dropped (data : string) (w : World) :
  data <> "pong" ->
  (forall e, JSON_parse data = inl e ->
     handleMessage data w =
       (inr tt, mkWorld (svc w) (rt w) (out w ++ decodeFailureLog data e))) /\
  (forall props, JSON_parse data = inr (VObj props) -> unclassified props ->
     handleMessage data w = (inr tt, w)).
Proof.
  intros Hpong. split.
  - intros e Hparse. unfold handleMessage. rewrite (not_pong _ Hpong).
    unfold_m. rewrite Hparse. cbn. rewrite <- app_assoc. reflexivity.
  - intros props Hparse [Hevent Horders].
    unfold handleMessage. rewrite (not_pong _ Hpong).
    unfold_m. rewrite Hparse. cbn -[handleOrderData].
    unfold isControlEvent in Hevent.
    apply orb_false_iff in Hevent as [Hevent Eerr].
    apply orb_false_iff in Hevent as [Elogin Esub].
    rewrite Elogin, Esub, Eerr. cbn -[handleOrderData].
    unfold channelOf in Horders.
    destruct (lookupObject props "arg") as [| | | | | |argProps|];
      cbn -[handleOrderData]; try reflexivity.
    destruct (strictEqStr (lookupObject argProps "channel") "orders");
      cbn -[handleOrderData]; [|reflexivity].
    cbn in Horders. rewrite Horders. reflexivity.
Qed.

(** *** Connecting *)

(** A [connectWebSocket()] call that finds the guard set only logs a warning. *)
Lemma connect_guarded (w : World) :
  isConnecting (svc w) = true ->
  connectWebSocket w =
    (inr tt, mkWorld (svc w) (rt w) (out w ++ [ELogger LWarn "正在连接中，跳过重复连接"])).
Proof. intros H. unfold connectWebSocket. unfold_m. rewrite H. reflexivity. Qed.

Lemma cleanup_spec (w : World) :
  exists tr,
    cleanup w = (inr tt, mkWorld (cleaned (svc w)) (cleaned_runtime (svc w) (rt w)) (out w ++ tr)) /\
    silent tr /\ notifications tr = [].
Proof.
  destruct w as [[s p r ic sr ak sk pp sim] [socks tms nh clk] tr0].
  unfold cleanup, ws_close, cleaned, cleaned_runtime. unfold_m.
  destruct p as [p|], r as [r|], s as [s|]; cbn;
    try (destruct (socks !! s) as [[]|]; cbn);
    rewrite <- ?app_assoc;
    first [ exists []; rewrite app_nil_r; repeat split; fail
          | eexists; repeat split ].
Qed.

Lemma connect_unguarded (w : World) :
  isConnecting (svc w) = false ->
  exists tr,
    connectWebSocket w =
      (inr tt,
       mkWorld (set_ws (Some (nextHandle (rt w))) (cleaned (set_isConnecting true (svc w))))
         (set_socket (nextHandle (rt w)) CONNECTING
            (mkRuntime (closing (ws (svc w)) (sockets (rt w)))
               (cancelled (reconnectTimeout (svc w))
                  (cancelled (pingInterval (svc w)) (timers (rt w))))
               (S (nextHandle (rt w))) (clock (rt w))))
         (out w ++ tr)) /\
    sockets_created tr = [nextHandle (rt w)] /\
    notifications tr = [] /\
    forall s, sent_on s tr = [].
Proof.
  intros Hguard. unfold connectWebSocket, new_WebSocket.
  unfold_m. cbn -[cleanup]. rewrite Hguard.
  match goal with |- context [cleanup ?w0] =>
    destruct (cleanup_spec w0) as (tr & E & [C S] & N); rewrite E end.
  cbn. rewrite <- !app_assoc. eexists. split; [reflexivity|].
  repeat split.
  - rewrite sockets_created_app, C. reflexivity.
  - rewrite notifications_app, N. reflexivity.
  - intros s. rewrite sent_on_app, S. reflexivity.
Qed.

Lemma repeatedly_guarded (n : nat) (w : World) :
  isConnecting (svc w) = true ->
  repeatedly n connectWebSocket w =
    (inr tt,
     mkWorld (svc w) (rt w)
       (out w ++ replicate n (ELogger LWarn "正在连接中，跳过重复连接"))).
Proof.
  revert w. induction n as [|n IH]; intros w Hguard.
  - cbn. unfold skip, mret, M_ret. rewrite app_nil_r. destruct w; reflexivity.
  - cbn [repeatedly]. unfold mbind, M_bind. rewrite (connect_guarded w Hguard).
    rewrite IH by exact Hguard. cbn. rewrite <- app_assoc. reflexivity.
Qed.

Lemma sockets_created_warnings (n : nat) (msg : string) :
  sockets_created (replicate n (ELogger LWarn msg)) = [].
Proof. induction n; cbn; auto. Qed.

(** C7. The first [connectWebSocket()] sets the [isConnecting] guard and
    creates one socket. Every further call made while the guard is set is
    a no-op: the fields and the runtime stay as they are (a warning is
    logged), so however many calls follow, exactly one socket exists. *)
Theorem repeated_connect_creates_one_socket (w : World) (n : nat) :
  isConnecting (svc w) = false ->
  let w1 := exec connectWebSocket w in
  let wn := exec (repeatedly n connectWebSocket) w1 in
  isConnecting (svc w1) = true /\
  sockets_created (out w1) = sockets_created (out w) ++ [nextHandle (rt w)] /\
  svc wn = svc w1 /\ rt wn = rt w1 /\
  sockets_created (out wn) = sockets_created (out w1).
Proof.
  intros Hguard. cbv zeta.
  destruct (connect_unguarded w Hguard) as (tr & E & C & _).
  unfold exec, detached. rewrite E. cbn [snd svc rt out].
  assert (Hset : isConnecting
            (set_ws (Some (nextHandle (rt w))) (cleaned (set_isConnecting true (svc w)))) = true)
    by reflexivity.
  rewrite repeatedly_guarded by exact Hset. cbn [snd svc rt out].
  rewrite !sockets_created_app, C, sockets_created_warnings, app_nil_r. auto.
Qed.

(** *** Formatting *)

(** C8, as the code has it. For an order whose [sz] is a string and whose
    [avgPx] is a string or absent, [formatSize] returns the size followed
    by [" @ "] and the average fill price when that price is present and
    is neither the empty text nor the text ["0"], and the size alone
    otherwise: the test is on the text, so a zero written in another way,
    as ["0.0"], is appended. For an order record that text is the size
    argument of the one notification the dispatcher sends for it. *)
Theorem formatted_size_is_size_at_price (props : list (string * Value))
    (sz : string) (avgPx : option string) (w : World) :
  lookupObject props "sz" = VStr sz ->
  lookupObject props "avgPx" = from_option VStr VUndefined avgPx ->
  formatSize (VObj props) = inr (VStr (sizeText sz avgPx)) /\
  (orderRecord (VObj props) ->
   map n_size (notifications (out (snd (handleOrder (VObj props) w)))) =
     map n_size (notifications (out w)) ++ [VStr (sizeText sz avgPx)]).
Proof.
  intros Hsz Havg.
  assert (Hfmt : formatSize (VObj props) = inr (VStr (sizeText sz avgPx))).
  { unfold formatSize, plusString. cbn [getProp mbind E_bind]. rewrite Hsz, Havg.
    destruct avgPx as [a|]; cbn; [|reflexivity].
    destruct (String.eqb a ""), (String.eqb a "0"); reflexivity. }
  split; [exact Hfmt|]. intros Hrec.
  destruct (handleOrder_record (VObj props) w Hrec) as (tr & n & E & R & _ & N & _).
  rewrite E. cbn [snd out]. rewrite notifications_app, N, map_app. f_equal.
  unfold rendering in R. cbn [getProp mbind E_bind] in R. rewrite Hfmt in R.
  destruct (formatDate _); [discriminate|].
  destruct (labelled ORDER_SIDE_MAP _); [discriminate|].
  cbn [mbind E_bind] in R.
  destruct (labelled ORDER_STATE_MAP _); [discriminate|].
  cbn in R. apply (inj inr) in R. subst n. reflexivity.
Qed.

(** C6. [sign] concatenates timestamp, method, path and body (the empty
    string when the body is omitted) in that order, feeds the result to an
    HMAC created for ["sha256"] with the secret key, and returns its
    ["base64"] digest. It reads no other field: two services with the same
    secret return the same signature for the same inputs. *)
Theorem sign_is_hmac_of_concatenation (o o' : OkxService)
    (timestamp method requestPath : string) (body : option string) :
  sign o timestamp method requestPath body =
    digest (update (createHmac "sha256" (secretKey o))
              (timestamp +:+ method +:+ requestPath +:+ default "" body))
           "base64" /\
  sign o timestamp method requestPath None = sign o timestamp method requestPath (Some "") /\
  (secretKey o' = secretKey o ->
   sign o' timestamp method requestPath body = sign o timestamp method requestPath body).
Proof.
  unfold sign. repeat split. intros ->. reflexivity.
Qed.

(** *** Socket handlers, timers and lifecycle hooks *)

Lemma scheduleReconnect_spec (w : World) :
  exists tr,
    scheduleReconnect w =
      (inr tt,
       if shouldReconnect (svc w)
       then mkWorld (set_reconnectTimeout (Some (nextHandle (rt w))) (svc w))
              (set_timer (nextHandle (rt w)) (reconnectTimer (rt w)) (take_handle (rt w)))
              (out w ++ tr)
       else w) /\
    silent tr /\ notifications tr = [].
Proof.
  unfold scheduleReconnect, setTimeout. unfold_m. cbn.
  destruct (shouldReconnect (svc w)); cbn.
  - rewrite <- !app_assoc. eexists. repeat split.
  - exists []. repeat split.
Qed.

Lemma on_error_spec (message : string) (w : World) :
  exists tr,
    on_error message w = (inr tt, mkWorld (set_isConnecting false (svc w)) (rt w) (out w ++ tr)) /\
    silent tr /\ notifications tr = [].
Proof.
  unfold on_error. unfold_m. cbn. rewrite <- !app_assoc. eexists. repeat split.
Qed.

Lemma on_close_spec (code : Z) (reason : string) (w : World) :
  exists tr,
    on_close code reason w =
      (inr tt,
       if shouldReconnect (svc w)
       then mkWorld (set_reconnectTimeout (Some (nextHandle (rt w)))
                       (set_isConnecting false (svc w)))
              (set_timer (nextHandle (rt w)) (reconnectTimer (rt w)) (take_handle (rt w)))
              (out w ++ tr)
       else mkWorld (set_isConnecting false (svc w)) (rt w) (out w ++ tr)) /\
    silent tr /\ notifications tr = [].
Proof.
  unfold on_close. unfold_m. cbn -[scheduleReconnect].
  match goal with |- context [scheduleReconnect ?w0] =>
    destruct (scheduleReconnect_spec w0) as (tr & E & [C S] & N); rewrite E end.
  cbn. destruct (shouldReconnect (svc w)); cbn; rewrite <- ?app_assoc;
    eexists; (split; [reflexivity|]); repeat split;
    rewrite ?sockets_created_app, ?notifications_app, ?C, ?N; try reflexivity;
    intros s; rewrite ?sent_on_app, ?S; reflexivity.
Qed.

Lemma on_open_spec (w : World) :
  exists tr,
    exec on_open w =
      mkWorld (set_pingInterval (Some (nextHandle (rt w))) (set_isConnecting false (svc w)))
        (set_timer (nextHandle (rt w)) (heartbeatTimer (rt w)) (take_handle (rt w)))
        (out w ++ tr) /\
    sockets_created tr = [] /\ notifications tr = [] /\
    forall s, sent_on s tr = transmits w s (PJson (loginRequest w)).
Proof.
  unfold exec, on_open, login, startPing, setInterval. unfold_m. cbn -[send_json].
  match goal with |- context [send_json ?v ?w0] =>
    destruct (send_json_spec v w0) as (tr & (Hs & Hr & Ho) & C & N & L & S);
    destruct (send_json v w0) as [[e|[]] w1] end;
  cbn in *; destruct w1 as [svc1 rt1 out1]; cbn in *; subst svc1 rt1 out1;
  rewrite <- ?app_assoc; eexists; (split; [reflexivity|]); repeat split;
  rewrite ?sockets_created_app, ?notifications_app, ?C, ?N; try reflexivity;
  intros s; rewrite ?sent_on_app, ?S; cbn; rewrite ?app_nil_r; reflexivity.
Qed.

Lemma pingTick_spec (w : World) :
  exists tr,
    fst (pingTick w) = inr tt /\ appends w (snd (pingTick w)) tr /\
    sockets_created tr = [] /\ notifications tr = [] /\
    forall s, sent_on s tr = transmits w s (PText "ping").
Proof.
  unfold pingTick, transmits, ws_send, appends. unfold_m.
  destruct (ws (svc w)) as [s0|]; cbn; [|empty_leaf].
  destruct (sockets (rt w) !! s0) as [[]|] eqn:E; cbn; rewrite ?E; cbn.
  2: { exists [ESend s0 (PText "ping")]. repeat split. intros s. cbn.
       case_decide; reflexivity. }
  all: exists []; rewrite app_nil_r; repeat split; intros s; case_decide; reflexivity.
Qed.

Lemma onModuleDestroy_spec (w : World) :
  exists tr,
    exec onModuleDestroy w =
      mkWorld (cleaned (set_shouldReconnect false (svc w)))
        (cleaned_runtime (svc w) (rt w)) (out w ++ tr) /\
    silent tr /\ notifications tr = [].
Proof.
  unfold exec, onModuleDestroy. unfold_m. cbn -[cleanup].
  match goal with |- context [cleanup ?w0] =>
    destruct (cleanup_spec w0) as (tr & E & [C S] & N); rewrite E end.
  cbn. rewrite <- !app_assoc. eexists. split; [reflexivity|]. repeat split.
  - rewrite !sockets_created_app, C. reflexivity.
  - intros s. rewrite !sent_on_app, S. reflexivity.
  - rewrite !notifications_app, N. reflexivity.
Qed.

End Handlers.

(** ** The worlds the event loop can reach *)

(** [Some a = Some w'] in [H]: replaces [w'] by [a]. *)
Ltac some_eq H :=
  match type of H with
  | Some ?a = Some ?b => apply (inj Some) in H; subst b
  end.

(** Splits a lookup in an updated map on whether the keys are equal. *)
Ltac lookup_insert_cases H :=
  match type of H with
  | <[?k := _]> _ !! ?k' = _ =>
      destruct (decide (k = k')) as [<-|?];
      [ rewrite lookup_insert_eq in H | rewrite lookup_insert_ne in H by done ]
  end.

Section Invariant.

Lemma callback_cases (cb : Callback) : cb = PingTick \/ cb = Reconnect.
Proof. destruct cb; auto. Qed.

Lemma cancelled_lookup (h : option nat) (tms : gmap nat Timer) (t : nat) (tm : Timer) :
  cancelled h tms !! t = Some tm -> tms !! t = Some tm /\ h <> Some t.
Proof.
  destruct h as [t0|]; cbn; [|auto].
  destruct (decide (t0 = t)) as [->|Hne].
  - rewrite lookup_delete_eq. discriminate.
  - rewrite lookup_delete_ne by done. intros H. split; [done | congruence].
Qed.

(** Under the invariant, [cleanup] leaves no timer armed. *)
Lemma cleanup_cancels_all (o : OkxService) (r : Runtime) :
  Inv o r ->
  cancelled (reconnectTimeout o) (cancelled (pingInterval o) (timers r)) = ∅.
Proof.
  intros HI. apply map_empty. intros t.
  destruct (cancelled _ _ !! t) as [tm|] eqn:E; [|reflexivity].
  apply cancelled_lookup in E as [E Hrec].
  apply cancelled_lookup in E as [E Hping].
  destruct (callback_cases (callback tm)) as [Hcb|Hcb].
  - destruct (inv_heartbeat _ _ HI t tm E Hcb) as [Href _]. congruence.
  - destruct (inv_reconnect _ _ HI t tm E Hcb) as [Href _]. congruence.
Qed.

Lemma closing_lookup (h : option nat) (socks : gmap nat ReadyState) (s : nat) (st : ReadyState) :
  closing h socks !! s = Some st ->
  (socks !! s = Some st /\ (h = Some s -> st <> CONNECTING /\ st <> OPEN)) \/
  (h = Some s /\ st = CLOSING /\ (socks !! s = Some CONNECTING \/ socks !! s = Some OPEN)).
Proof.
  destruct h as [s0|]; cbn; [|intros H; left; split; [done|discriminate]].
  destruct (socks !! s0) as [[]|] eqn:E0.
  1, 2: destruct (decide (s0 = s)) as [->|Hne];
        [ rewrite lookup_insert_eq; intros [= <-]; right; auto
        | rewrite lookup_insert_ne by done; intros H; left; split; [done|congruence] ].
  all: intros H; left; split; [done|]; intros [= ->]; rewrite E0 in H;
       split; congruence.
Qed.

Lemma closing_all_closed (h : option nat) (socks : gmap nat ReadyState) :
  all_closed socks -> closing h socks = socks.
Proof.
  intros Hall. destruct h as [s0|]; cbn; [|reflexivity].
  destruct (socks !! s0) as [st|] eqn:E; [|reflexivity].
  rewrite (Hall _ _ E). reflexivity.
Qed.

Lemma Inv_flags (o : OkxService) (r : Runtime) (b : bool) :
  Inv o r -> Inv (set_isConnecting b o) r /\ Inv (set_shouldReconnect b o) r.
Proof. intros [I1 I2 I3 I4]. split; constructor; auto. Qed.

Lemma Inv_elapse (o : OkxService) (r : Runtime) (ms : Z) :
  Inv o r -> Inv o (advance ms r).
Proof. intros [I1 I2 I3 I4]. constructor; auto. Qed.

(** ['open'] on a connecting socket, then [on_open] *)
Lemma Inv_open (o : OkxService) (r : Runtime) (s : nat) :
  Inv o r -> sockets r !! s = Some CONNECTING ->
  let r0 := set_socket s OPEN r in
  Inv (set_pingInterval (Some (nextHandle r0)) (set_isConnecting false o))
      (set_timer (nextHandle r0) (heartbeatTimer r0) (take_handle r0)).
Proof.
  intros [I1 I2 I3 I4] Hs. cbn. constructor; cbn.
  - intros t tm H Hcb. lookup_insert_cases H.
    + injection H as <-. discriminate.
    + destruct (I1 t tm H Hcb) as (_ & _ & Hall). specialize (Hall _ _ Hs). discriminate.
  - intros t tm H Hcb. lookup_insert_cases H.
    + split; [reflexivity|]. intros s' H'. lookup_insert_cases H'; [discriminate|].
      assert (s' = s) by (eapply I3; eauto; discriminate). congruence.
    + destruct (I2 t tm H Hcb) as [_ Hno]. destruct (Hno _ Hs).
  - intros s1 s2 st1 st2 H1 H2 L1 L2.
    lookup_insert_cases H1; lookup_insert_cases H2; try reflexivity.
    + eapply I3; eauto; discriminate.
    + eapply I3; eauto; discriminate.
    + eapply I3; eauto.
  - intros s' st H Hst. lookup_insert_cases H.
    + eapply I4; eauto.
    + eapply I4; eauto.
Qed.

(** ['error'] on a socket that is not closed, then [on_error] *)
Lemma Inv_error (o : OkxService) (r : Runtime) (s : nat) (st : ReadyState) :
  Inv o r -> sockets r !! s = Some st -> st <> CLOSED ->
  Inv (set_isConnecting false o) (set_socket s CLOSING r).
Proof.
  intros [I1 I2 I3 I4] Hs Hlive. constructor; cbn.
  - intros t tm H Hcb. destruct (I1 t tm H Hcb) as (_ & _ & Hall).
    destruct Hlive. eapply Hall; eauto.
  - intros t tm H Hcb. destruct (I2 t tm H Hcb) as [Href Hno]. split; [done|].
    intros s' H'. lookup_insert_cases H'; [discriminate|]. eapply Hno; eauto.
  - intros s1 s2 st1 st2 H1 H2 L1 L2.
    lookup_insert_cases H1; lookup_insert_cases H2; try reflexivity.
    + eapply I3; eauto.
    + eapply I3; eauto.
    + eapply I3; eauto.
  - intros s' st' H Hst. lookup_insert_cases H.
    + injection H as <-. destruct Hst; discriminate.
    + eapply I4; eauto.
Qed.

(** ['close'] on a socket that is not closed: once it is closed, every
    socket is. *)
Lemma close_all_closed (o : OkxService) (r : Runtime) (s : nat) (st : ReadyState) :
  Inv o r -> sockets r !! s = Some st -> st <> CLOSED ->
  all_closed (<[s := CLOSED]> (sockets r)).
Proof.
  intros [I1 I2 I3 I4] Hs Hlive s' st' H. lookup_insert_cases H; [congruence|].
  destruct (decide (st' = CLOSED)) as [|Hlive']; [done|].
  exfalso. assert (s' = s) by (eapply I3; eauto). congruence.
Qed.

Lemma Inv_close (o : OkxService) (r : Runtime) (s : nat) (st : ReadyState) :
  Inv o r -> sockets r !! s = Some st -> st <> CLOSED ->
  let r0 := set_socket s CLOSED r in
  Inv (set_isConnecting false o) r0 /\
  Inv (set_reconnectTimeout (Some (nextHandle r0)) (set_isConnecting false o))
      (set_timer (nextHandle r0) (reconnectTimer r0) (take_handle r0)).
Proof.
  intros HI Hs Hlive. pose proof (close_all_closed o r s st HI Hs Hlive) as Hall.
  destruct HI as [I1 I2 I3 I4]. cbn.
  assert (Hnone : forall t tm, timers r !! t = Some tm -> callback tm = Reconnect -> False).
  { intros t tm H Hcb. destruct (I1 t tm H Hcb) as (_ & _ & Hall').
    destruct Hlive. eapply Hall'; eauto. }
  split; constructor; cbn.
  - intros t tm H Hcb. destruct (Hnone t tm H Hcb).
  - intros t tm H Hcb. destruct (I2 t tm H Hcb) as [Href Hno]. split; [done|].
    intros s' H'. specialize (Hall _ _ H'). discriminate.
  - intros s1 s2 st1 st2 H1 H2 L1 L2. destruct L1. eapply Hall; eauto.
  - intros s' st' H Hst. specialize (Hall _ _ H). destruct Hst; congruence.
  - intros t tm H Hcb. lookup_insert_cases H.
    + injection H as <-. auto.
    + destruct (Hnone t tm H Hcb).
  - intros t tm H Hcb. lookup_insert_cases H.
    + injection H as <-. discriminate.
    + destruct (I2 t tm H Hcb) as [Href Hno]. split; [done|].
      intros s' H'. specialize (Hall _ _ H'). discriminate.
  - intros s1 s2 st1 st2 H1 H2 L1 L2. destruct L1. eapply Hall; eauto.
  - intros s' st' H Hst. specialize (Hall _ _ H). destruct Hst; congruence.
Qed.

(** A heartbeat tick *)
Lemma Inv_fire_heartbeat (o : OkxService) (r : Runtime) (t : nat) (tm : Timer) :
  Inv o r -> timers r !! t = Some tm -> callback tm = PingTick ->
  Inv o (rearm t tm r).
Proof.
  intros [I1 I2 I3 I4] Ht Hcb. unfold rearm.
  destruct (period tm) as [ms|]; constructor; cbn; auto.
  - intros t' tm' H Hcb'. lookup_insert_cases H.
    + injection H as <-. cbn in Hcb'. congruence.
    + eauto.
  - intros t' tm' H Hcb'. lookup_insert_cases H; eauto.
  - intros t' tm' H Hcb'. apply lookup_delete_Some in H as [_ H]. eauto.
  - intros t' tm' H Hcb'. apply lookup_delete_Some in H as [_ H]. eauto.
Qed.

(** The reconnect timer fires: it is disarmed, and since it was armed
    every socket is closed and no other reconnect timer is armed. *)
Lemma Inv_fire_reconnect (o : OkxService) (r : Runtime) (t : nat) (tm : Timer) :
  Inv o r -> timers r !! t = Some tm -> callback tm = Reconnect ->
  rearm t tm r = drop_timer t r /\ Inv o (drop_timer t r) /\ all_closed (sockets r).
Proof.
  intros HI Ht Hcb. pose proof HI as [I1 I2 I3 I4].
  destruct (I1 t tm Ht Hcb) as (Href & Hperiod & Hall).
  unfold rearm. rewrite Hperiod. split; [reflexivity|]. split; [|exact Hall].
  constructor; cbn; auto.
  - intros t' tm' H Hcb'. apply lookup_delete_Some in H as [_ H]. eauto.
  - intros t' tm' H Hcb'. apply lookup_delete_Some in H as [_ H]. eauto.
Qed.

(** [connectWebSocket()] past its guard, while every socket is closed *)
Lemma Inv_connect (o : OkxService) (r : Runtime) :
  Inv o r -> all_closed (sockets r) ->
  Inv (set_ws (Some (nextHandle r)) (cleaned (set_isConnecting true o)))
      (set_socket (nextHandle r) CONNECTING
         (mkRuntime (closing (ws o) (sockets r))
            (cancelled (reconnectTimeout o) (cancelled (pingInterval o) (timers r)))
            (S (nextHandle r)) (clock r))).
Proof.
  intros HI Hall. rewrite (cleanup_cancels_all o r HI), (closing_all_closed _ _ Hall).
  constructor; cbn.
  - intros t tm H. rewrite lookup_empty in H. discriminate.
  - intros t tm H. rewrite lookup_empty in H. discriminate.
  - intros s1 s2 st1 st2 H1 H2 L1 L2.
    lookup_insert_cases H1; lookup_insert_cases H2; try reflexivity.
    + destruct L2. eapply Hall; eauto.
    + destruct L1. eapply Hall; eauto.
    + destruct L1. eapply Hall; eauto.
  - intros s st H Hst. lookup_insert_cases H; [reflexivity|].
    specialize (Hall _ _ H). destruct Hst; congruence.
Qed.

(** [cleanup()] on its own, as [onModuleDestroy] runs it: no timer stays
    armed, no socket stays connecting or open. *)
Lemma Inv_cleanup (o : OkxService) (r : Runtime) :
  Inv o r ->
  Inv (cleaned o) (cleaned_runtime o r) /\
  timers (cleaned_runtime o r) = ∅ /\
  forall s st, sockets (cleaned_runtime o r) !! s = Some st -> st = CLOSING \/ st = CLOSED.
Proof.
  intros HI. pose proof HI as [I1 I2 I3 I4]. unfold cleaned_runtime. cbn.
  rewrite (cleanup_cancels_all o r HI).
  assert (Hdone : forall s st, closing (ws o) (sockets r) !! s = Some st ->
                    st = CLOSING \/ st = CLOSED).
  { intros s st H. apply closing_lookup in H as [[H Hnot]|(_ & -> & _)]; [|auto].
    destruct st; auto.
    - destruct (Hnot (I4 s _ H (or_introl eq_refl))). congruence.
    - destruct (Hnot (I4 s _ H (or_intror eq_refl))). congruence. }
  split; [|split; [reflexivity | exact Hdone]].
  constructor; cbn.
  - intros t tm H. rewrite lookup_empty in H. discriminate.
  - intros t tm H. rewrite lookup_empty in H. discriminate.
  - intros s1 s2 st1 st2 H1 H2 L1 L2.
    assert (Hlive : forall s st, closing (ws o) (sockets r) !! s = Some st -> st <> CLOSED ->
                      exists st0, sockets r !! s = Some st0 /\ st0 <> CLOSED).
    { intros s st H L. apply closing_lookup in H as [[H _]|(_ & -> & [H|H])].
      - eauto.
      - eexists; split; [exact H | discriminate].
      - eexists; split; [exact H | discriminate]. }
    destruct (Hlive _ _ H1 L1) as (st1' & H1' & L1').
    destruct (Hlive _ _ H2 L2) as (st2' & H2' & L2'). eapply I3; eauto.
  - intros s st H Hst. destruct (Hdone _ _ H); destruct Hst; congruence.
Qed.

End Invariant.

Section Reachable.
Context `{P : Platform}.

Lemma exec_returns (h : M unit) (w w' : World) : h w = (inr tt, w') -> exec h w = w'.
Proof. unfold exec, detached. intros ->. reflexivity. Qed.

Lemma exec_handleMessage (data : string) (w : World) :
  exec (on_message data) w = snd (handleMessage data w).
Proof.
  destruct (handleMessage_spec data w) as (tr & Hfst & _).
  unfold exec, on_message, detached.
  destruct (handleMessage data w) as [[e|[]] w1]; cbn in *; [discriminate|reflexivity].
Qed.

Lemma exec_pingTick (w : World) : exec pingTick w = snd (pingTick w).
Proof.
  destruct (pingTick_spec w) as (tr & Hfst & _).
  unfold exec, detached.
  destruct (pingTick w) as [[e|[]] w1]; cbn in *; [discriminate|reflexivity].
Qed.

Lemma exec_detached (h : M unit) (w : World) : exec (detached h) w = exec h w.
Proof. unfold exec, detached. destruct (h w) as [[e|[]] w1]; reflexivity. Qed.

(** Every event other than a second [onModuleInit] keeps the invariant. *)
Lemma deliver_Inv (ev : Event) (w w' : World) :
  WInv w -> ev <> ModuleInit -> deliver ev w = Some w' -> WInv w'.
Proof.
  unfold WInv. intros HI Hev Hstep.
  destruct ev as [| |s|s data|s message|s code reason|t|ms]; cbn in Hstep.
  - congruence.
  - some_eq Hstep.
    destruct (onModuleDestroy_spec w) as (tr & -> & _). cbn.
    apply (Inv_flags _ _ false) in HI as [_ HI].
    apply (Inv_cleanup _ _ HI).
  - destruct (sockets (rt w) !! s) as [[]|] eqn:Hs; try discriminate.
    some_eq Hstep.
    destruct (on_open_spec (with_runtime (set_socket s OPEN) w)) as (tr & -> & _).
    cbn. apply (Inv_open _ _ s HI Hs).
  - destruct (sockets (rt w) !! s) as [[]|]; try discriminate;
      some_eq Hstep; rewrite exec_handleMessage;
      destruct (handleMessage_spec data w) as (tr & _ & (-> & -> & _) & _); exact HI.
  - destruct (sockets (rt w) !! s) as [[]|] eqn:Hs; try discriminate;
      some_eq Hstep;
      match goal with |- context [exec (on_error ?m) ?w0] =>
        destruct (on_error_spec m w0) as (tr & E & _); rewrite (exec_returns _ _ _ E) end;
      cbn; eapply Inv_error; eauto; discriminate.
  - destruct (sockets (rt w) !! s) as [[]|] eqn:Hs; try discriminate;
      some_eq Hstep;
      match goal with |- context [exec (on_close ?c ?m) ?w0] =>
        destruct (on_close_spec c m w0) as (tr & E & _); rewrite (exec_returns _ _ _ E) end;
      cbn;
      (destruct (shouldReconnect (svc w)); cbn;
       [ eapply (proj2 (Inv_close _ _ s _ HI Hs _))
       | eapply (proj1 (Inv_close _ _ s _ HI Hs _)) ]).
    Unshelve. all: discriminate.
  - destruct (timers (rt w) !! t) as [tm|] eqn:Ht; [|discriminate].
    destruct (decide (due tm <= clock (rt w))); [|discriminate].
    some_eq Hstep.
    destruct (callback_cases (callback tm)) as [Hcb|Hcb]; rewrite Hcb; cbn [run_callback].
    + rewrite exec_pingTick.
      match goal with |- context [pingTick ?w0] =>
        destruct (pingTick_spec w0) as (tr & _ & (-> & -> & _) & _) end.
      cbn. apply Inv_fire_heartbeat; auto.
    + rewrite exec_detached.
      destruct (Inv_fire_reconnect _ _ t tm HI Ht Hcb) as (Hre & HI' & Hall).
      unfold with_runtime. rewrite Hre.
      destruct (isConnecting (svc w)) eqn:Hguard.
      * match goal with |- context [exec connectWebSocket ?w0] =>
          rewrite (exec_returns _ _ _ (connect_guarded w0 Hguard)) end.
        exact HI'.
      * match goal with |- context [exec connectWebSocket ?w0] =>
          destruct (connect_unguarded w0 Hguard) as (tr & E & _);
          rewrite (exec_returns _ _ _ E) end.
        cbn. apply (Inv_connect _ _ HI' Hall).
  - destruct (decide (0 <= ms)); [|discriminate]. some_eq Hstep.
    cbn. apply Inv_elapse. exact HI.
Qed.

Lemma onModuleInit_spec (w : World) :
  exists tr,
    out (exec onModuleInit w) = out w ++ tr /\
    (forall s, sent_on s tr = []) /\ notifications tr = [] /\
    sockets_created tr = if isConnecting (svc w) then [] else [nextHandle (rt w)].
Proof.
  unfold exec, onModuleInit. unfold_m. cbn -[connectWebSocket].
  destruct (isConnecting (svc w)) eqn:Hguard.
  - match goal with |- context [connectWebSocket ?w0] =>
      rewrite (connect_guarded w0 Hguard) end.
    cbn. rewrite <- !app_assoc. eexists. repeat split.
  - match goal with |- context [connectWebSocket ?w0] =>
      destruct (connect_unguarded w0 Hguard) as (tr & E & C & N & S); rewrite E end.
    cbn. rewrite <- !app_assoc. eexists. split; [reflexivity|]. repeat split.
    + intros s. rewrite !sent_on_app, S. reflexivity.
    + rewrite !notifications_app, N. reflexivity.
    + rewrite !sockets_created_app, C. reflexivity.
Qed.

Lemma deliver_sent (ev : Event) (w w' : World) :
  WInv w -> deliver ev w = Some w' ->
  exists tr, out w' = out w ++ tr /\ forall s, sent_on s tr = sent ev w s.
Proof.
  unfold WInv. intros HI Hstep. pose proof HI as [I1 I2 I3 I4].
  destruct ev as [| |s0|s0 data|s0 message|s0 code reason|t|ms]; cbn in Hstep.
  - some_eq Hstep. destruct (onModuleInit_spec w) as (tr & E & S & _). eauto.
  - some_eq Hstep.
    destruct (onModuleDestroy_spec w) as (tr & -> & [_ S] & _). eauto.
  - destruct (sockets (rt w) !! s0) as [[]|] eqn:Hs; try discriminate.
    some_eq Hstep.
    destruct (on_open_spec (with_runtime (set_socket s0 OPEN) w)) as (tr & -> & _ & _ & S).
    exists tr. split; [reflexivity|]. intros s. rewrite S.
    unfold transmits, sent. cbn.
    rewrite (I4 s0 _ Hs (or_introl eq_refl)), lookup_insert_eq. reflexivity.
  - assert (Hsent : forall s,
      (if isLoginAnswer true data then transmits w s (PJson subscribeMessage) else []) =
      sent (SocketMessage s0 data) w s).
    { intros s. cbn. destruct (isLoginAnswer true data); [|case_decide; reflexivity].
      unfold transmits.
      destruct (sockets (rt w) !! s0) as [[]|] eqn:Hs; try discriminate.
      - rewrite (I4 s0 _ Hs (or_intror eq_refl)), Hs. reflexivity.
      - destruct (ws (svc w)) as [s1|]; [|case_decide; reflexivity].
        destruct (sockets (rt w) !! s1) as [[]|] eqn:Hs1;
          repeat case_decide; try reflexivity;
          assert (s1 = s0) by (eapply I3; eauto; discriminate); congruence. }
    destruct (sockets (rt w) !! s0) as [[]|]; try discriminate;
      some_eq Hstep; rewrite exec_handleMessage;
      destruct (handleMessage_spec data w) as (tr & _ & (_ & _ & ->) & _ & S);
      exists tr; (split; [reflexivity|]); intros s; rewrite S; apply Hsent.
  - destruct (sockets (rt w) !! s0) as [[]|] eqn:Hs; try discriminate;
      some_eq Hstep;
      match goal with |- context [exec (on_error ?m) ?w0] =>
        destruct (on_error_spec m w0) as (tr & E & [_ S] & _);
        rewrite (exec_returns _ _ _ E) end; eauto.
  - destruct (sockets (rt w) !! s0) as [[]|] eqn:Hs; try discriminate;
      some_eq Hstep;
      match goal with |- context [exec (on_close ?c ?m) ?w0] =>
        destruct (on_close_spec c m w0) as (tr & E & [_ S] & _);
        rewrite (exec_returns _ _ _ E) end;
      cbn; destruct (shouldReconnect (svc w)); eauto.
  - cbn. destruct (timers (rt w) !! t) as [tm|] eqn:Ht; [|discriminate].
    destruct (decide (due tm <= clock (rt w))); [|discriminate].
    some_eq Hstep.
    destruct (callback_cases (callback tm)) as [Hcb|Hcb]; rewrite Hcb; cbn [run_callback].
    + rewrite exec_pingTick.
      match goal with |- context [pingTick ?w0] =>
        destruct (pingTick_spec w0) as (tr & _ & (_ & _ & ->) & _ & _ & S) end.
      exists tr. split; [reflexivity|]. intros s. rewrite S.
      unfold transmits, rearm. cbn. destruct (period tm); reflexivity.
    + rewrite exec_detached.
      match goal with |- context [exec connectWebSocket ?w0] =>
        destruct (isConnecting (svc w0)) eqn:Hguard;
        [ rewrite (exec_returns _ _ _ (connect_guarded w0 Hguard));
          eexists; split; [reflexivity|]; reflexivity
        | destruct (connect_unguarded w0 Hguard) as (tr & E & _ & _ & S);
          rewrite (exec_returns _ _ _ E); eauto ] end.
  - destruct (decide (0 <= ms)); [|discriminate]. some_eq Hstep.
    exists []. cbn. rewrite app_nil_r. auto.
Qed.

Lemma run_app (evs1 evs2 : list Event) (w : World) :
  run (evs1 ++ evs2) w =
    match run evs1 w with Some w' => run evs2 w' | None => None end.
Proof.
  revert w. induction evs1 as [|ev evs1 IH]; intros w; cbn; [reflexivity|].
  destruct (deliver ev w); auto.
Qed.

Lemma run_reachable (evs : list Event) (w w' : World) :
  reachable w -> Forall laterEvent evs -> run evs w = Some w' -> reachable w'.
Proof.
  intros Hw Hevs. revert w Hw. induction Hevs as [|ev evs Hev _ IH]; intros w Hw; cbn.
  - intros [= <-]. exact Hw.
  - destruct (deliver ev w) as [w1|] eqn:E; [|discriminate].
    intros Hrun. eapply IH; [|exact Hrun]. eapply reachable_step; eauto.
Qed.

Lemma started_reachable (apiKey secretKey passphrase : string) (isSimulated : bool)
    (now : Z) (evs : list Event) (w : World) :
  Forall laterEvent evs ->
  run (ModuleInit :: evs) (boot (construct apiKey secretKey passphrase isSimulated) now) = Some w ->
  reachable w.
Proof.
  intros Hevs Hrun. cbn in Hrun. eapply run_reachable; [|exact Hevs|exact Hrun].
  constructor.
Qed.

Lemma reachable_Inv (w : World) : reachable w -> WInv w.
Proof.
  induction 1 as [ak sk pp sim now|w w' ev _ IH Hev Hstep].
  - unfold exec, onModuleInit. unfold_m. cbn -[connectWebSocket].
    match goal with |- context [connectWebSocket ?w0] =>
      destruct (connect_unguarded w0 eq_refl) as (tr & E & _); rewrite E end.
    unfold WInv. cbn.
    apply (Inv_connect (construct ak sk pp sim) (mkRuntime ∅ ∅ 0%nat now)).
    + constructor; cbn; intros *; rewrite lookup_empty; discriminate.
    + intros s st. cbn. rewrite lookup_empty. discriminate.
  - eapply deliver_Inv; eauto.
Qed.

(** The requests an event adds on each socket. *)
Lemma deliver_requests (ev : Event) (w w' : World) :
  WInv w -> deliver ev w = Some w' ->
  forall s, requests_on s (out w') = requests_on s (out w) ++ requested ev w s.
Proof.
  intros HI Hstep s.
  destruct (deliver_sent ev w w' HI Hstep) as (tr & Hout & Hsent).
  unfold requests_on. rewrite Hout, sent_on_app, omap_app, Hsent. f_equal.
  destruct ev as [| |s0|s0 data|s0 message|s0 code reason|t|ms]; cbn; try reflexivity.
  - case_decide; reflexivity.
  - case_decide; [|reflexivity]. destruct (isLoginAnswer true data); [|reflexivity].
    destruct (sockets (rt w) !! s0) as [[]|]; reflexivity.
  - destruct (timers (rt w) !! t) as [tm|]; [|reflexivity].
    destruct (callback tm); [|reflexivity].
    unfold transmits. destruct (ws (svc w)) as [s1|]; [|reflexivity].
    case_decide; [|reflexivity]. destruct (sockets (rt w) !! s1) as [[]|]; reflexivity.
Qed.

(** The handlers refine [runtime_after]. *)
Lemma deliver_runtime (ev : Event) (w w' : World) :
  deliver ev w = Some w' -> rt w' = runtime_after ev w.
Proof.
  intros Hstep.
  destruct ev as [| |s0|s0 data|s0 message|s0 code reason|t|ms]; cbn in Hstep |- *.
  - some_eq Hstep. unfold exec, onModuleInit. unfold_m. cbn -[connectWebSocket].
    destruct (isConnecting (svc w)) eqn:Hguard.
    + match goal with |- context [connectWebSocket ?w0] =>
        rewrite (connect_guarded w0 Hguard) end. reflexivity.
    + match goal with |- context [connectWebSocket ?w0] =>
        destruct (connect_unguarded w0 Hguard) as (tr & E & _); rewrite E end.
      reflexivity.
  - some_eq Hstep. destruct (onModuleDestroy_spec w) as (tr & -> & _). reflexivity.
  - destruct (sockets (rt w) !! s0) as [[]|] eqn:Hs; try discriminate.
    some_eq Hstep.
    destruct (on_open_spec (with_runtime (set_socket s0 OPEN) w)) as (tr & -> & _).
    reflexivity.
  - destruct (sockets (rt w) !! s0) as [[]|]; try discriminate;
      some_eq Hstep; rewrite exec_handleMessage;
      destruct (handleMessage_spec data w) as (tr & _ & (_ & -> & _) & _); reflexivity.
  - destruct (sockets (rt w) !! s0) as [[]|] eqn:Hs; try discriminate;
      some_eq Hstep;
      match goal with |- context [exec (on_error ?m) ?w0] =>
        destruct (on_error_spec m w0) as (tr & E & _); rewrite (exec_returns _ _ _ E) end;
      reflexivity.
  - destruct (sockets (rt w) !! s0) as [[]|] eqn:Hs; try discriminate;
      some_eq Hstep;
      match goal with |- context [exec (on_close ?c ?m) ?w0] =>
        destruct (on_close_spec c m w0) as (tr & E & _); rewrite (exec_returns _ _ _ E) end;
      cbn; destruct (shouldReconnect (svc w)); reflexivity.
  - destruct (timers (rt w) !! t) as [tm|] eqn:Ht; [|discriminate].
    destruct (decide (due tm <= clock (rt w))); [|discriminate].
    some_eq Hstep.
    destruct (callback tm); cbn [run_callback].
    + rewrite exec_pingTick.
      match goal with |- context [pingTick ?w0] =>
        destruct (pingTick_spec w0) as (tr & _ & (_ & -> & _) & _) end.
      reflexivity.
    + rewrite exec_detached.
      match goal with |- context [exec connectWebSocket ?w0] =>
        destruct (isConnecting (svc w0)) eqn:Hguard;
        [ rewrite (exec_returns _ _ _ (connect_guarded w0 Hguard)); cbn in Hguard;
          rewrite Hguard; reflexivity
        | destruct (connect_unguarded w0 Hguard) as (tr & E & _);
          rewrite (exec_returns _ _ _ E); cbn in Hguard; rewrite Hguard; reflexivity ] end.
  - destruct (decide (0 <= ms)); [|discriminate]. some_eq Hstep. reflexivity.
Qed.

(** *** The shape of the requests of a connection *)

Lemma requests_fit_session (st : option ReadyState) (reqs : list Value) :
  requests_fit st reqs -> session reqs.
Proof.
  destruct st as [[]|]; cbn; intros H; try exact H; try (left; exact H).
  right; exact H.
Qed.

Lemma requests_fit_closing (h : option nat) (socks : gmap nat ReadyState) (s : nat)
    (reqs : list Value) :
  requests_fit (socks !! s) reqs -> requests_fit (closing h socks !! s) reqs.
Proof.
  intros H. destruct h as [s0|]; cbn; [|exact H].
  destruct (socks !! s0) as [[]|] eqn:E0; try exact H;
    (destruct (decide (s0 = s)) as [->|Hne];
     [ rewrite lookup_insert_eq; rewrite E0 in H; cbn in H |- *
     | rewrite lookup_insert_ne by done; exact H ]).
  - left; exact H.
  - right; exact H.
Qed.

Lemma closing_known (h : option nat) (socks : gmap nat ReadyState) (s : nat) (st : ReadyState) :
  closing h socks !! s = Some st -> exists st0, socks !! s = Some st0.
Proof.
  intros H. destruct (closing_lookup _ _ _ _ H) as [[H0 _]|(_ & _ & [H0|H0])]; eauto.
Qed.

Lemma opened_session_login (login : Value) :
  isLoginRequest login -> opened_session ([] ++ [login]).
Proof. intros H. exists login, 0%nat. split; [exact H|reflexivity]. Qed.

Lemma opened_session_subscribe (reqs : list Value) :
  opened_session reqs -> opened_session (reqs ++ [subscribeMessage]).
Proof.
  intros (login & k & Hlogin & ->). exists login, (S k). split; [exact Hlogin|].
  cbn [app]. f_equal. induction k as [|k IH]; cbn; [reflexivity|]. f_equal. exact IH.
Qed.

Lemma loginRequest_isLoginRequest (w : World) : isLoginRequest (loginRequest w).
Proof. reflexivity. Qed.

(** A new connection starts on a fresh socket, with no request sent. *)
Lemma connecting_fits (o : OkxService) (r : Runtime) (reqs : nat -> list Value) :
  (forall s st, sockets r !! s = Some st -> (s < nextHandle r)%nat) ->
  (forall s, requests_fit (sockets r !! s) (reqs s)) ->
  (forall s st, sockets (connecting_runtime o r) !! s = Some st ->
     (s < nextHandle (connecting_runtime o r))%nat) /\
  (forall s, requests_fit (sockets (connecting_runtime o r) !! s) (reqs s)).
Proof.
  intros Hfresh Hfit. split; intros s; cbn.
  - intros st. destruct (decide (nextHandle r = s)) as [<-|Hne]; [lia|].
    rewrite lookup_insert_ne by done. intros H.
    destruct (closing_known _ _ _ _ H) as [st0 H0]. specialize (Hfresh _ _ H0). lia.
  - destruct (decide (nextHandle r = s)) as [<-|Hne].
    + rewrite lookup_insert_eq. cbn. specialize (Hfit (nextHandle r)).
      destruct (sockets r !! nextHandle r) as [st|] eqn:E; [|exact Hfit].
      specialize (Hfresh _ _ E). lia.
    + rewrite lookup_insert_ne by done. apply requests_fit_closing, Hfit.
Qed.

Lemma deliver_Traced (ev : Event) (w w' : World) :
  WInv w -> Traced w -> deliver ev w = Some w' -> Traced w'.
Proof.
  intros HI [Hfresh Hfit] Hstep.
  pose proof (deliver_requests ev w w' HI Hstep) as Hreq.
  pose proof (deliver_runtime ev w w' Hstep) as Hrt.
  assert (Hsame : requested ev w = (fun _ => []) ->
            forall s, requests_on s (out w') = requests_on s (out w)).
  { intros E s. rewrite Hreq, E. apply app_nil_r. }
  destruct ev as [| |s0|s0 data|s0 message|s0 code reason|t|ms];
    cbn in Hstep, Hrt; try specialize (Hsame eq_refl).
  - destruct (isConnecting (svc w)).
    + constructor; rewrite Hrt; [exact Hfresh|]. intros s. rewrite Hsame. apply Hfit.
    + destruct (connecting_fits (svc w) (rt w) (fun s => requests_on s (out w)) Hfresh Hfit)
        as [H1 H2].
      constructor; rewrite Hrt; [exact H1|]. intros s. rewrite Hsame. apply H2.
  - constructor; rewrite Hrt; cbn.
    + intros s st H. destruct (closing_known _ _ _ _ H) as [st0 H0]. eauto.
    + intros s. rewrite Hsame. apply requests_fit_closing, Hfit.
  - destruct (sockets (rt w) !! s0) as [[]|] eqn:Hs; try discriminate.
    constructor; rewrite Hrt; cbn.
    + intros s st. destruct (decide (s0 = s)) as [<-|Hne].
      * intros _. specialize (Hfresh _ _ Hs). lia.
      * rewrite lookup_insert_ne by done. intros H. specialize (Hfresh _ _ H). lia.
    + intros s. rewrite Hreq. cbn. specialize (Hfit s).
      destruct (decide (s0 = s)) as [<-|Hne].
      * rewrite lookup_insert_eq. rewrite Hs in Hfit. cbn in Hfit |- *. rewrite Hfit.
        apply opened_session_login, loginRequest_isLoginRequest.
      * rewrite lookup_insert_ne by done. rewrite app_nil_r. exact Hfit.
  - constructor; rewrite Hrt; [exact Hfresh|].
    intros s. rewrite Hreq. cbn. specialize (Hfit s).
    destruct (decide (s0 = s)) as [<-|Hne]; [|rewrite app_nil_r; exact Hfit].
    destruct (isLoginAnswer true data); [|rewrite app_nil_r; exact Hfit].
    destruct (sockets (rt w) !! s0) as [[]|]; try (rewrite app_nil_r; exact Hfit).
    cbn in Hfit |- *. apply opened_session_subscribe, Hfit.
  - assert (Hs : exists st, sockets (rt w) !! s0 = Some st)
      by (destruct (sockets (rt w) !! s0) as [st|]; [eauto|discriminate]).
    destruct Hs as [st0 Hs]. constructor; rewrite Hrt; cbn.
    + intros s st. destruct (decide (s0 = s)) as [<-|Hne]; [intros _; eauto|].
      rewrite lookup_insert_ne by done. apply Hfresh.
    + intros s. rewrite Hsame. specialize (Hfit s).
      destruct (decide (s0 = s)) as [<-|Hne].
      * rewrite lookup_insert_eq. cbn. eapply requests_fit_session, Hfit.
      * rewrite lookup_insert_ne by done. exact Hfit.
  - assert (Hs : exists st, sockets (rt w) !! s0 = Some st)
      by (destruct (sockets (rt w) !! s0) as [st|]; [eauto|discriminate]).
    destruct Hs as [st0 Hs].
    assert (Hsocks : sockets (rt w') = <[s0 := CLOSED]> (sockets (rt w)) /\
                     (nextHandle (rt w) <= nextHandle (rt w'))%nat).
    { rewrite Hrt. destruct (shouldReconnect (svc w)); cbn; split; (reflexivity || lia). }
    destruct Hsocks as [Hsocks Hnext]. constructor; rewrite Hsocks.
    + intros s st. destruct (decide (s0 = s)) as [<-|Hne].
      * intros _. specialize (Hfresh _ _ Hs). lia.
      * rewrite lookup_insert_ne by done. intros H. specialize (Hfresh _ _ H). lia.
    + intros s. rewrite Hsame. specialize (Hfit s).
      destruct (decide (s0 = s)) as [<-|Hne].
      * rewrite lookup_insert_eq. cbn. eapply requests_fit_session, Hfit.
      * rewrite lookup_insert_ne by done. exact Hfit.
  - destruct (timers (rt w) !! t) as [tm|] eqn:Ht; [|discriminate].
    assert (Hre : sockets (rearm t tm (rt w)) = sockets (rt w) /\
                  nextHandle (rearm t tm (rt w)) = nextHandle (rt w))
      by (unfold rearm; destruct (period tm); split; reflexivity).
    destruct Hre as [Hre1 Hre2].
    assert (Hidle : rt w' = rearm t tm (rt w) -> Traced w').
    { intros E. constructor; rewrite E, Hre1; [rewrite Hre2; exact Hfresh|].
      intros s. rewrite Hsame. apply Hfit. }
    destruct (callback tm); [exact (Hidle Hrt)|].
    destruct (isConnecting (svc w)); [exact (Hidle Hrt)|].
    destruct (connecting_fits (svc w) (rearm t tm (rt w)) (fun s => requests_on s (out w)))
      as [H1 H2].
    + rewrite Hre1, Hre2. exact Hfresh.
    + rewrite Hre1. exact Hfit.
    + constructor; rewrite Hrt; [exact H1|]. intros s. rewrite Hsame. apply H2.
  - constructor; rewrite Hrt; [exact Hfresh|]. intros s. rewrite Hsame. apply Hfit.
Qed.

Lemma reachable_Traced (w : World) : reachable w -> Traced w.
Proof.
  induction 1 as [ak sk pp sim now|w w' ev Hw IH Hev Hstep].
  - set (w0 := boot (construct ak sk pp sim) now).
    assert (Hinit : deliver ModuleInit w0 = Some (exec onModuleInit w0)) by reflexivity.
    assert (HI0 : WInv w0).
    { constructor; cbn; intros *; rewrite lookup_empty; discriminate. }
    apply (deliver_Traced ModuleInit w0 _ HI0); [|exact Hinit].
    constructor; cbn.
    + intros s st. rewrite lookup_empty. discriminate.
    + intros s. rewrite lookup_empty. reflexivity.
  - eapply deliver_Traced; eauto using reachable_Inv.
Qed.

(** C1, as the code has it. On every connection of a running service the
    requests sent are none, or one login request followed by subscribe
    requests only; the socket's open event sends the login request, and
    afterwards one subscribe request is sent for each frame received on the
    open socket that decodes to a login success, whatever frames were
    decoded before it. A decoded login failure sends nothing. *)
Theorem requests_follow_login_answers (w : World) :
  reachable w ->
  (forall s, session (requests_on s (out w))) /\
  (forall ev w', deliver ev w = Some w' ->
     forall s, requests_on s (out w') = requests_on s (out w) ++ requested ev w s).
Proof.
  intros Hw. split.
  - intros s. eapply requests_fit_session, (traced_requests w (reachable_Traced w Hw)).
  - intros ev w' Hstep. apply deliver_requests; [apply reachable_Inv; exact Hw|exact Hstep].
Qed.

(** *** After shutdown *)

Lemma deliver_Stopped (ev : Event) (w w' : World) :
  Stopped w -> ev <> ModuleInit -> deliver ev w = Some w' ->
  Stopped w' /\ sockets_created (out w') = sockets_created (out w).
Proof.
  unfold Stopped. intros [Hflag Htimers] Hev Hstep.
  destruct ev as [| |s0|s0 data|s0 message|s0 code reason|t|ms]; cbn in Hstep.
  - congruence.
  - some_eq Hstep.
    destruct (onModuleDestroy_spec w) as (tr & -> & [C _] & _). cbn.
    rewrite sockets_created_app, C, app_nil_r. repeat split.
    intros t tm H. apply cancelled_lookup in H as [H _].
    apply cancelled_lookup in H as [H _]. eauto.
  - destruct (sockets (rt w) !! s0) as [[]|] eqn:Hs; try discriminate.
    some_eq Hstep.
    destruct (on_open_spec (with_runtime (set_socket s0 OPEN) w)) as (tr & -> & C & _).
    cbn. rewrite sockets_created_app, C, app_nil_r. repeat split; [exact Hflag|].
    intros t tm H. lookup_insert_cases H; [injection H as <-; reflexivity | eauto].
  - destruct (sockets (rt w) !! s0) as [[]|]; try discriminate;
      some_eq Hstep; rewrite exec_handleMessage;
      destruct (handleMessage_spec data w) as (tr & _ & (-> & -> & ->) & C & _);
      rewrite sockets_created_app, C, app_nil_r; auto.
  - destruct (sockets (rt w) !! s0) as [[]|] eqn:Hs; try discriminate;
      some_eq Hstep;
      match goal with |- context [exec (on_error ?m) ?w0] =>
        destruct (on_error_spec m w0) as (tr & E & [C _] & _);
        rewrite (exec_returns _ _ _ E) end;
      cbn; rewrite sockets_created_app, C, app_nil_r; auto.
  - destruct (sockets (rt w) !! s0) as [[]|] eqn:Hs; try discriminate;
      some_eq Hstep;
      match goal with |- context [exec (on_close ?c ?m) ?w0] =>
        destruct (on_close_spec c m w0) as (tr & E & [C _] & _);
        rewrite (exec_returns _ _ _ E) end;
      cbn; rewrite Hflag; cbn; rewrite sockets_created_app, C, app_nil_r; auto.
  - destruct (timers (rt w) !! t) as [tm|] eqn:Ht; [|discriminate].
    destruct (decide (due tm <= clock (rt w))); [|discriminate].
    some_eq Hstep. rewrite (Htimers t tm Ht). cbn [run_callback].
    rewrite exec_pingTick.
    match goal with |- context [pingTick ?w0] =>
      destruct (pingTick_spec w0) as (tr & _ & (-> & -> & ->) & C & _) end.
    cbn. rewrite sockets_created_app, C, app_nil_r. repeat split; [exact Hflag|].
    unfold rearm. intros t' tm' H. destruct (period tm); cbn in H.
    + lookup_insert_cases H; [injection H as <-; cbn; eauto | eauto].
    + apply lookup_delete_Some in H as [_ H]. eauto.
  - destruct (decide (0 <= ms)); [|discriminate]. some_eq Hstep. cbn. auto.
Qed.

Lemma run_Stopped (evs : list Event) (w w' : World) :
  Stopped w -> Forall laterEvent evs -> run evs w = Some w' ->
  Stopped w' /\ sockets_created (out w') = sockets_created (out w).
Proof.
  intros Hw Hevs. revert w Hw. induction Hevs as [|ev evs Hev _ IH]; intros w Hw; cbn.
  - intros [= <-]. auto.
  - destruct (deliver ev w) as [w1|] eqn:E; [|discriminate]. intros Hrun.
    destruct (deliver_Stopped ev w w1 Hw Hev E) as [Hw1 C1].
    destruct (IH w1 Hw1 Hrun) as [Hw' C']. split; [exact Hw'|congruence].
Qed.

(** C4. When [onModuleDestroy] has run in a running service, the
    reconnect-allowed flag is false, the heartbeat and reconnect timers are
    cancelled and no timer at all stays armed, the socket reference is
    cleared and no socket is left connecting or open. Whatever events
    follow (close events, elapsed time, late frames), no socket is ever
    created again. *)
Theorem shutdown_is_final (w w1 w2 : World) (evs : list Event) :
  reachable w ->
  deliver ModuleDestroy w = Some w1 ->
  Forall laterEvent evs ->
  run evs w1 = Some w2 ->
  shouldReconnect (svc w1) = false /\
  pingInterval (svc w1) = None /\ reconnectTimeout (svc w1) = None /\
  timers (rt w1) = ∅ /\
  ws (svc w1) = None /\
  (forall s st, sockets (rt w1) !! s = Some st -> st = CLOSING \/ st = CLOSED) /\
  shouldReconnect (svc w2) = false /\
  sockets_created (out w2) = sockets_created (out w1).
Proof.
  intros Hw Hdestroy Hevs Hrun. cbn in Hdestroy. some_eq Hdestroy.
  pose proof (reachable_Inv w Hw) as HI. unfold WInv in HI.
  apply (Inv_flags _ _ false) in HI as [_ HI].
  destruct (Inv_cleanup _ _ HI) as (_ & Htimers & Hsockets).
  destruct (onModuleDestroy_spec w) as (tr & E & _). rewrite E in *. cbn in *.
  assert (Hstopped : Stopped
            (mkWorld (cleaned (set_shouldReconnect false (svc w)))
               (cleaned_runtime (svc w) (rt w)) (out w ++ tr))).
  { split; [reflexivity|]. cbn. intros t tm H.
    change (cleaned_runtime (svc w) (rt w))
      with (cleaned_runtime (set_shouldReconnect false (svc w)) (rt w)) in H.
    rewrite Htimers, lookup_empty in H. discriminate. }
  destruct (run_Stopped evs _ w2 Hstopped Hevs Hrun) as [[Hflag _] Hcreated].
  cbn in Hcreated. repeat split; auto.
Qed.

(** *** Heartbeat replies *)

(** C9. A ["pong"] text frame is consumed before any decoding: the handler
    returns normally and leaves the world as it found it, so no field
    changes, nothing is sent or logged and the notification sink is not
    called; delivering the frame to the service is a step to the same
    world. *)
Theorem pong_is_a_noop (w : World) (s : nat) :
  handleMessage "pong" w = (inr tt, w) /\
  (deliver (SocketMessage s "pong") w = Some w \/
   deliver (SocketMessage s "pong") w = None).
Proof.
  assert (Hpong : handleMessage "pong" w = (inr tt, w)) by reflexivity.
  split; [exact Hpong|].
  cbn [deliver]. unfold exec, on_message, detached. rewrite Hpong.
  destruct (sockets (rt w) !! s) as [[]|]; auto.
Qed.

(** *** Close and error events *)

(** C3, as the code has it. A close event clears the [isConnecting] flag
    and, when reconnection is still allowed, arms one timeout of 5000 ms
    whose callback calls [connectWebSocket()]; the timeout cannot fire
    before the clock has advanced by 5000 ms. The close handler leaves the
    heartbeat timer armed and the socket reference in place: both are
    dealt with by the [cleanup()] of the [connectWebSocket()] that the
    timeout runs. An error event only clears the [isConnecting] flag:
    nothing is cancelled, cleared or armed. *)
Theorem close_arms_reconnect_error_does_not (w : World) (s : nat) (code : Z)
    (reason message : string) :
  (forall w', deliver (SocketClose s code reason) w = Some w' ->
     isConnecting (svc w') = false /\
     ws (svc w') = ws (svc w) /\
     pingInterval (svc w') = pingInterval (svc w) /\
     sockets (rt w') = <[s := CLOSED]> (sockets (rt w)) /\
     if shouldReconnect (svc w)
     then reconnectTimeout (svc w') = Some (nextHandle (rt w)) /\
          timers (rt w') =
            <[nextHandle (rt w) := mkTimer Reconnect (clock (rt w) + 5000) None]>
              (timers (rt w)) /\
          run_callback Reconnect = detached connectWebSocket /\
          deliver (TimerFires (nextHandle (rt w))) w' = None
     else reconnectTimeout (svc w') = reconnectTimeout (svc w) /\
          timers (rt w') = timers (rt w)) /\
  (isConnecting (svc w) = false ->
     pingInterval (svc (exec connectWebSocket w)) = None /\
     (forall t, pingInterval (svc w) = Some t ->
        timers (rt (exec connectWebSocket w)) !! t = None) /\
     ws (svc (exec connectWebSocket w)) = Some (nextHandle (rt w))) /\
  (forall w', deliver (SocketError s message) w = Some w' ->
     svc w' = set_isConnecting false (svc w) /\
     timers (rt w') = timers (rt w) /\
     sockets (rt w') = <[s := CLOSING]> (sockets (rt w))).
Proof.
  split; [|split].
  - intros w' Hstep. cbn in Hstep.
    assert (Hw' : w' = exec (on_close code reason) (with_runtime (set_socket s CLOSED) w))
      by (destruct (sockets (rt w) !! s) as [[]|]; congruence).
    clear Hstep. subst w'.
    match goal with |- context [exec (on_close ?c ?m) ?w0] =>
      destruct (on_close_spec c m w0) as (tr & E & _); rewrite (exec_returns _ _ _ E) end.
    cbn. destruct (shouldReconnect (svc w)); cbn; repeat split.
    rewrite lookup_insert_eq. cbn. case_decide; [lia | reflexivity].
  - intros Hguard. destruct (connect_unguarded w Hguard) as (tr & E & _).
    rewrite (exec_returns _ _ _ E). cbn. repeat split.
    intros t Ht. rewrite Ht. cbn.
    destruct (reconnectTimeout (svc w)) as [t'|]; cbn.
    + destruct (decide (t' = t)) as [->|Hne].
      * apply lookup_delete_eq.
      * rewrite lookup_delete_ne by done. apply lookup_delete_eq.
    + apply lookup_delete_eq.
  - intros w' Hstep. cbn in Hstep.
    assert (Hw' : w' = exec (on_error message) (with_runtime (set_socket s CLOSING) w))
      by (destruct (sockets (rt w) !! s) as [[]|]; congruence).
    clear Hstep. subst w'.
    match goal with |- context [exec (on_error ?m) ?w0] =>
      destruct (on_error_spec m w0) as (tr & E & _); rewrite (exec_returns _ _ _ E) end.
    cbn. auto.
Qed.

End Reachable.

(** * The transition system: properties *)

Section Machine.
Context `{P : Platform}.

Lemma deliver_service (ev : Event) (w w' : World) :
  deliver ev w = Some w' -> svc w' = service_after ev w.
Proof.
  intros Hstep.
  destruct ev as [| |s0|s0 data|s0 message|s0 code reason|t|ms]; cbn in Hstep |- *.
  - some_eq Hstep. unfold exec, onModuleInit. unfold_m. cbn -[connectWebSocket].
    destruct (isConnecting (svc w)) eqn:Hguard.
    + match goal with |- context [connectWebSocket ?w0] =>
        rewrite (connect_guarded w0 Hguard) end. reflexivity.
    + match goal with |- context [connectWebSocket ?w0] =>
        destruct (connect_unguarded w0 Hguard) as (tr & E & _); rewrite E end.
      reflexivity.
  - some_eq Hstep. destruct (onModuleDestroy_spec w) as (tr & -> & _). reflexivity.
  - destruct (sockets (rt w) !! s0) as [[]|] eqn:Hs; try discriminate.
    some_eq Hstep.
    destruct (on_open_spec (with_runtime (set_socket s0 OPEN) w)) as (tr & -> & _).
    reflexivity.
  - destruct (sockets (rt w) !! s0) as [[]|]; try discriminate;
      some_eq Hstep; rewrite exec_handleMessage;
      destruct (handleMessage_spec data w) as (tr & _ & (-> & _) & _); reflexivity.
  - destruct (sockets (rt w) !! s0) as [[]|] eqn:Hs; try discriminate;
      some_eq Hstep;
      match goal with |- context [exec (on_error ?m) ?w0] =>
        destruct (on_error_spec m w0) as (tr & E & _); rewrite (exec_returns _ _ _ E) end;
      reflexivity.
  - destruct (sockets (rt w) !! s0) as [[]|] eqn:Hs; try discriminate;
      some_eq Hstep;
      match goal with |- context [exec (on_close ?c ?m) ?w0] =>
        destruct (on_close_spec c m w0) as (tr & E & _); rewrite (exec_returns _ _ _ E) end;
      cbn; destruct (shouldReconnect (svc w)); reflexivity.
  - destruct (timers (rt w) !! t) as [tm|] eqn:Ht; [|discriminate].
    destruct (decide (due tm <= clock (rt w))); [|discriminate].
    some_eq Hstep.
    destruct (callback tm); cbn [run_callback].
    + rewrite exec_pingTick.
      match goal with |- context [pingTick ?w0] =>
        destruct (pingTick_spec w0) as (tr & _ & (-> & _) & _) end.
      reflexivity.
    + rewrite exec_detached.
      match goal with |- context [exec connectWebSocket ?w0] =>
        destruct (isConnecting (svc w0)) eqn:Hguard;
        [ rewrite (exec_returns _ _ _ (connect_guarded w0 Hguard)); cbn in Hguard;
          rewrite Hguard; reflexivity
        | destruct (connect_unguarded w0 Hguard) as (tr & E & _);
          rewrite (exec_returns _ _ _ E); cbn in Hguard; rewrite Hguard; reflexivity ] end.
  - destruct (decide (0 <= ms)); [|discriminate]. some_eq Hstep. reflexivity.
Qed.

Lemma cancelled_empty (h : option nat) : cancelled h (∅ : gmap nat Timer) = ∅.
Proof. destruct h; cbn; [apply delete_empty|reflexivity]. Qed.

Lemma deliver_Armed (ev : Event) (w w' : World) :
  WInv w -> Armed w -> deliver ev w = Some w' -> Armed w'.
Proof.
  intros HI [Hrec Hbeat] Hstep.
  pose proof (deliver_service ev w w' Hstep) as Hsvc.
  pose proof (deliver_runtime ev w w' Hstep) as Hrt.
  destruct ev as [| |s0|s0 data|s0 message|s0 code reason|t|ms]; cbn in Hstep, Hsvc, Hrt.
  - destruct (isConnecting (svc w)) eqn:Hguard.
    + constructor; rewrite Hrt, ?Hsvc; eauto.
    + constructor; rewrite Hrt; cbn; rewrite (cleanup_cancels_all _ _ HI);
        intros t tm H; rewrite lookup_empty in H; discriminate.
  - constructor; rewrite Hrt, ?Hsvc; cbn; intros t tm H Hcb;
      apply cancelled_lookup in H as [H _]; apply cancelled_lookup in H as [H _]; eauto.
  - constructor; rewrite Hrt, ?Hsvc; cbn; [reflexivity|].
    intros t tm H Hcb. lookup_insert_cases H; [some_eq H; reflexivity|eauto].
  - constructor; rewrite Hrt, ?Hsvc; eauto.
  - constructor; rewrite Hrt, ?Hsvc; cbn; eauto.
  - destruct (shouldReconnect (svc w)); constructor; rewrite Hrt, ?Hsvc; cbn; eauto.
    intros t tm H Hcb. lookup_insert_cases H; [some_eq H; discriminate|eauto].
  - destruct (timers (rt w) !! t) as [tm|] eqn:Ht; [|discriminate].
    destruct (callback tm) eqn:Hcb.
    + pose proof (Hbeat t tm Ht Hcb) as Hperiod.
      constructor; rewrite Hrt, ?Hsvc; unfold rearm; rewrite Hperiod; cbn;
        intros t' tm' H Hcb'; (lookup_insert_cases H; [some_eq H; cbn in *; congruence|eauto]).
    + rewrite (Hrec t tm Ht Hcb) in Hsvc, Hrt.
      destruct (Inv_fire_reconnect _ _ t tm HI Ht Hcb) as (Hre & HI' & _).
      constructor; rewrite Hrt; cbn; rewrite Hre, (cleanup_cancels_all _ _ HI');
        intros t' tm' H; rewrite lookup_empty in H; discriminate.
  - constructor; rewrite Hrt, ?Hsvc; cbn; eauto.
Qed.

Lemma reachable_Armed (w : World) : reachable w -> Armed w.
Proof.
  induction 1 as [ak sk pp sim now|w w' ev Hw IH Hev Hstep].
  - set (w0 := boot (construct ak sk pp sim) now).
    assert (Hinit : deliver ModuleInit w0 = Some (exec onModuleInit w0)) by reflexivity.
    assert (HI0 : WInv w0).
    { constructor; cbn; intros *; rewrite lookup_empty; discriminate. }
    apply (deliver_Armed ModuleInit w0 _ HI0); [|exact Hinit].
    constructor; cbn; intros t tm H; rewrite lookup_empty in H; discriminate.
  - eapply deliver_Armed; eauto using reachable_Inv.
Qed.

(** X1. In a running service at most one socket is not closed, and a socket
    that is connecting or open is the one the [ws] field refers to. *)
Theorem at_most_one_live_socket (w : World) :
  reachable w ->
  (forall s s' st st', sockets (rt w) !! s = Some st -> sockets (rt w) !! s' = Some st' ->
     st <> CLOSED -> st' <> CLOSED -> s = s') /\
  (forall s st, sockets (rt w) !! s = Some st -> st = CONNECTING \/ st = OPEN ->
     ws (svc w) = Some s).
Proof.
  intros Hw. destruct (reachable_Inv w Hw) as [_ _ I3 I4]. split; [exact I3|exact I4].
Qed.

(** X2. In a running service every armed timer is held by a field: it is the
    heartbeat interval of [pingInterval], with its period of 25000 ms and
    while no socket is connecting, or the reconnect timeout of
    [reconnectTimeout], armed only while every socket is closed and the
    [isConnecting] guard is clear. *)
Theorem armed_timers_are_tracked (w : World) (t : nat) (tm : Timer) :
  reachable w -> timers (rt w) !! t = Some tm ->
  (callback tm = PingTick /\ pingInterval (svc w) = Some t /\ period tm = Some 25000 /\
   forall s, sockets (rt w) !! s <> Some CONNECTING) \/
  (callback tm = Reconnect /\ reconnectTimeout (svc w) = Some t /\ period tm = None /\
   isConnecting (svc w) = false /\
   forall s st, sockets (rt w) !! s = Some st -> st = CLOSED).
Proof.
  intros Hw Ht. destruct (reachable_Inv w Hw) as [I1 I2 _ _].
  destruct (reachable_Armed w Hw) as [A1 A2].
  destruct (callback tm) eqn:Hcb.
  - left. destruct (I2 t tm Ht Hcb) as [Href Hno]. eauto.
  - right. destruct (I1 t tm Ht Hcb) as (Href & Hperiod & Hall). repeat split; eauto.
Qed.

Lemma connect_unguarded_url (w : World) :
  isConnecting (svc w) = false ->
  In (ENewWebSocket (nextHandle (rt w)) (wsUrl (svc w))) (out (exec connectWebSocket w)).
Proof.
  intros Hguard. unfold exec, connectWebSocket, new_WebSocket.
  unfold_m. cbn -[cleanup]. rewrite Hguard.
  match goal with |- context [cleanup ?w0] =>
    destruct (cleanup_spec w0) as (tr & E & _); rewrite E end.
  cbn. rewrite !in_app_iff. right. left. reflexivity.
Qed.

(** X4. When the reconnect timer fires in a running service, the guard of
    [connectWebSocket()] is clear: one socket is created, to the URL of the
    configured environment, and becomes [ws]; every older socket is closed
    and no timer stays armed. *)
Theorem reconnect_timer_opens_new_socket (w w' : World) (t : nat) (tm : Timer) :
  reachable w -> timers (rt w) !! t = Some tm -> callback tm = Reconnect ->
  deliver (TimerFires t) w = Some w' ->
  isConnecting (svc w') = true /\
  ws (svc w') = Some (nextHandle (rt w)) /\
  pingInterval (svc w') = None /\ reconnectTimeout (svc w') = None /\
  sockets (rt w') = <[nextHandle (rt w) := CONNECTING]> (sockets (rt w)) /\
  (forall s st, sockets (rt w) !! s = Some st -> st = CLOSED) /\
  timers (rt w') = ∅ /\
  sockets_created (out w') = sockets_created (out w) ++ [nextHandle (rt w)] /\
  In (ENewWebSocket (nextHandle (rt w)) (wsUrl (svc w))) (out w').
Proof.
  intros Hw Ht Hcb Hstep.
  pose proof (reachable_Inv w Hw) as HI.
  destruct (reachable_Armed w Hw) as [A1 _]. pose proof (A1 t tm Ht Hcb) as Hguard.
  destruct (Inv_fire_reconnect _ _ t tm HI Ht Hcb) as (Hre & HI' & Hall).
  pose proof (deliver_service _ _ _ Hstep) as Hsvc.
  pose proof (deliver_runtime _ _ _ Hstep) as Hrt.
  cbn in Hsvc, Hrt. rewrite Ht, Hcb, Hguard in Hsvc, Hrt.
  rewrite Hsvc, Hrt, Hre. unfold connecting_runtime, connecting_service.
  rewrite (cleanup_cancels_all _ _ HI').
  change (sockets (drop_timer t (rt w))) with (sockets (rt w)).
  rewrite (closing_all_closed _ _ Hall). cbn.
  repeat split; try exact Hall.
  - cbn in Hstep. rewrite Ht in Hstep.
    destruct (decide (due tm <= clock (rt w))); [|discriminate]. some_eq Hstep.
    rewrite Hcb. cbn [run_callback]. rewrite exec_detached.
    match goal with |- context [exec connectWebSocket ?w0] =>
      destruct (connect_unguarded w0 Hguard) as (tr & E & C & _);
      rewrite (exec_returns _ _ _ E) end.
    cbn -[rearm] in C |- *. rewrite Hre in C. rewrite sockets_created_app, C. reflexivity.
  - cbn in Hstep. rewrite Ht in Hstep.
    destruct (decide (due tm <= clock (rt w))); [|discriminate]. some_eq Hstep.
    rewrite Hcb. cbn [run_callback]. rewrite exec_detached.
    match goal with |- context [exec connectWebSocket ?w0] =>
      pose proof (connect_unguarded_url w0 Hguard) as Hin end.
    cbn -[rearm] in Hin. rewrite Hre in Hin. exact Hin.
Qed.

(** X5. A heartbeat tick in a running service sends the text ["ping"] on the
    socket that is open, and nothing when no socket is open; it changes no
    field and no socket, and the interval stays armed with its period of
    25000 ms. *)
Theorem heartbeat_pings_the_open_socket (w w' : World) (t : nat) (tm : Timer) :
  reachable w -> timers (rt w) !! t = Some tm -> callback tm = PingTick ->
  deliver (TimerFires t) w = Some w' ->
  svc w' = svc w /\
  sockets (rt w') = sockets (rt w) /\
  timers (rt w') =
    <[t := mkTimer PingTick (clock (rt w) + 25000) (Some 25000)]> (timers (rt w)) /\
  exists tr, out w' = out w ++ tr /\
    notifications tr = [] /\
    forall s, sent_on s tr =
      match sockets (rt w) !! s with Some OPEN => [PText "ping"] | _ => [] end.
Proof.
  intros Hw Ht Hcb Hstep.
  pose proof (reachable_Inv w Hw) as HI. pose proof HI as [_ _ I3 I4].
  destruct (reachable_Armed w Hw) as [_ A2]. pose proof (A2 t tm Ht Hcb) as Hperiod.
  pose proof (deliver_service _ _ _ Hstep) as Hsvc.
  pose proof (deliver_runtime _ _ _ Hstep) as Hrt.
  cbn in Hsvc, Hrt. rewrite Ht, Hcb in Hsvc, Hrt.
  rewrite Hsvc, Hrt. unfold rearm. rewrite Hperiod, Hcb. cbn.
  repeat split.
  cbn in Hstep. rewrite Ht in Hstep.
  destruct (decide (due tm <= clock (rt w))); [|discriminate]. some_eq Hstep.
  rewrite Hcb. cbn [run_callback]. rewrite exec_pingTick.
  match goal with |- context [pingTick ?w0] =>
    destruct (pingTick_spec w0) as (tr & _ & (_ & _ & ->) & _ & N & S) end.
  exists tr. split; [reflexivity|]. split; [exact N|].
  intros s. rewrite S. unfold transmits, with_runtime, rearm. rewrite Hperiod. cbn.
  destruct (sockets (rt w) !! s) as [st|] eqn:Hs.
  - destruct (decide (st = OPEN)) as [->|Hst].
    + rewrite (I4 s _ Hs (or_intror eq_refl)). rewrite decide_True by reflexivity.
      rewrite Hs. reflexivity.
    + destruct (ws (svc w)) as [s1|]; [|destruct st; congruence].
      case_decide; [subst s1; rewrite Hs|]; destruct st; congruence.
  - destruct (ws (svc w)) as [s1|]; [|reflexivity].
    case_decide; [subst s1; rewrite Hs|]; reflexivity.
Qed.

(** *** After shutdown, again *)

Lemma deliver_Halted (ev : Event) (w w' : World) :
  WInv w -> Halted w -> ev <> ModuleInit -> deliver ev w = Some w' ->
  Halted w' /\ forall s, sent_on s (out w') = sent_on s (out w).
Proof.
  intros HI [Hflag Hws Htimers Hsocks] Hev Hstep.
  pose proof (deliver_service ev w w' Hstep) as Hsvc.
  pose proof (deliver_runtime ev w w' Hstep) as Hrt.
  destruct (deliver_sent ev w w' HI Hstep) as (tr & Hout & Hsent).
  assert (Hquiet : (forall s, sent ev w s = []) ->
            forall s, sent_on s (out w') = sent_on s (out w)).
  { intros E s. rewrite Hout, sent_on_app, Hsent, E. apply app_nil_r. }
  destruct ev as [| |s0|s0 data|s0 message|s0 code reason|t|ms];
    cbn in Hstep, Hsvc, Hrt.
  - congruence.
  - split; [|apply Hquiet; reflexivity].
    constructor; rewrite ?Hsvc, ?Hrt; cbn; try reflexivity.
    + rewrite Htimers, !cancelled_empty. reflexivity.
    + rewrite Hws. exact Hsocks.
  - destruct (sockets (rt w) !! s0) as [[]|] eqn:Hs; try discriminate.
    destruct (Hsocks _ _ Hs); discriminate.
  - split.
    + constructor; rewrite ?Hsvc, ?Hrt; assumption.
    + apply Hquiet. intros s. cbn. case_decide; [|reflexivity].
      destruct (isLoginAnswer true data); [|reflexivity].
      destruct (sockets (rt w) !! s0) as [st|] eqn:Hs; [|reflexivity].
      destruct (Hsocks _ _ Hs) as [-> | ->]; reflexivity.
  - split; [|apply Hquiet; reflexivity].
    constructor; rewrite ?Hsvc, ?Hrt; cbn; try assumption.
    intros s st H. lookup_insert_cases H; [some_eq H; auto|eauto].
  - split; [|apply Hquiet; reflexivity].
    rewrite Hflag in Hsvc, Hrt.
    constructor; rewrite ?Hsvc, ?Hrt; cbn; try assumption.
    intros s st H. lookup_insert_cases H; [some_eq H; auto|eauto].
  - rewrite Htimers, lookup_empty in Hstep. discriminate.
  - split; [|apply Hquiet; reflexivity].
    constructor; rewrite ?Hsvc, ?Hrt; cbn; assumption.
Qed.

Lemma run_Halted (evs : list Event) (w w' : World) :
  WInv w -> Halted w -> Forall laterEvent evs -> run evs w = Some w' ->
  Halted w' /\ forall s, sent_on s (out w') = sent_on s (out w).
Proof.
  intros HI Hw Hevs. revert w HI Hw.
  induction Hevs as [|ev evs Hev _ IH]; intros w HI Hw; cbn.
  - intros [= <-]. auto.
  - destruct (deliver ev w) as [w1|] eqn:E; [|discriminate]. intros Hrun.
    destruct (deliver_Halted ev w w1 HI Hw Hev E) as [Hw1 S1].
    destruct (IH w1 (deliver_Inv ev w w1 HI Hev E) Hw1 Hrun) as [Hw' S'].
    split; [exact Hw'|]. intros s. rewrite S', S1. reflexivity.
Qed.

(** X6. Once [onModuleDestroy] has run in a running service, whatever events
    follow, nothing is handed to any socket for transmission, no timer is
    armed and [ws] stays cleared: a login answer that arrives late is not
    answered with a subscribe request. *)
Theorem nothing_is_sent_after_shutdown (w w1 w2 : World) (evs : list Event) :
  reachable w ->
  deliver ModuleDestroy w = Some w1 ->
  Forall laterEvent evs ->
  run evs w1 = Some w2 ->
  ws (svc w2) = None /\
  timers (rt w2) = ∅ /\
  (forall s st, sockets (rt w2) !! s = Some st -> st = CLOSING \/ st = CLOSED) /\
  forall s, sent_on s (out w2) = sent_on s (out w1).
Proof.
  intros Hw Hdestroy Hevs Hrun.
  pose proof (reachable_Inv w Hw) as HI.
  assert (Hlater : ModuleDestroy <> ModuleInit) by discriminate.
  pose proof (deliver_Inv _ _ _ HI Hlater Hdestroy) as HI1.
  pose proof (deliver_service _ _ _ Hdestroy) as Hsvc.
  pose proof (deliver_runtime _ _ _ Hdestroy) as Hrt.
  cbn in Hsvc, Hrt.
  destruct (Inv_cleanup _ _ HI) as (_ & Htimers & Hsockets).
  assert (Hhalted : Halted w1).
  { constructor; rewrite ?Hsvc, ?Hrt; try reflexivity; assumption. }
  destruct (run_Halted evs w1 w2 HI1 Hhalted Hevs Hrun) as [[_ Hws Htm Hso] Hsent].
  auto.
Qed.

(** *** Promise rejections *)

Lemma rejections_app (a b : list Effect) :
  rejections (a ++ b) = rejections a ++ rejections b.
Proof. apply omap_app. Qed.

Ltac calm := rewrite ?rejections_app; cbn; rewrite ?app_nil_r; reflexivity.

Lemma handleOrder_calm (order : Value) (w : World) :
  rejections (out (snd (handleOrder order w))) = rejections (out w).
Proof.
  destruct order as [| | | | | |props|].
  7: { pose proof (handleOrder_object props w) as E. cbv zeta in E. rewrite E.
       destruct (rendering (VObj props)) as [e|n]; cbn [snd out]; calm. }
  all: unfold handleOrder, sendOrderNotification, formatDate, formatSize, labelled,
         plusString; unfold_m; cbn; calm.
Qed.

Lemma forEach_calm (orders : list Value) (w : World) :
  rejections (out (snd (forEach handleOrder orders w))) = rejections (out w).
Proof.
  revert w. induction orders as [|order orders IH]; intros w; [reflexivity|].
  cbn [forEach]. unfold mbind, M_bind.
  pose proof (handleOrder_calm order w) as H1.
  destruct (handleOrder order w) as [[e|[]] w1]; cbn in *; [exact H1|].
  rewrite IH. exact H1.
Qed.

Lemma handleOrderData_calm (orders : Value) (w : World) :
  rejections (out (snd (handleOrderData orders w))) = rejections (out w).
Proof.
  unfold handleOrderData, lift, mbind, M_bind.
  destruct (iterate orders) as [e|items]; cbn; [reflexivity|apply forEach_calm].
Qed.

Lemma send_json_calm (v : Value) (w : World) :
  sendable w ->
  fst (send_json v w) = inr tt /\
  rejections (out (snd (send_json v w))) = rejections (out w).
Proof.
  intros Hsend. unfold send_json, ws_send. unfold_m.
  destruct (ws (svc w)) as [s|] eqn:Hws; [|split; reflexivity].
  specialize (Hsend s Hws).
  destruct (sockets (rt w) !! s) as [[]|]; cbn; try (split; reflexivity).
  - congruence.
  - split; [reflexivity|calm].
Qed.

Lemma subscribeOrders_calm (w : World) :
  sendable w ->
  rejections (out (snd (detached subscribeOrders w))) = rejections (out w).
Proof.
  intros Hsend. unfold subscribeOrders, detached at 1. unfold_m. cbn -[send_json].
  match goal with |- context [send_json ?v ?w0] =>
    destruct (send_json_calm v w0 Hsend) as [Hfst Hout];
    destruct (send_json v w0) as [[e|[]] w1] end; cbn in *; [discriminate|].
  rewrite Hout. calm.
Qed.

Lemma handleMessage_calm (data : string) (w : World) :
  sendable w ->
  rejections (out (snd (handleMessage data w))) = rejections (out w).
Proof.
  intros Hsend. unfold handleMessage.
  destruct (String.eqb data "pong"); [reflexivity|].
  unfold try_catch, lift, logger_log, logger_error, logAuth, logSubscribe, logError,
    writeLog, skip, emit, mbind, mret, M_bind, M_ret.
  destruct (JSON_parse data) as [e|message]; [cbn; calm|].
  destruct (getProp message "event") as [e|event] eqn:Eevent; [cbn; calm|].
  cbn -[subscribeOrders handleOrderData detached].
  destruct (strictEqStr event "login").
  { destruct (getProp message "code") as [e|code]; [cbn; calm|].
    cbn -[subscribeOrders handleOrderData detached].
    destruct (strictEqStr code "0"); cbn -[subscribeOrders handleOrderData detached].
    - match goal with |- context [detached subscribeOrders ?w0] =>
        pose proof (subscribeOrders_calm w0 Hsend) as Hsub;
        destruct (detached subscribeOrders w0) as [[e|[]] w1] end;
      cbn in *; rewrite ?rejections_app; cbn; rewrite Hsub; calm.
    - destruct (getProp message "msg") as [e|msg]; [cbn; calm|].
      cbn. destruct (ToString msg) as [e|text]; cbn; calm. }
  destruct (strictEqStr event "subscribe").
  { destruct (getProp message "arg") as [e|arg]; cbn; calm. }
  destruct (strictEqStr event "error").
  { destruct (getProp message "msg") as [e|msg]; [cbn; calm|].
    cbn. destruct (ToString msg) as [e|text]; [cbn; calm|].
    cbn. destruct (getProp message "code") as [e|code]; [cbn; calm|].
    cbn. destruct (ToString code) as [e|codeText]; cbn; calm. }
  destruct (getProp message "arg") as [e|arg]; [cbn; calm|].
  destruct arg as [| | | | | |argProps|]; cbn -[handleOrderData]; try reflexivity.
  destruct (strictEqStr (lookupObject argProps "channel") "orders"); [|reflexivity].
  destruct (getProp message "data") as [e|orders]; [cbn; calm|].
  cbn -[handleOrderData].
  destruct (truthy orders); [|reflexivity].
  pose proof (handleOrderData_calm orders w) as Hdata.
  destruct (handleOrderData orders w) as [[e|[]] w1]; cbn in *; [|exact Hdata].
  rewrite !rejections_app, Hdata. cbn. rewrite !app_nil_r. reflexivity.
Qed.

Lemma cleanup_calm (w : World) :
  rejections (out (snd (cleanup w))) = rejections (out w).
Proof.
  destruct w as [[s p r ic sr ak sk pp sim] [socks tms nh clk] tr0].
  unfold cleanup, ws_close. unfold_m.
  destruct p as [p|], r as [r|], s as [s|]; cbn;
    try (destruct (socks !! s) as [[]|]; cbn); calm.
Qed.

Lemma connectWebSocket_calm (w : World) :
  rejections (out (exec connectWebSocket w)) = rejections (out w).
Proof.
  destruct (isConnecting (svc w)) eqn:Hguard.
  - rewrite (exec_returns _ _ _ (connect_guarded w Hguard)). cbn. calm.
  - unfold exec, connectWebSocket, new_WebSocket.
    unfold_m. cbn -[cleanup]. rewrite Hguard.
    match goal with |- context [cleanup ?w0] =>
      pose proof (cleanup_calm w0) as Hc;
      destruct (cleanup_spec w0) as (tr & E & _); rewrite E in Hc |- * end.
    cbn [snd out svc rt] in Hc |- *. repeat rewrite (rejections_app _ [_]).
    rewrite Hc. calm.
Qed.

Lemma scheduleReconnect_calm (w : World) :
  rejections (out (exec scheduleReconnect w)) = rejections (out w).
Proof.
  unfold exec, scheduleReconnect, setTimeout. unfold_m. cbn.
  destruct (shouldReconnect (svc w)); cbn; calm.
Qed.

Lemma on_error_calm (message : string) (w : World) :
  rejections (out (exec (on_error message) w)) = rejections (out w).
Proof. unfold exec, on_error. unfold_m. cbn. calm. Qed.

Lemma on_close_calm (code : Z) (reason : string) (w : World) :
  rejections (out (exec (on_close code reason) w)) = rejections (out w).
Proof.
  unfold exec, on_close, scheduleReconnect, setTimeout. unfold_m. cbn.
  destruct (shouldReconnect (svc w)); cbn; calm.
Qed.

Lemma on_open_calm (w : World) (s : nat) :
  ws (svc w) = Some s -> sockets (rt w) !! s = Some OPEN ->
  rejections (out (exec on_open w)) = rejections (out w).
Proof.
  intros Hws Hs.
  unfold exec, on_open, login, startPing, setInterval. unfold_m. cbn -[send_json].
  match goal with |- context [send_json ?v ?w0] =>
    assert (Hsend : sendable w0)
      by (intros s' Hws'; cbn in Hws' |- *; congruence);
    destruct (send_json_calm v w0 Hsend) as [Hfst Hout];
    destruct (send_json v w0) as [[e|[]] w1] end; cbn in *; [discriminate|].
  rewrite Hout. calm.
Qed.

Lemma pingTick_calm (w : World) :
  rejections (out (exec pingTick w)) = rejections (out w).
Proof.
  rewrite exec_pingTick. unfold pingTick, ws_send. unfold_m.
  destruct (ws (svc w)) as [s0|]; cbn; [|reflexivity].
  destruct (sockets (rt w) !! s0) as [[]|] eqn:E; cbn; rewrite ?E; cbn; calm.
Qed.

Lemma onModuleDestroy_calm (w : World) :
  rejections (out (exec onModuleDestroy w)) = rejections (out w).
Proof.
  unfold exec, onModuleDestroy. unfold_m. cbn -[cleanup].
  match goal with |- context [cleanup ?w0] =>
    pose proof (cleanup_calm w0) as Hc;
    destruct (cleanup_spec w0) as (tr & E & _); rewrite E in Hc |- * end.
  cbn [snd out] in Hc |- *. rewrite Hc. calm.
Qed.

Lemma onModuleInit_calm (w : World) :
  rejections (out (exec onModuleInit w)) = rejections (out w).
Proof.
  unfold exec at 1, onModuleInit. unfold_m. cbn -[connectWebSocket].
  match goal with |- context [connectWebSocket ?w0] =>
    pose proof (connectWebSocket_calm w0) as Hc; unfold exec, detached in Hc;
    destruct (connectWebSocket w0) as [[e|[]] w1] end;
  cbn in Hc |- *; rewrite ?rejections_app in *; cbn in *; rewrite ?app_nil_r in *;
    exact Hc.
Qed.

Lemma deliver_calm (ev : Event) (w w' : World) :
  WInv w -> deliver ev w = Some w' -> rejections (out w') = rejections (out w).
Proof.
  intros HI Hstep. pose proof HI as [_ _ I3 I4].
  destruct ev as [| |s0|s0 data|s0 message|s0 code reason|t|ms]; cbn in Hstep.
  - some_eq Hstep. apply onModuleInit_calm.
  - some_eq Hstep. apply onModuleDestroy_calm.
  - destruct (sockets (rt w) !! s0) as [[]|] eqn:Hs; try discriminate.
    some_eq Hstep.
    apply (on_open_calm (with_runtime (set_socket s0 OPEN) w) s0).
    + cbn. eapply I4; eauto.
    + cbn. apply lookup_insert_eq.
  - destruct (sockets (rt w) !! s0) as [st|] eqn:Hs; [|discriminate].
    assert (Hlive : st <> CLOSED /\ st <> CONNECTING)
      by (destruct st; try discriminate; split; discriminate).
    assert (Hsend : sendable w).
    { intros s Hws Hconn.
      assert (s = s0) by (apply (I3 s s0 CONNECTING st); tauto || discriminate).
      subst s. assert (st = CONNECTING) by congruence. tauto. }
    assert (Hw' : w' = exec (on_message data) w) by (destruct st; congruence).
    subst w'. rewrite exec_handleMessage. apply handleMessage_calm. exact Hsend.
  - destruct (sockets (rt w) !! s0) as [[]|]; try discriminate;
      some_eq Hstep; rewrite on_error_calm; reflexivity.
  - destruct (sockets (rt w) !! s0) as [[]|]; try discriminate;
      some_eq Hstep; rewrite on_close_calm; reflexivity.
  - destruct (timers (rt w) !! t) as [tm|]; [|discriminate].
    destruct (decide (due tm <= clock (rt w))); [|discriminate].
    some_eq Hstep. destruct (callback tm); cbn [run_callback].
    + rewrite pingTick_calm. reflexivity.
    + rewrite exec_detached, connectWebSocket_calm. reflexivity.
  - destruct (decide (0 <= ms)); [|discriminate]. some_eq Hstep. reflexivity.
Qed.

(** X3. A running service never leaves a promise rejection unhandled: no
    handler raises past the event loop, and no call made without [await]
    ([login], [subscribeOrders], [handleMessage], [connectWebSocket],
    [scheduleReconnect]) is rejected. *)
Theorem no_unhandled_rejection (w : World) :
  reachable w -> rejections (out w) = [].
Proof.
  induction 1 as [ak sk pp sim now|w w' ev Hw IH Hev Hstep].
  - rewrite onModuleInit_calm. reflexivity.
  - rewrite (deliver_calm ev w w' (reachable_Inv w Hw) Hstep). exact IH.
Qed.

End Machine.

(** * The order dispatcher: further properties *)

Section DispatchProofs.
Context `{P : Platform}.

Lemma forEach_stops (good rest : list Value) (bad : Value) (e : Exn)
    (attempt : list Effect) (w : World) :
  Forall orderRecord good ->
  (forall w0, handleOrder bad w0 =
     (inl e, mkWorld (svc w0) (rt w0) (out w0 ++ attempt))) ->
  exists tr,
    forEach handleOrder (good ++ bad :: rest) w =
      (inl e, mkWorld (svc w) (rt w) (out w ++ tr ++ attempt)) /\
    rendered (notifications tr) good.
Proof.
  intros Hall Hbad. revert w. induction Hall as [|order good Hrec _ IH]; intros w.
  - exists []. cbn [app forEach]. unfold mbind, M_bind. rewrite Hbad.
    split; [reflexivity|constructor].
  - destruct (handleOrder_record order w Hrec) as (tr1 & n & E1 & R1 & _ & N1 & _).
    destruct (IH (mkWorld (svc w) (rt w) (out w ++ tr1))) as (tr2 & E2 & N2).
    exists (tr1 ++ tr2). cbn [app forEach]. unfold mbind, M_bind. rewrite E1.
    cbn [forEach] in E2. unfold mbind, M_bind in E2. rewrite E2. cbn [svc rt out].
    rewrite notifications_app, N1, <- !app_assoc.
    split; [reflexivity|]. constructor; assumption.
Qed.

(** An orders frame whose records are order records up to one on which the
    loop body throws. *)
Lemma frame_stops (data : string) (props : list (string * Value))
    (good rest : list Value) (bad : Value) (e : Exn) (attempt : list Effect) (w : World) :
  data <> "pong" ->
  JSON_parse data = inr (VObj props) ->
  isControlEvent (lookupObject props "event") = false ->
  channelOf props = VStr "orders" ->
  lookupObject props "data" = VArr (good ++ bad :: rest) ->
  Forall orderRecord good ->
  (forall w0, handleOrder bad w0 =
     (inl e, mkWorld (svc w0) (rt w0) (out w0 ++ attempt))) ->
  notifications attempt = [] ->
  exists tr,
    handleMessage data w =
      (inr tt,
       mkWorld (svc w) (rt w) (out w ++ tr ++ attempt ++ decodeFailureLog data e)) /\
    rendered (notifications tr) good /\
    notifications (tr ++ attempt ++ decodeFailureLog data e) = notifications tr.
Proof.
  intros Hpong Hparse Hevent Hchan Hdata Hrecords Hbad Hquiet.
  unfold handleMessage. rewrite (not_pong _ Hpong).
  unfold_m. rewrite Hparse. cbn -[handleOrderData].
  unfold isControlEvent in Hevent.
  apply orb_false_iff in Hevent as [Hevent Eerr].
  apply orb_false_iff in Hevent as [Elogin Esub].
  rewrite Elogin, Esub, Eerr. cbn -[handleOrderData].
  unfold channelOf in Hchan.
  destruct (lookupObject props "arg") as [| | | | | |argProps|]; try discriminate.
  cbn -[handleOrderData]. rewrite Hchan, Hdata. cbn -[handleOrderData].
  unfold handleOrderData, lift, mbind, M_bind. cbn [iterate].
  destruct (forEach_stops good rest bad e attempt w Hrecords Hbad) as (tr & E & N).
  rewrite E. exists tr. cbn [svc rt out]. rewrite <- !app_assoc.
  split; [reflexivity|]. split; [exact N|].
  rewrite !notifications_app, Hquiet. cbn. rewrite !app_nil_r. reflexivity.
Qed.

Lemma handleOrder_null (w : World) :
  handleOrder VNull w =
    (inl nullRecordError, mkWorld (svc w) (rt w) (out w ++ [nullRecordLog])).
Proof. reflexivity. Qed.

(** X7. A [null] among the records of an orders frame ends the processing of
    the frame: the order records before it are notified, in order; reading
    the first field of the [null] raises a [TypeError] that the decoder
    logs as a decode failure; the records after it are never looked at. *)
Theorem null_record_aborts_the_frame (data : string) (props : list (string * Value))
    (good rest : list Value) (w : World) :
  data <> "pong" ->
  JSON_parse data = inr (VObj props) ->
  isControlEvent (lookupObject props "event") = false ->
  channelOf props = VStr "orders" ->
  lookupObject props "data" = VArr (good ++ VNull :: rest) ->
  Forall orderRecord good ->
  exists tr,
    handleMessage data w =
      (inr tt,
       mkWorld (svc w) (rt w)
         (out w ++ tr ++ nullRecordLog :: decodeFailureLog data nullRecordError)) /\
    rendered (notifications tr) good /\
    notifications (tr ++ nullRecordLog :: decodeFailureLog data nullRecordError) =
      notifications tr.
Proof.
  intros Hpong Hparse Hevent Hchan Hdata Hrecords.
  apply (frame_stops data props good rest VNull nullRecordError [nullRecordLog] w);
    auto using handleOrder_null.
Qed.

Lemma labelled_throws (table : list (string * Value)) (v : Value) (e : Exn) :
  labelled table v = inl e -> e = notPrimitive.
Proof.
  unfold labelled. destruct (ToString v) as [e0|key] eqn:E; cbn; [|discriminate].
  intros [= <-]. eapply ToString_throws, E.
Qed.

Lemma formatSize_throws (props : list (string * Value)) (e : Exn) :
  formatSize (VObj props) = inl e -> e = notPrimitive.
Proof.
  unfold formatSize, plusString. cbn [getProp mbind E_bind].
  case_match; [|discriminate].
  destruct (ToString (lookupObject props "avgPx")) as [e0|text] eqn:E1; cbn.
  - intros [= <-]. eapply ToString_throws, E1.
  - destruct (ToString (lookupObject props "sz")) as [e0|sz] eqn:E2; cbn; [|discriminate].
    intros [= <-]. eapply ToString_throws, E2.
Qed.

Lemma rendering_throws (props : list (string * Value)) (e : Exn) :
  rendering (VObj props) = inl e -> e = notPrimitive.
Proof.
  unfold rendering, formatDate. cbn [getProp mbind E_bind].
  destruct (ToString (lookupObject props "uTime")) as [e0|text] eqn:E1; cbn -[labelled formatSize].
  { intros [= <-]. eapply ToString_throws, E1. }
  destruct (labelled ORDER_SIDE_MAP _) as [e0|side] eqn:E2; cbn -[labelled formatSize].
  { intros [= <-]. eapply labelled_throws, E2. }
  destruct (formatSize _) as [e0|size] eqn:E3; cbn -[labelled formatSize].
  { intros [= <-]. eapply formatSize_throws, E3. }
  destruct (labelled ORDER_STATE_MAP _) as [e0|state] eqn:E4; cbn -[labelled formatSize].
  { intros [= <-]. eapply labelled_throws, E4. }
  discriminate.
Qed.

Lemma labelled_unconvertible (table : list (string * Value)) (v : Value) :
  convertible v = false -> exists e, labelled table v = inl e.
Proof.
  unfold convertible, labelled. destruct (ToString v); [eauto|discriminate].
Qed.

(** A record with an unconvertible field has no rendering. *)
Lemma rendering_unconvertible (order : Value) :
  unconvertibleRecord order -> rendering order = inl notPrimitive.
Proof.
  destruct order as [| | | | | |props|]; try contradiction.
  intros Hbad.
  assert (Hfails : exists e, rendering (VObj props) = inl e).
  { unfold unconvertibleRecord in Hbad. rewrite !Exists_cons, Exists_nil in Hbad.
    unfold rendering, formatDate. cbn [getProp mbind E_bind].
    destruct (ToString (lookupObject props "uTime")) as [e0|text] eqn:E1;
      cbn -[labelled formatSize]; [eauto|].
    destruct (labelled ORDER_SIDE_MAP _) as [e0|side] eqn:E2;
      cbn -[labelled formatSize]; [eauto|].
    destruct (formatSize _) as [e0|size] eqn:E3; cbn -[labelled formatSize]; [eauto|].
    destruct (labelled ORDER_STATE_MAP _) as [e0|state] eqn:E4;
      cbn -[labelled formatSize]; [eauto|].
    destruct Hbad as [H|[H|[H|[]]]].
    - unfold convertible in H. rewrite E1 in H. discriminate.
    - destruct (labelled_unconvertible ORDER_SIDE_MAP _ H) as [e0 E0]. congruence.
    - destruct (labelled_unconvertible ORDER_STATE_MAP _ H) as [e0 E0]. congruence. }
  destruct Hfails as [e E]. rewrite E. f_equal. eapply rendering_throws, E.
Qed.

(** X21. A record in which [uTime], [side] or [state] cannot be converted
    to text (it is an object with an own [toString] member, or an array
    holding one) ends the processing of the frame like a [null] does: the
    order records before it are notified, in order; the record itself is
    logged but not notified; the [TypeError] of the conversion is logged as
    a decode failure; the records after it are never looked at. *)
Theorem unconvertible_record_aborts_the_frame (data : string)
    (props : list (string * Value)) (good rest : list Value) (bad : Value) (w : World) :
  data <> "pong" ->
  JSON_parse data = inr (VObj props) ->
  isControlEvent (lookupObject props "event") = false ->
  channelOf props = VStr "orders" ->
  lookupObject props "data" = VArr (good ++ bad :: rest) ->
  Forall orderRecord good ->
  unconvertibleRecord bad ->
  exists tr,
    handleMessage data w =
      (inr tt,
       mkWorld (svc w) (rt w)
         (out w ++ tr ++ taken bad ++ decodeFailureLog data notPrimitive)) /\
    rendered (notifications tr) good /\
    notifications (tr ++ taken bad ++ decodeFailureLog data notPrimitive) =
      notifications tr.
Proof.
  intros Hpong Hparse Hevent Hchan Hdata Hrecords Hbad.
  apply (frame_stops data props good rest bad notPrimitive (taken bad) w); auto.
  intros w0. pose proof (rendering_unconvertible bad Hbad) as E.
  destruct bad as [| | | | | |badProps|]; try contradiction.
  pose proof (handleOrder_object badProps w0) as H. cbv zeta in H.
  rewrite E in H. exact H.
Qed.

(** X8. An orders frame whose [data] is truthy but not iterable is a decode
    failure: the [TypeError] of the loop is logged, nothing is notified
    and the state is untouched. *)
Theorem non_iterable_data_is_a_decode_failure (data : string)
    (props : list (string * Value)) (w : World) :
  data <> "pong" ->
  JSON_parse data = inr (VObj props) ->
  isControlEvent (lookupObject props "event") = false ->
  channelOf props = VStr "orders" ->
  notIterableData (lookupObject props "data") ->
  handleMessage data w =
    (inr tt, mkWorld (svc w) (rt w) (out w ++ decodeFailureLog data notIterable)).
Proof.
  intros Hpong Hparse Hevent Hchan [Htruthy Hshape].
  unfold handleMessage. rewrite (not_pong _ Hpong).
  unfold_m. rewrite Hparse. cbn -[handleOrderData].
  unfold isControlEvent in Hevent.
  apply orb_false_iff in Hevent as [Hevent Eerr].
  apply orb_false_iff in Hevent as [Elogin Esub].
  rewrite Elogin, Esub, Eerr. cbn -[handleOrderData].
  unfold channelOf in Hchan.
  destruct (lookupObject props "arg") as [| | | | | |argProps|]; try discriminate.
  cbn -[handleOrderData]. rewrite Hchan. cbn -[handleOrderData]. rewrite Htruthy.
  unfold handleOrderData, lift, mbind, M_bind.
  destruct (lookupObject props "data"); try contradiction; cbn;
    rewrite <- ?app_assoc; reflexivity.
Qed.

Lemma translated_orElse (table : list (string * Value)) (key : string) :
  Forall (fun kv => truthy (snd kv) = true) table ->
  existsb (String.eqb key) objectPrototypeNames = false ->
  orElse (lookupObject table key) (VStr key) = translated table key.
Proof.
  intros Htable Hname. unfold lookupObject, translated, orElse. rewrite Hname.
  destruct (ownProperty table key) as [v|] eqn:E; [|reflexivity].
  assert (Hv : truthy v = true).
  { clear Hname. induction Htable as [|[k x] table Hx _ IH]; cbn in E; [discriminate|].
    destruct (String.eqb k key); [some_eq E; exact Hx|auto]. }
  rewrite Hv. reflexivity.
Qed.

(** X9. The side and the state of the notification of an order record are
    the entries of [ORDER_SIDE_MAP] and [ORDER_STATE_MAP] for the record's
    [side] and [state]; a text that the tables do not list (and that names
    no member of [Object.prototype]) is passed on as it is. *)
Theorem unlisted_side_and_state_pass_through (props : list (string * Value))
    (side state : string) (w : World) :
  orderRecord (VObj props) ->
  lookupObject props "side" = VStr side ->
  lookupObject props "state" = VStr state ->
  existsb (String.eqb side) objectPrototypeNames = false ->
  existsb (String.eqb state) objectPrototypeNames = false ->
  map (fun n => (n_side n, n_state n))
      (notifications (out (snd (handleOrder (VObj props) w)))) =
    map (fun n => (n_side n, n_state n)) (notifications (out w))
      ++ [(translated ORDER_SIDE_MAP side, translated ORDER_STATE_MAP state)].
Proof.
  intros Hrec Hside Hstate Hs1 Hs2.
  destruct (handleOrder_record (VObj props) w Hrec) as (tr & n & E & R & _ & N & _).
  rewrite E. cbn [snd out]. rewrite notifications_app, N, map_app. f_equal.
  unfold rendering, labelled in R. cbn [getProp mbind E_bind] in R.
  rewrite Hside, Hstate in R. cbn [ToString mbind E_bind mret E_ret] in R.
  destruct (formatDate _); [discriminate|].
  destruct (formatSize _); [discriminate|].
  apply (inj inr) in R. subst n. cbn [map n_side n_state].
  rewrite !translated_orElse; auto; repeat constructor.
Qed.

Lemma handleOrder_logs (order : Value) (w : World) :
  orderRecord order ->
  exists tr n,
    handleOrder order w = (inr tt, mkWorld (svc w) (rt w) (out w ++ tr)) /\
    (rendering order = inr n) /\
    (notifications tr = [n]) /\
    map (fun e => (category e, level e)) (log_entries tr) =
      recordLogged (length (notifications (out w))) n.
Proof.
  intros Hrec.
  destruct (handleOrder_record order w Hrec) as (tr & n & E & R & -> & N & _).
  eexists. exists n. split; [exact E|]. split; [exact R|]. split; [exact N|].
  unfold recordLogged. cbn. destruct (notificationResult _ _); reflexivity.
Qed.

(** X18. For every order record of a frame the loop hands two entries to
    [LoggingService], in the order of the records: an [ORDER] entry, then
    a [NOTIFY] entry whose level is [ERROR] exactly when the sink answered
    [false] for this record. A failed notification is logged and the loop
    goes on. *)
Theorem each_record_is_logged_with_its_outcome (orders : list Value) (w : World) :
  Forall orderRecord orders ->
  exists tr,
    handleOrderData (VArr orders) w = (inr tt, mkWorld (svc w) (rt w) (out w ++ tr)) /\
    rendered (notifications tr) orders /\
    map (fun e => (category e, level e)) (log_entries tr) =
      concat (imap (fun i n => recordLogged (length (notifications (out w)) + i) n)
                (notifications tr)).
Proof.
  unfold handleOrderData, lift, mbind, M_bind. cbn [iterate].
  intros Hall. revert w. induction Hall as [|order orders Hrec _ IH]; intros w.
  - exists []. rewrite app_nil_r. destruct w. repeat split. constructor.
  - destruct (handleOrder_logs order w Hrec) as (tr1 & n & E1 & R1 & N1 & L1).
    destruct (IH (mkWorld (svc w) (rt w) (out w ++ tr1))) as (tr2 & E2 & N2 & L2).
    exists (tr1 ++ tr2). cbn [forEach]. unfold mbind, M_bind. rewrite E1, E2. cbn [svc rt out].
    rewrite app_assoc, notifications_app, log_entries_app, map_app, N1, L1, L2.
    split; [reflexivity|]. split; [constructor; assumption|].
    cbn [app imap concat]. rewrite Nat.add_0_r. f_equal. f_equal.
    apply imap_ext. intros i x _. cbn [out].
    rewrite notifications_app, N1, length_app. cbn. f_equal. lia.
Qed.

End DispatchProofs.

(** * Independence from the secrets: properties *)

Section SecretsProofs.
Context `{P : Platform}.

Lemma unsent_app (a b : list Effect) : unsent (a ++ b) = unsent a ++ unsent b.
Proof. apply omap_app. Qed.

Lemma notifications_unsent (tr : list Effect) : notifications (unsent tr) = notifications tr.
Proof.
  unfold notifications, unsent. induction tr as [|e tr IH]; [reflexivity|].
  destruct e; cbn; rewrite ?IH; reflexivity.
Qed.

Lemma alike_emit (e1 e2 : Effect) (w1 w2 : World) :
  unsent [e1] = unsent [e2] -> alike w1 w2 ->
  alike (mkWorld (svc w1) (rt w1) (out w1 ++ [e1])) (mkWorld (svc w2) (rt w2) (out w2 ++ [e2])).
Proof.
  intros He (Hs & Hr & Ho). repeat split; try apply Hs; [exact Hr|].
  cbn [out]. rewrite !unsent_app, Ho, He. reflexivity.
Qed.

(** *** The monad *)

Lemma related_ret {A} (R : A -> A -> Prop) (a1 a2 : A) :
  R a1 a2 -> related R (mret a1) (mret a2).
Proof. intros Ha w1 w2 Hw. cbn. auto. Qed.

Lemma related_bind {A B} (R : A -> A -> Prop) (R' : B -> B -> Prop)
    (m1 m2 : M A) (f1 f2 : A -> M B) :
  related R m1 m2 ->
  (forall a1 a2, R a1 a2 -> related R' (f1 a1) (f2 a2)) ->
  related R' (m1 ≫= f1) (m2 ≫= f2).
Proof.
  intros Hm Hf w1 w2 Hw. specialize (Hm w1 w2 Hw).
  unfold mbind, M_bind.
  destruct (m1 w1) as [[e1|a1] w1'], (m2 w2) as [[e2|a2] w2']; try contradiction.
  - exact Hm.
  - destruct Hm as [Ha Hw']. apply (Hf a1 a2 Ha w1' w2' Hw').
Qed.

Lemma related_throw {A} (R : A -> A -> Prop) (e : Exn) : related R (throw e) (throw e).
Proof. intros w1 w2 Hw. cbn. auto. Qed.

Lemma related_try_catch {A} (R : A -> A -> Prop) (b1 b2 : M A) (h1 h2 : Exn -> M A) :
  related R b1 b2 -> (forall e, related R (h1 e) (h2 e)) ->
  related R (try_catch b1 h1) (try_catch b2 h2).
Proof.
  intros Hb Hh w1 w2 Hw. specialize (Hb w1 w2 Hw). unfold try_catch.
  destruct (b1 w1) as [[e1|a1] w1'], (b2 w2) as [[e2|a2] w2']; try contradiction.
  - destruct Hb as [<- Hw']. apply (Hh e1 w1' w2' Hw').
  - exact Hb.
Qed.

Lemma related_detached (h1 h2 : M unit) :
  related eq h1 h2 -> related eq (detached h1) (detached h2).
Proof.
  intros Hh w1 w2 Hw. specialize (Hh w1 w2 Hw). unfold detached.
  destruct (h1 w1) as [[e1|a1] w1'], (h2 w2) as [[e2|a2] w2']; try contradiction.
  - destruct Hh as [<- Hw']. split; [reflexivity|]. apply alike_emit; auto.
  - destruct Hh as [_ Hw']. auto.
Qed.

Lemma related_lift {A} (r : Exn + A) : related eq (lift r) (lift r).
Proof. intros w1 w2 Hw. unfold lift. destruct r; auto. Qed.

Lemma related_emit (e1 e2 : Effect) :
  unsent [e1] = unsent [e2] -> related eq (emit e1) (emit e2).
Proof. intros He w1 w2 Hw. cbn. split; [reflexivity|]. apply alike_emit; auto. Qed.

Lemma related_this {A} (R : A -> A -> Prop) (f : OkxService -> A) :
  (forall o1 o2, alike_service o1 o2 -> R (f o1) (f o2)) ->
  related R (this f) (this f).
Proof. intros Hf w1 w2 Hw. cbn. split; [apply Hf, Hw|exact Hw]. Qed.

Lemma related_assign (upd : OkxService -> OkxService) :
  (forall o1 o2, alike_service o1 o2 -> alike_service (upd o1) (upd o2)) ->
  related eq (assign upd) (assign upd).
Proof.
  intros Hupd w1 w2 (Hs & Hr & Ho). cbn. split; [reflexivity|].
  split; [apply Hupd, Hs|]. auto.
Qed.

Lemma related_runtime {A} (f : Runtime -> A) : related eq (runtime f) (runtime f).
Proof. intros w1 w2 Hw. cbn. split; [|exact Hw]. destruct Hw as (_ & -> & _). reflexivity. Qed.

Lemma related_set_runtime (upd : Runtime -> Runtime) :
  related eq (set_runtime upd) (set_runtime upd).
Proof.
  intros w1 w2 (Hs & Hr & Ho). cbn. split; [reflexivity|]. repeat split; try apply Hs; auto.
  cbn. rewrite Hr. reflexivity.
Qed.

Lemma related_fresh : related eq fresh fresh.
Proof.
  intros w1 w2 (Hs & Hr & Ho). cbn. rewrite Hr. split; [reflexivity|].
  repeat split; try apply Hs; auto.
Qed.

Lemma related_notify (n : Notification) :
  related eq (sendOrderNotification n) (sendOrderNotification n).
Proof.
  intros w1 w2 Hw. unfold sendOrderNotification.
  assert (Hn : notifications (out w1) = notifications (out w2)).
  { destruct Hw as (_ & _ & Ho).
    rewrite <- (notifications_unsent (out w1)), Ho. apply notifications_unsent. }
  rewrite Hn. split; [reflexivity|]. apply alike_emit; auto.
Qed.

(** *** The handlers *)

Ltac alike_fields :=
  repeat match goal with
  | H : alike_service ?o1 ?o2 |- _ =>
      destruct o1, o2; unfold alike_service in H; cbn in H;
      destruct H as (? & ? & ? & ? & ? & ? & ?); subst
  end.

Ltac same_field :=
  let H := fresh in
  intros [] [] H; unfold alike_service in *; cbn in *; intuition congruence.

Ltac rel_step :=
  match goal with
  | H : alike_service _ _ |- _ => progress alike_fields
  | H : ?a = ?b |- _ => first [subst a | subst b]
  | |- related _ _ _ => assumption
  | |- related _ (mret _) (mret _) => apply (related_ret eq); reflexivity
  | |- related _ (lift _) (lift _) => apply related_lift
  | |- related _ (throw _) (throw _) => apply related_throw
  | |- related _ (emit _) (emit _) => apply related_emit; reflexivity
  | |- related _ (runtime _) (runtime _) => apply related_runtime
  | |- related _ (set_runtime _) (set_runtime _) => apply related_set_runtime
  | |- related _ fresh fresh => apply related_fresh
  | |- related _ (sendOrderNotification _) (sendOrderNotification _) => apply related_notify
  | |- related _ (this _) (this _) =>
      first [ apply (related_this eq); solve [same_field]
            | apply (related_this alike_service); solve [auto] ]
  | |- related _ (assign _) (assign _) => apply related_assign; solve [same_field]
  | |- related _ (detached _) (detached _) => apply related_detached
  | |- related _ (try_catch _ _) (try_catch _ _) => apply related_try_catch; [|intros ?]
  | |- related _ (mbind _ _) (mbind _ _) => eapply related_bind; [|intros ? ? ?]
  | |- related _ (match ?x with _ => _ end) _ => destruct x
  | |- related _ (if ?b then _ else _) _ => destruct b
  | |- related _ _ _ => solve [auto 1 with related nocore]
  end.

Ltac rel :=
  unfold logConnection, logAuth, logSubscribe, logOrder, logNotify, logSystem, logError,
    writeLog, logger_log, logger_warn, logger_error, clearInterval, clearTimeout, skip;
  repeat rel_step.

Create HintDb related.

Lemma related_ws_send (s : nat) (p1 p2 : Payload) :
  related eq (ws_send s p1) (ws_send s p2).
Proof. unfold ws_send. rel. Qed.
#[local] Hint Resolve related_ws_send : related.

Lemma related_ws_close (s : nat) : related eq (ws_close s) (ws_close s).
Proof. unfold ws_close. rel. Qed.
#[local] Hint Resolve related_ws_close : related.

Lemma related_new_WebSocket (url : string) :
  related eq (new_WebSocket url) (new_WebSocket url).
Proof. unfold new_WebSocket. rel. Qed.
#[local] Hint Resolve related_new_WebSocket : related.

Lemma related_setInterval (cb : Callback) (ms : Z) :
  related eq (setInterval cb ms) (setInterval cb ms).
Proof. unfold setInterval. rel. Qed.
#[local] Hint Resolve related_setInterval : related.

Lemma related_setTimeout (cb : Callback) (ms : Z) :
  related eq (setTimeout cb ms) (setTimeout cb ms).
Proof. unfold setTimeout. rel. Qed.
#[local] Hint Resolve related_setTimeout : related.

Lemma related_cleanup : related eq cleanup cleanup.
Proof. unfold cleanup. rel. Qed.
#[local] Hint Resolve related_cleanup : related.

Lemma related_send_json (v1 v2 : Value) : related eq (send_json v1) (send_json v2).
Proof. unfold send_json. rel. Qed.
#[local] Hint Resolve related_send_json : related.

Lemma related_login : related (related eq) login login.
Proof.
  unfold login. rel.
  apply (related_ret (related eq)). apply related_send_json.
Qed.
#[local] Hint Resolve related_login : related.

Lemma related_subscribeOrders : related eq subscribeOrders subscribeOrders.
Proof. unfold subscribeOrders. rel. Qed.
#[local] Hint Resolve related_subscribeOrders : related.

Lemma related_startPing : related eq startPing startPing.
Proof. unfold startPing. rel. Qed.
#[local] Hint Resolve related_startPing : related.

Lemma related_pingTick : related eq pingTick pingTick.
Proof. unfold pingTick. rel. Qed.
#[local] Hint Resolve related_pingTick : related.

Lemma related_scheduleReconnect : related eq scheduleReconnect scheduleReconnect.
Proof. unfold scheduleReconnect. rel. Qed.
#[local] Hint Resolve related_scheduleReconnect : related.

Lemma related_connectWebSocket : related eq connectWebSocket connectWebSocket.
Proof. unfold connectWebSocket. rel. Qed.
#[local] Hint Resolve related_connectWebSocket : related.

Lemma related_handleOrder (order : Value) : related eq (handleOrder order) (handleOrder order).
Proof. unfold handleOrder. rel. Qed.
#[local] Hint Resolve related_handleOrder : related.

Lemma related_forEach (orders : list Value) :
  related eq (forEach handleOrder orders) (forEach handleOrder orders).
Proof. induction orders as [|order orders IH]; cbn [forEach]; rel. Qed.
#[local] Hint Resolve related_forEach : related.

Lemma related_handleOrderData (orders : Value) :
  related eq (handleOrderData orders) (handleOrderData orders).
Proof. unfold handleOrderData. rel. Qed.
#[local] Hint Resolve related_handleOrderData : related.

Lemma related_handleMessage (data : string) :
  related eq (handleMessage data) (handleMessage data).
Proof. unfold handleMessage. cbv zeta. rel. Qed.
#[local] Hint Resolve related_handleMessage : related.

Lemma related_on_open : related eq on_open on_open.
Proof. unfold on_open. rel. Qed.

Lemma related_on_message (data : string) : related eq (on_message data) (on_message data).
Proof. unfold on_message. rel. Qed.

Lemma related_on_error (message : string) : related eq (on_error message) (on_error message).
Proof. unfold on_error. rel. Qed.

Lemma related_on_close (code : Z) (reason : string) :
  related eq (on_close code reason) (on_close code reason).
Proof. unfold on_close. cbv zeta. rel. Qed.

Lemma related_onModuleInit : related eq onModuleInit onModuleInit.
Proof. unfold onModuleInit. rel. Qed.

Lemma related_onModuleDestroy : related eq onModuleDestroy onModuleDestroy.
Proof. unfold onModuleDestroy. rel. Qed.

(** *** The event loop *)

Lemma log_entries_unsent (tr : list Effect) : log_entries (unsent tr) = log_entries tr.
Proof.
  unfold log_entries, unsent. induction tr as [|e tr IH]; [reflexivity|].
  destruct e; cbn; rewrite ?IH; reflexivity.
Qed.

Lemma exec_alike (h : M unit) (w1 w2 : World) :
  related eq h h -> alike w1 w2 -> alike (exec h w1) (exec h w2).
Proof.
  intros Hh Hw. pose proof (related_detached h h Hh w1 w2 Hw) as Hd.
  unfold exec. destruct (detached h w1) as [[e1|[]] w1'], (detached h w2) as [[e2|[]] w2'];
    try contradiction; apply Hd.
Qed.

Lemma with_runtime_alike (upd : Runtime -> Runtime) (w1 w2 : World) :
  alike w1 w2 -> alike (with_runtime upd w1) (with_runtime upd w2).
Proof.
  intros (Hs & Hr & Ho). split; [exact Hs|]. split; [|exact Ho].
  cbn. rewrite Hr. reflexivity.
Qed.

Lemma deliver_alike (ev : Event) (w1 w2 w1' : World) :
  alike w1 w2 -> deliver ev w1 = Some w1' ->
  exists w2', deliver ev w2 = Some w2' /\ alike w1' w2'.
Proof.
  intros Hw Hstep. pose proof Hw as (_ & Hr & _).
  destruct ev as [| |s|s data|s message|s code reason|t|ms]; cbn in Hstep |- *;
    rewrite <- ?Hr.
  - some_eq Hstep. eexists. split; [reflexivity|].
    apply exec_alike; [apply related_onModuleInit|exact Hw].
  - some_eq Hstep. eexists. split; [reflexivity|].
    apply exec_alike; [apply related_onModuleDestroy|exact Hw].
  - destruct (sockets (rt w1) !! s) as [[]|]; try discriminate. some_eq Hstep.
    eexists. split; [reflexivity|].
    apply exec_alike; [apply related_on_open|apply with_runtime_alike, Hw].
  - destruct (sockets (rt w1) !! s) as [[]|]; try discriminate; some_eq Hstep;
      (eexists; split; [reflexivity|]);
      (apply exec_alike; [apply related_on_message|exact Hw]).
  - destruct (sockets (rt w1) !! s) as [[]|]; try discriminate; some_eq Hstep;
      (eexists; split; [reflexivity|]);
      (apply exec_alike; [apply related_on_error|apply with_runtime_alike, Hw]).
  - destruct (sockets (rt w1) !! s) as [[]|]; try discriminate; some_eq Hstep;
      (eexists; split; [reflexivity|]);
      (apply exec_alike; [apply related_on_close|apply with_runtime_alike, Hw]).
  - destruct (timers (rt w1) !! t) as [tm|]; [|discriminate].
    destruct (decide (due tm <= clock (rt w1))); [|discriminate]. some_eq Hstep.
    eexists. split; [reflexivity|].
    apply exec_alike; [|apply with_runtime_alike, Hw].
    destruct (callback tm); cbn [run_callback];
      [apply related_pingTick|apply related_detached, related_connectWebSocket].
  - destruct (decide (0 <= ms)); [|discriminate]. some_eq Hstep.
    eexists. split; [reflexivity|]. apply with_runtime_alike, Hw.
Qed.

(** X10. The secret key and the passphrase reach nothing but the frames handed
    to the sockets. Two services that differ only in these two fields,
    given the same events, go through the same steps: the fields, the
    sockets and the timers stay the same, and apart from the frames sent
    the traces are equal, so the same lines go to the logger, the same
    entries to the log file and the same notifications to the sink. *)
Theorem secrets_reach_only_the_frames_sent (evs : list Event) (w1 w2 w1' : World) :
  alike w1 w2 ->
  run evs w1 = Some w1' ->
  exists w2',
    run evs w2 = Some w2' /\
    alike w1' w2' /\
    log_entries (out w2') = log_entries (out w1') /\
    notifications (out w2') = notifications (out w1').
Proof.
  revert w1 w2. induction evs as [|ev evs IH]; intros w1 w2 Hw; cbn.
  - intros [= <-]. exists w2. split; [reflexivity|]. split; [exact Hw|].
    destruct Hw as (_ & _ & Ho).
    rewrite <- (log_entries_unsent (out w2)), <- (notifications_unsent (out w2)), <- Ho.
    rewrite log_entries_unsent, notifications_unsent. auto.
  - destruct (deliver ev w1) as [w1''|] eqn:E; [|discriminate]. intros Hrun.
    destruct (deliver_alike ev w1 w2 w1'' Hw E) as (w2'' & -> & Hw'').
    apply (IH w1'' w2'' Hw'' Hrun).
Qed.

End SecretsProofs.

(** * LoggingService: properties *)

Module LoggingFacts.
Import Logging.

Ltac unfold_l :=
  unfold attempt, returned, on_disk, set_disk, logger, raise, existsSync_file,
    existsSync_dir, readFileSync, writeFileSync, mkdirSync, getTimestamp,
    mbind, mret, L_bind, L_ret in *.

(** ** Lines *)

Lemma split_lines_nonempty (s : string) : split_lines s <> [].
Proof.
  induction s as [|c s IH]; cbn; [discriminate|].
  destruct (Ascii.eqb c "010"); [discriminate|].
  destruct (split_lines s); [contradiction|discriminate].
Qed.

Lemma split_lines_oneLine (s : string) :
  Forall (fun l => oneLine l = true) (split_lines s).
Proof.
  induction s as [|c s IH]; cbn; [repeat constructor|].
  destruct (Ascii.eqb c "010") eqn:Ec; [constructor; [reflexivity|exact IH]|].
  destruct (split_lines s) as [|l ls]; [repeat constructor; cbn; rewrite Ec; reflexivity|].
  inversion IH as [|? ? Hl Hls]; subst. constructor; [|exact Hls].
  cbn. rewrite Ec, Hl. reflexivity.
Qed.

Lemma append_cons (c : ascii) (s t : string) : String c s +:+ t = String c (s +:+ t).
Proof. reflexivity. Qed.

Lemma append_nil (s : string) : "" +:+ s = s.
Proof. reflexivity. Qed.

Lemma split_lines_line (p s : string) :
  oneLine p = true -> split_lines (p +:+ String "010" s) = p :: split_lines s.
Proof.
  induction p as [|c p IH]; [reflexivity|].
  rewrite append_cons. cbn [oneLine split_lines].
  intros H. apply andb_true_iff in H as [Hc Hp].
  apply negb_true_iff in Hc. rewrite Hc, (IH Hp). reflexivity.
Qed.

Lemma split_lines_single (p : string) : oneLine p = true -> split_lines p = [p].
Proof.
  induction p as [|c p IH]; cbn [oneLine split_lines]; [reflexivity|].
  intros H. apply andb_true_iff in H as [Hc Hp].
  apply negb_true_iff in Hc. rewrite Hc, (IH Hp). reflexivity.
Qed.

Lemma string_app_assoc (a b c : string) : (a +:+ b) +:+ c = a +:+ (b +:+ c).
Proof.
  induction a as [|x a IH]; [reflexivity|]. rewrite !append_cons, IH. reflexivity.
Qed.

Lemma string_app_nil_r (a : string) : a +:+ "" = a.
Proof.
  induction a as [|x a IH]; [reflexivity|]. rewrite append_cons, IH. reflexivity.
Qed.

Lemma fold_join (sep a b : string) (rest : list string) :
  fold_left (fun acc q => acc +:+ sep +:+ q) rest (a +:+ b) =
    a +:+ fold_left (fun acc q => acc +:+ sep +:+ q) rest b.
Proof.
  revert b. induction rest as [|q rest IH]; intros b; cbn [fold_left]; [reflexivity|].
  rewrite string_app_assoc. apply IH.
Qed.

Lemma join_lines_cons (p q : string) (rest : list string) :
  join_lines (p :: q :: rest) = p +:+ String "010" (join_lines (q :: rest)).
Proof.
  unfold join_lines, joinWith, newline. cbn [fold_left].
  rewrite fold_join. f_equal.
  rewrite append_cons, append_nil.
  change (String "010" q) with (String "010" "" +:+ q).
  rewrite fold_join. reflexivity.
Qed.

(** Splitting what was joined gives the lines back. *)
Lemma split_join (ls : list string) :
  ls <> [] -> Forall (fun l => oneLine l = true) ls ->
  split_lines (join_lines ls) = ls.
Proof.
  intros Hne Hall. induction Hall as [|p ls Hp Hls IH]; [contradiction|].
  destruct ls as [|q rest]; [apply split_lines_single, Hp|].
  rewrite join_lines_cons, (split_lines_line _ _ Hp), IH by discriminate. reflexivity.
Qed.

(** Joining the lines of a text gives the text back. *)
Lemma join_split (s : string) : join_lines (split_lines s) = s.
Proof.
  induction s as [|c s IH]; [reflexivity|]. cbn [split_lines].
  pose proof (split_lines_nonempty s) as Hne.
  destruct (Ascii.eqb c "010") eqn:Ec.
  - apply Ascii.eqb_eq in Ec as ->.
    destruct (split_lines s) as [|l ls]; [contradiction|].
    rewrite join_lines_cons, IH. reflexivity.
  - destruct (split_lines s) as [|l ls]; [contradiction|].
    destruct ls as [|l' ls].
    + change (join_lines [l]) with l in IH. rewrite <- IH. reflexivity.
    + rewrite join_lines_cons in *. rewrite append_cons, IH. reflexivity.
Qed.

Lemma maxLines_positive : maxLines <> 0%nat.
Proof. unfold maxLines. lia. Qed.

(** ** Writing *)

Section Writing.
Context `{P : Platform}.

Lemma writeLog_healthy (st : LogState) (timestamp : string) (entry : OkxLogEntry)
    (logLine : string) :
  healthy (disk st) ->
  formatLogEntry timestamp entry = inr logLine ->
  writeLog timestamp entry st =
    (inr tt,
     mkLogState (mkDisk true false (Content (stored logLine (disk st))))
       (wallClock st) (console st)).
Proof.
  destruct st as [[dir ro f] clk con]. unfold healthy. cbn [disk dirExists readOnly file].
  intros (-> & -> & Hfile) Hfmt.
  unfold writeLog, stored, existing, lineCount. unfold_l. rewrite Hfmt.
  destruct f as [|text|]; [| |contradiction];
    cbn -[maxLines split_lines join_lines take Nat.ltb];
    destruct (Nat.ltb maxLines _); reflexivity.
Qed.

Lemma stored_lines (logLine : string) (d : Disk) :
  split_lines (stored logLine d) = take maxLines (split_lines (logLine +:+ existing d)).
Proof.
  unfold stored, lineCount.
  destruct (Nat.ltb_spec maxLines (length (split_lines (logLine +:+ existing d)))) as [H|H].
  - apply split_join.
    + pose proof (split_lines_nonempty (logLine +:+ existing d)) as Hne.
      pose proof maxLines_positive as Hpos.
      destruct (split_lines _); [contradiction|].
      destruct maxLines; [contradiction|discriminate].
    + apply Forall_take, split_lines_oneLine.
  - symmetry. apply take_ge. exact H.
Qed.

(** X11. On a healthy disk [writeLog] puts the new entry in front of what the
    file holds and keeps the first [maxLines] lines of the result: the
    newest entry is at the top, the oldest lines fall off the end. While
    the limit is not reached the file is exactly the new entry followed by
    the old content. Nothing is reported to the logger. *)
Theorem writeLog_puts_the_newest_entry_first (st : LogState) (timestamp : string)
    (entry : OkxLogEntry) (logLine : string) :
  healthy (disk st) ->
  formatLogEntry timestamp entry = inr logLine ->
  exists text,
    writeLog timestamp entry st =
      (inr tt, mkLogState (mkDisk true false (Content text)) (wallClock st) (console st)) /\
    split_lines text = take maxLines (split_lines (logLine +:+ existing (disk st))) /\
    ((lineCount (logLine +:+ existing (disk st)) <= maxLines)%nat ->
     text = logLine +:+ existing (disk st)).
Proof.
  intros Hdisk Hfmt. exists (stored logLine (disk st)).
  split; [apply writeLog_healthy; assumption|]. split; [apply stored_lines|].
  intros Hfew. unfold stored.
  destruct (Nat.ltb_spec maxLines (lineCount (logLine +:+ existing (disk st)))); [lia|reflexivity].
Qed.

Lemma writeLog_unserialisable (st : LogState) (timestamp : string) (entry : OkxLogEntry)
    (error : Exn) :
  formatLogEntry timestamp entry = inl error ->
  writeLog timestamp entry st =
    (inr tt,
     mkLogState (disk st) (wallClock st)
       (console st ++ [mkCall LError "写入日志失败" (Some error)])).
Proof. intros Hfmt. unfold writeLog. unfold_l. rewrite Hfmt. reflexivity. Qed.

Lemma writeLog_unhealthy (st : LogState) (timestamp : string) (entry : OkxLogEntry)
    (logLine : string) :
  formatLogEntry timestamp entry = inr logLine ->
  ~ healthy (disk st) ->
  exists error,
    writeLog timestamp entry st =
      (inr tt,
       mkLogState (disk st) (wallClock st)
         (console st ++ [mkCall LError "写入日志失败" (Some error)])).
Proof.
  destruct st as [[dir ro f] clk con].
  intros Hfmt Hbad. unfold healthy in Hbad. cbn [disk dirExists readOnly file] in Hbad.
  unfold writeLog. unfold_l. rewrite Hfmt.
  destruct f as [|text|], ro, dir;
    cbn -[maxLines split_lines join_lines take Nat.ltb];
    try (eexists; reflexivity);
    exfalso; apply Hbad; repeat split; discriminate.
Qed.

(** X12. The failure of a write is reported, not raised: when the entry cannot
    be serialised, or the file cannot be read or written, [writeLog]
    returns normally, leaves the disk as it is and hands the error to the
    logger. *)
Theorem writeLog_failure_is_reported (st : LogState) (timestamp : string)
    (entry : OkxLogEntry) :
  (forall error, formatLogEntry timestamp entry = inl error ->
     writeLog timestamp entry st =
       (inr tt,
        mkLogState (disk st) (wallClock st)
          (console st ++ [mkCall LError "写入日志失败" (Some error)]))) /\
  (forall logLine, formatLogEntry timestamp entry = inr logLine ->
     ~ healthy (disk st) ->
     exists error,
       writeLog timestamp entry st =
         (inr tt,
          mkLogState (disk st) (wallClock st)
            (console st ++ [mkCall LError "写入日志失败" (Some error)]))).
Proof.
  split.
  - intros error. apply writeLog_unserialisable.
  - intros logLine. apply writeLog_unhealthy.
Qed.

Lemma healthy_dec (d : Disk) : healthy d \/ ~ healthy d.
Proof.
  destruct d as [[] [] []]; unfold healthy; cbn;
    first [ left; repeat split; discriminate | right; intros (? & ? & ?); congruence ].
Qed.

Lemma stored_capped (logLine : string) (d : Disk) :
  (lineCount (stored logLine d) <= maxLines)%nat.
Proof.
  unfold lineCount. rewrite stored_lines, length_take. lia.
Qed.

Lemma writeLog_step (st : LogState) (timestamp : string) (entry : OkxLogEntry) :
  exists st',
    writeLog timestamp entry st = (inr tt, st') /\
    (disk st' = disk st \/ capped (disk st')).
Proof.
  destruct (formatLogEntry timestamp entry) as [error|logLine] eqn:Hfmt.
  - eexists. split; [apply (writeLog_unserialisable _ _ _ _ Hfmt)|]. left. reflexivity.
  - destruct (healthy_dec (disk st)) as [Hdisk|Hdisk].
    + eexists. split; [apply (writeLog_healthy _ _ _ _ Hdisk Hfmt)|]. right.
      intros text [= <-]. apply stored_capped.
    + destruct (writeLog_unhealthy _ _ _ _ Hfmt Hdisk) as [error E].
      eexists. split; [exact E|]. left. reflexivity.
Qed.

(** X13. However many entries are written, and whatever happens to the disk in
    between, no write raises and a file that holds at most [maxLines]
    lines never grows beyond them. *)
Theorem log_file_stays_capped (entries : list (string * OkxLogEntry)) (st : LogState) :
  exists st',
    writeAll entries st = (inr tt, st') /\
    (capped (disk st) -> capped (disk st')).
Proof.
  revert st. induction entries as [|[timestamp entry] entries IH]; intros st.
  - exists st. split; [reflexivity|auto].
  - destruct (writeLog_step st timestamp entry) as (st1 & E1 & H1).
    destruct (IH st1) as (st2 & E2 & H2).
    exists st2. cbn [writeAll]. unfold mbind, L_bind. rewrite E1. split; [exact E2|].
    intros Hcap. apply H2. destruct H1 as [-> | H1]; assumption.
Qed.

(** ** Reading and clearing *)

Lemma getRecentLogs_content (st : LogState) (lines : option Z) (text : string) :
  file (disk st) = Content text ->
  getRecentLogs lines st =
    (inr (join_lines (slice0 (default 100 lines) (split_lines text))), st).
Proof.
  destruct st as [[dir ro f] clk con]. cbn [disk file]. intros ->.
  unfold getRecentLogs. unfold_l. reflexivity.
Qed.

(** X14. [getRecentLogs(n)] never raises and never changes the disk. Without a
    file it answers with a fixed text; when the file cannot be read it
    answers with another fixed text and reports the error. Otherwise it
    returns the first [n] lines of the file: the whole file when [n] is at
    least its number of lines, the empty text when [n] is zero. *)
Theorem getRecentLogs_returns_the_first_lines (st : LogState) (lines : option Z) :
  let n := default 100 lines in
  (file (disk st) = Absent -> getRecentLogs lines st = (inr "暂无日志", st)) /\
  (file (disk st) = Inaccessible ->
     getRecentLogs lines st =
       (inr "读取日志失败",
        mkLogState (disk st) (wallClock st)
          (console st ++ [mkCall LError "读取日志失败" (Some EACCES)]))) /\
  (forall text, file (disk st) = Content text ->
     exists result,
       getRecentLogs lines st = (inr result, st) /\
       (Z.of_nat (lineCount text) <= n -> result = text) /\
       (1 <= n -> split_lines result = take (Z.to_nat n) (split_lines text)) /\
       (n = 0 -> result = "")).
Proof.
  cbv zeta. split; [|split].
  - destruct st as [[dir ro f] clk con]. cbn [disk file]. intros ->. reflexivity.
  - destruct st as [[dir ro f] clk con]. cbn [disk file]. intros ->. reflexivity.
  - intros text Hfile. eexists. split; [apply getRecentLogs_content, Hfile|].
    set (n := default 100 lines). unfold slice0, lineCount.
    pose proof (split_lines_nonempty text) as Hne.
    split; [|split].
    + intros Hall. destruct (Z.ltb_spec n 0); [lia|].
      rewrite Z.min_r by lia. rewrite Nat2Z.id, firstn_all. apply join_split.
    + intros Hpos. destruct (Z.ltb_spec n 0); [lia|].
      assert (Htake : take (Z.to_nat (Z.min n (Z.of_nat (length (split_lines text)))))
                        (split_lines text) = take (Z.to_nat n) (split_lines text)).
      { destruct (Z.le_ge_cases n (Z.of_nat (length (split_lines text)))).
        - rewrite Z.min_l by lia. reflexivity.
        - rewrite Z.min_r by lia. rewrite Nat2Z.id, firstn_all.
          symmetry. apply take_ge. lia. }
      rewrite Htake. apply split_join.
      * destruct (split_lines text); [contradiction|].
        destruct (Z.to_nat n) eqn:En; [lia|discriminate].
      * apply Forall_take, split_lines_oneLine.
    + intros Hzero. rewrite Hzero. cbn [Z.ltb Z.compare].
      rewrite Z.min_l by lia. reflexivity.
Qed.

(** X15. [clearLogs] does not create a missing file. It empties a file that can
    be written, after which [getRecentLogs] returns the empty text whatever
    number of lines is asked for; when the file cannot be written the
    failure is reported and the file is left alone. *)
Theorem clearLogs_empties_the_file (st : LogState) (lines : option Z) :
  (file (disk st) = Absent -> clearLogs st = (inr tt, st)) /\
  (forall text, healthy (disk st) -> file (disk st) = Content text ->
     let st' := mkLogState (mkDisk true false (Content ""))
                  (wallClock st) (console st ++ [mkCall LLog "日志已清空" None]) in
     clearLogs st = (inr tt, st') /\
     getRecentLogs lines st' = (inr "", st')) /\
  (file (disk st) <> Absent -> ~ healthy (disk st) ->
     exists error,
       clearLogs st =
         (inr tt,
          mkLogState (disk st) (wallClock st)
            (console st ++ [mkCall LError "清空日志失败" (Some error)]))).
Proof.
  destruct st as [[dir ro f] clk con]. unfold healthy. cbn [disk dirExists readOnly file].
  split; [|split].
  - intros ->. reflexivity.
  - intros text (-> & -> & _) ->. cbv zeta. split; [reflexivity|].
    rewrite (getRecentLogs_content _ _ "") by reflexivity.
    f_equal. f_equal. unfold slice0. cbn [split_lines length].
    destruct (Z.ltb_spec (default 100 lines) 0).
    + rewrite Z.max_r by lia. reflexivity.
    + destruct (Z.le_ge_cases (default 100 lines) 1).
      * rewrite Z.min_l by lia. destruct (Z.to_nat (default 100 lines)) as [|[|k]] eqn:E;
          [reflexivity|reflexivity|lia].
      * rewrite Z.min_r by lia. reflexivity.
  - intros Hfile Hbad. unfold clearLogs. unfold_l.
    destruct f as [|text|], ro, dir; cbn; try contradiction;
      try (eexists; reflexivity);
      exfalso; apply Hbad; repeat split; discriminate.
Qed.

Lemma split_lines_break (a b : string) :
  split_lines (a +:+ String "010" b) = split_lines a ++ split_lines b.
Proof.
  induction a as [|c a IH]; [reflexivity|].
  rewrite append_cons. cbn [split_lines]. rewrite IH.
  pose proof (split_lines_nonempty a) as Hne.
  destruct (Ascii.eqb c "010"); [reflexivity|].
  destruct (split_lines a); [contradiction|reflexivity].
Qed.

(** X19. What was written last is read back first: after [writeLog] has put an
    entry in front of the file, asking [getRecentLogs] for as many lines
    as the entry has returns the entry, without its final line break. *)
Theorem newest_entry_is_read_back (st : LogState) (timestamp : string)
    (entry : OkxLogEntry) (body : string) :
  healthy (disk st) ->
  formatLogEntry timestamp entry = inr (body +:+ newline) ->
  (lineCount ((body +:+ newline) +:+ existing (disk st)) <= maxLines)%nat ->
  exists st',
    writeLog timestamp entry st = (inr tt, st') /\
    getRecentLogs (Some (Z.of_nat (lineCount body))) st' = (inr body, st').
Proof.
  intros Hdisk Hfmt Hfew. eexists. split; [apply (writeLog_healthy _ _ _ _ Hdisk Hfmt)|].
  rewrite (getRecentLogs_content _ _ (stored (body +:+ newline) (disk st))) by reflexivity.
  f_equal. f_equal. unfold stored.
  destruct (Nat.ltb_spec maxLines (lineCount ((body +:+ newline) +:+ existing (disk st))));
    [lia|].
  unfold newline. rewrite string_app_assoc, append_cons, append_nil, split_lines_break.
  unfold slice0, lineCount, default, id. cbn [from_option].
  destruct (Z.ltb_spec (Z.of_nat (length (split_lines body))) 0); [lia|].
  rewrite length_app, Z.min_l by lia. rewrite Nat2Z.id, take_app_length. apply join_split.
Qed.

(** ** Formatting *)

Lemma length_append (a b : string) :
  String.length (a +:+ b) = (String.length a + String.length b)%nat.
Proof.
  induction a as [|c a IH]; [reflexivity|].
  rewrite append_cons. cbn [String.length]. rewrite IH. reflexivity.
Qed.

Lemma length_substring (n : nat) (s : string) :
  (String.length (substring 0 n s) <= n)%nat.
Proof.
  revert s. induction n as [|n IH]; intros s.
  - destruct s; cbn; lia.
  - destruct s as [|c s]; cbn [substring String.length]; [lia|].
    specialize (IH s). lia.
Qed.

Lemma length_truncate (dataStr : string) :
  (String.length (truncate dataStr) <= 2000 + String.length truncationMark)%nat.
Proof.
  unfold truncate.
  destruct (Nat.ltb_spec 2000 (String.length dataStr)) as [H|H]; [|lia].
  rewrite length_append. pose proof (length_substring 2000 dataStr). lia.
Qed.

Lemma length_entry_lines (a b c d x : string) :
  String.length (join_lines ([a; b; c; d] ++ [x; ""]) +:+ newline) =
    (String.length (join_lines ([a; b; c; d] ++ [""]) +:+ newline) + String.length x + 1)%nat.
Proof.
  cbn [app]. rewrite !join_lines_cons. unfold join_lines, joinWith, newline.
  cbn [fold_left].
  repeat (progress (rewrite ?length_append; cbn [String.length])). lia.
Qed.

(** X16. The [data] of an entry adds a bounded amount of text to its formatted
    form, however large the data are: at most the label, the first 2000
    characters of the serialised data, the truncation mark and one line
    break. *)
Theorem formatted_data_is_bounded (timestamp : string) (entry : OkxLogEntry) :
  exists base,
    formatLogEntry timestamp (without_data entry) = inr base /\
    forall logLine, formatLogEntry timestamp entry = inr logLine ->
      (String.length base <= String.length logLine <= String.length base + dataLineBound)%nat.
Proof.
  unfold formatLogEntry. cbn [without_data level category message data]. cbv zeta.
  eexists. split; [reflexivity|]. intros logLine.
  destruct (data entry) eqn:Hdata;
    try (intros H; apply (inj inr) in H; subst logLine; lia);
    (destruct (safeStringify _) as [dataStr|]; [|discriminate]);
    intros H; apply (inj inr) in H; subst logLine;
    rewrite length_entry_lines, (length_append _ (truncate dataStr));
    pose proof (length_truncate dataStr); unfold dataLineBound; lia.
Qed.

End Writing.

End LoggingFacts.

(** * WechatService: properties *)

Module WechatFacts.
Import Wechat.

Section Facts.
Context `{P : Platform}.
Variable JSON_stringify_indented : Value -> string.
Variable axios_post : string -> Value -> Value -> AxiosError + Value.

Lemma isZero_iff (v : Value) : isZero v = true <-> v = VNum "0".
Proof.
  destruct v; cbn; try (split; [discriminate|discriminate]).
  rewrite String.eqb_eq. split; [intros ->; reflexivity|intros [= ->]; reflexivity].
Qed.

Lemma isNotFalse_iff (v : Value) : isNotFalse v = false <-> v = VBool false.
Proof. destruct v as [| |[]| | | | |]; cbn; split; congruence. Qed.

(** X17. [sendOrderNotification] makes exactly one request, to the configured
    URL, whose body carries the five arguments as [keyword1] to
    [keyword5], and never raises. It reports a failure in two cases only:
    the request itself fails, or the endpoint answers with [success:
    false] and an [errcode] other than [0]. Any other answer, an error
    code without a [success] field included, is reported as a success. *)
Theorem notification_fails_only_on_error_or_refusal (this : WechatService)
    (time : string) (instId side size state : Value) :
  let sent :=
    sendOrderNotification JSON_stringify_indented axios_post this time instId side size state in
  let payload := orderPayload this time instId side size state in
  posts (snd sent) = [(apiUrl this, payload)] /\
  (fst sent = false <->
   (exists err, axios_post (apiUrl this) payload requestConfig = inl err) \/
   (exists resData, axios_post (apiUrl this) payload requestConfig = inr resData /\
                    refused resData)).
Proof.
  cbv zeta. unfold sendOrderNotification, sendTemplateMessage, orderPayload, refused.
  cbn [default].
  destruct (axios_post _ _ _) as [err|resData]; cbn [fst snd].
  - split.
    + destruct (ax_response err) as [[status body]|]; reflexivity.
    + split; [eauto|reflexivity].
  - split; [reflexivity|]. rewrite orb_false_iff, isNotFalse_iff.
    split.
    + intros [Hzero Hfalse]. right. exists resData. repeat split; [exact Hfalse|].
      intros Heq. apply isZero_iff in Heq. congruence.
    + intros [[err Herr]|(body & Hbody & Hfalse & Hcode)]; [discriminate|].
      injection Hbody as <-. split; [|exact Hfalse].
      destruct (isZero (optional resData "errcode")) eqn:E; [|reflexivity].
      apply isZero_iff in E. contradiction.
Qed.

End Facts.

End WechatFacts.

(** * The earlier revision: properties *)

Module LegacyFacts.
Import Legacy LoggingFacts.

Section Facts.
Variable parseFloat_isNotNegative : string -> bool.

Lemma joinWith_cons (sep p q : string) (rest : list string) :
  joinWith sep (p :: q :: rest) = p +:+ sep +:+ joinWith sep (q :: rest).
Proof.
  unfold joinWith. cbn [fold_left]. rewrite !fold_join. reflexivity.
Qed.

Lemma joinWith_first (sep p : string) (rest : list string) :
  exists tail, joinWith sep (p :: rest) = p +:+ tail.
Proof.
  destruct rest as [|q rest]; [exists ""; symmetry; apply string_app_nil_r|].
  rewrite joinWith_cons. eauto.
Qed.

Lemma joinWith_last (sep last : string) (parts : list string) :
  exists front, joinWith sep (parts ++ [last]) = front +:+ last.
Proof.
  destruct parts as [|p rest]; [exists ""; reflexivity|].
  cbn [app]. unfold joinWith. rewrite fold_left_app. cbn [fold_left].
  eexists. rewrite <- string_app_assoc. reflexivity.
Qed.

Lemma append_not_empty (a b : string) : b <> "" -> a +:+ b <> "".
Proof.
  intros Hb H. apply (f_equal String.length) in H.
  rewrite length_append in H. destruct b; [contradiction|cbn in H; lia].
Qed.

Lemma remark_is_sent (title date content remark : string) :
  remark <> "" ->
  path (templateData title date content (Some remark)) "remark" "value" = VStr remark.
Proof.
  intros Hremark. unfold path, field, templateData. cbn.
  destruct (String.eqb_spec remark ""); [contradiction|reflexivity].
Qed.

Lemma content_parts (sep a b c : string) (optional : list string) :
  exists rest,
    joinWith sep ([a; b; c] ++ optional) = a +:+ sep +:+ b +:+ sep +:+ c +:+ rest.
Proof.
  cbn [app]. rewrite !joinWith_cons.
  destruct (joinWith_first sep c optional) as [tail ->]. eauto.
Qed.

Lemma labelText_convertible (table : list (string * Value)) (v : Value) :
  Forall (fun kv => convertible (snd kv) = true) table ->
  convertible v = true ->
  exists label text, labelled table v = inr label /\ ToString label = inr text.
Proof.
  intros Htable Hv. destruct (convertible_text v Hv) as [key Ekey].
  unfold labelled. rewrite Ekey. cbn [mbind E_bind mret E_ret].
  eexists. 
  assert (Hlabel : convertible (orElse (lookupObject table key) v) = true).
  { unfold orElse. case_match; [|exact Hv]. unfold lookupObject.
    destruct (ownProperty table key) as [x|] eqn:E.
    - clear -Htable E. induction Htable as [|[k y] table Hy _ IH]; cbn in E; [discriminate|].
      destruct (String.eqb k key); [apply (inj Some) in E; subst; exact Hy|auto].
    - case_match; reflexivity. }
  destruct (convertible_text _ Hlabel) as [text Etext]. eauto.
Qed.

Lemma optionalPart_convertible (label : string) (v : Value) :
  convertible v = true -> exists part, optionalPart label v = inr part.
Proof.
  intros Hv. destruct (convertible_text v Hv) as [text E].
  unfold optionalPart. rewrite E. case_match; cbn; eauto.
Qed.

(** X20. For every order whose fields can be converted to text the three
    formatters return a text. The content starts with the type, the side
    and the size, in this order; the remark ends with the order id, so it
    is never empty. A remark is therefore always sent as it is: the
    default text that [sendOrderNotification] substitutes for a missing or
    empty remark is never used for an order. *)
Theorem order_texts_carry_their_fixed_parts (props : list (string * Value)) :
  let order := VObj props in
  Forall (fun k => convertible (lookupObject props k) = true) formattedFields ->
  exists title content remark typeText sideText szText ordIdText,
    formatOrderTitle order = inr title /\
    formatOrderContent order = inr content /\
    formatOrderRemark parseFloat_isNotNegative order = inr remark /\
    labelText INST_TYPE_MAP (lookupObject props "instType") = inr typeText /\
    labelText ORDER_SIDE_MAP (lookupObject props "side") = inr sideText /\
    ToString (lookupObject props "sz") = inr szText /\
    ToString (lookupObject props "ordId") = inr ordIdText /\
    (exists rest,
       content =
         ("类型: " +:+ typeText) +:+ " | " +:+ ("方向: " +:+ sideText)
         +:+ " | " +:+ ("数量: " +:+ szText) +:+ rest) /\
    (exists front, remark = front +:+ "订单ID: " +:+ ordIdText) /\
    forall date, path (templateData title date content (Some remark)) "remark" "value"
                 = VStr remark.
Proof.
  cbv zeta. unfold formattedFields. rewrite !Forall_cons.
  intros (Hside & Hstate & HinstId & HinstType & Hsz & Hpx & HavgPx & Hacc & Hpnl & Hfee
          & HfeeCcy & Hlever & HordId & _).
  assert (Hsides : Forall (fun kv => convertible (snd kv) = true) ORDER_SIDE_MAP)
    by repeat constructor.
  assert (Hstates : Forall (fun kv => convertible (snd kv) = true) ORDER_STATE_MAP)
    by repeat constructor.
  assert (Htypes : Forall (fun kv => convertible (snd kv) = true) INST_TYPE_MAP)
    by repeat constructor.
  destruct (labelText_convertible ORDER_SIDE_MAP _ Hsides Hside)
    as (side & sideText & Eside & EsideText).
  destruct (labelText_convertible ORDER_STATE_MAP _ Hstates Hstate)
    as (state & stateText & Estate & EstateText).
  destruct (labelText_convertible INST_TYPE_MAP _ Htypes HinstType)
    as (instType & typeText & Etype & EtypeText).
  destruct (convertible_text _ HinstId) as [instIdText EinstId].
  destruct (convertible_text _ Hsz) as [szText Esz].
  destruct (convertible_text _ HordId) as [ordIdText EordId].
  destruct (convertible_text _ Hpnl) as [pnlText Epnl].
  destruct (convertible_text _ Hfee) as [feeText Efee].
  destruct (convertible_text _ HfeeCcy) as [feeCcyText EfeeCcy].
  destruct (convertible_text _ Hlever) as [leverText Elever].
  destruct (optionalPart_convertible "价格: " _ Hpx) as [pxPart Epx].
  destruct (optionalPart_convertible "均价: " _ HavgPx) as [avgPxPart EavgPx].
  destruct (optionalPart_convertible "成交: " _ Hacc) as [accPart Eacc].
  unfold formatOrderTitle, formatOrderContent, formatOrderRemark, labelText.
  cbn [getProp mbind E_bind mret E_ret].
  rewrite Eside, Estate, Etype. cbn [mbind E_bind mret E_ret].
  rewrite EsideText, EstateText, EtypeText, EinstId, Esz, EordId, Epnl, Efee, EfeeCcy, Elever.
  cbn [mbind E_bind mret E_ret]. rewrite Epx, EavgPx, Eacc. cbn [mbind E_bind mret E_ret].
  exists ("【OKX订单通知】" +:+ sideText +:+ " " +:+ instIdText +:+ " - " +:+ stateText).
  eexists.
  destruct (shown (lookupObject props "pnl")), (shown (lookupObject props "fee")),
    (shown (lookupObject props "lever")); cbn [mbind E_bind mret E_ret];
    (eexists; exists typeText, sideText, szText, ordIdText;
     split; [reflexivity|]; split; [reflexivity|]; split; [reflexivity|];
     split; [reflexivity|]; split; [reflexivity|]; split; [reflexivity|];
     split; [reflexivity|]; split; [apply content_parts|];
     split;
     [ rewrite ?app_assoc; apply joinWith_last
     | intros date; apply remark_is_sent; rewrite ?app_assoc;
       match goal with |- joinWith ?sep (?parts ++ [?last]) <> _ =>
         destruct (joinWith_last sep last parts) as [front ->] end;
       apply append_not_empty; rewrite append_cons; discriminate ]).
Qed.

End Facts.

End LegacyFacts.

(** * Runs on the concrete platform *)

Module Runs.
Import Scenario.

Example sha256_abc :
  Node.hex (Node.sha256 (Node.utf8 "abc")) =
    "ba7816bf8f01cfea414140de5dae2223b00361a396177a9cb410ff61f20015ad".
Proof. vm_compute. reflexivity. Qed.

(** RFC 4231, test case 2 *)
Example hmac_sha256_rfc4231 :
  Node.hex (Node.hmac_sha256 (Node.utf8 "Jefe") (Node.utf8 "what do ya want for nothing?")) =
    "5bdcc146bf60754e6a042426089575c75a003f089d2739839dec58b964ec3843".
Proof. vm_compute. reflexivity. Qed.

Example sign_of_login :
  sign (P := node) service "1735200600" "GET" "/users/self/verify" None =
    "H9t0JQKujulkDT2K9lQdOc/JJ0aOjfcMsnOmFd1h+4A=".
Proof. vm_compute. reflexivity. Qed.

Example ordersFrame_parses : Node.parse ordersFrame = inr (VObj ordersProps).
Proof. vm_compute. reflexivity. Qed.

(** numbers are read as doubles and carried as JavaScript prints them *)
Example numbers_parse :
  Node.parse "[0.10,1e3,-0,2e-7,1E21,9007199254740993,12.50e-1,1e400]" =
    inr (VArr [ VNum "0.1"; VNum "1000"; VNum "0"; VNum "2e-7"; VNum "1e+21";
                VNum "9007199254740992"; VNum "1.25"; VNum "Infinity" ]).
Proof. vm_compute. reflexivity. Qed.

(** array indices come first among the keys, a repeated key keeps its
    place *)
Example keys_parse :
  Node.parse (Node.text "{'b':1,'2':2,'a':3,'1':4,'b':5}") =
    inr (VObj [ ("1", VNum "4"); ("2", VNum "2"); ("b", VNum "5"); ("a", VNum "3") ]).
Proof. vm_compute. reflexivity. Qed.

Example subscribe_request_text :
  Node.stringify subscribeMessage =
    Node.text "{'op':'subscribe','args':[{'channel':'orders','instType':'ANY'}]}".
Proof. vm_compute. reflexivity. Qed.

Example order1_rendering :
  rendering (P := node) order1 =
    inr (mkNotification "2024/12/26 08:10:00" (VStr "BTC-USDT") (VStr "买入")
           (VStr "0.1 @ 95000") (VStr "完全成交")).
Proof. vm_compute. reflexivity. Qed.

(** conversions: an object with an own [toString] member, alone and in an
    array, and the members of [Object.prototype] *)
Example conversions :
  ToString (VObj [ ("toString", VNum "1") ]) = inl notPrimitive /\
  ToString (VArr [ VNum "1"; VNull; VObj [] ]) = inr "1,,[object Object]" /\
  ToString (VArr [ VStr "a"; VObj [ ("toString", VNull) ] ]) = inl notPrimitive /\
  ToString (lookupObject ORDER_SIDE_MAP "constructor")
    = inr "function Object() { [native code] }" /\
  ToString (lookupObject ORDER_SIDE_MAP "valueOf")
    = inr "function valueOf() { [native code] }".
Proof. repeat split. Qed.

(** C8 fails as stated: for the record [{"sz":"1","avgPx":"0.0"}] the
    average fill price is zero, so the claim gives the size alone, ["1"],
    while [formatSize], which compares the text of the price with ["0"],
    returns ["1 @ 0.0"]. *)
Lemma formatSize_textual_zero : ~ size_is_appended_unless_zero.
Proof.
  intros Hclaim.
  specialize (Hclaim [ ("sz", VStr "1"); ("avgPx", VStr "0.0") ] "1" (Some "0.0")
                eq_refl eq_refl).
  vm_compute in Hclaim. discriminate.
Qed.

(** the requests of a session: login at ['open'], subscribe at the login
    success; the heartbeat is a text frame *)
Example session_requests :
  sent_on 0
    (out (after [ SocketMessage 0 loginOk; TimeElapses 25000; TimerFires 1 ] connected)) =
    [ PJson (loginRequest (P := node) world0); PJson subscribeMessage; PText "ping" ].
Proof. vm_compute. reflexivity. Qed.

Lemma connected_reachable : reachable (P := node) connected.
Proof.
  apply (started_reachable (P := node) "0a1b2c3d-api-key" "secret" "passphrase" false
           1735200600123 [SocketOpen 0]).
  - repeat constructor; discriminate.
  - vm_compute. reflexivity.
Qed.

(** C1 fails as stated: on connection 0 the frame
    [{"event":"login","code":"60009","msg":"Login failed."}] is decoded as
    a login failure, and the frame [{"event":"login","code":"0"}] that
    follows it on the same connection is answered with a subscribe
    request. *)
Lemma subscribe_after_login_failure :
  ~ no_subscribe_after_login_failure (P := node).
Proof.
  intros Hclaim.
  apply (Hclaim connected
           (after [SocketMessage 0 loginFailed] connected)
           (after [SocketMessage 0 loginFailed; SocketMessage 0 loginOk] connected)
           0%nat loginFailed [SocketMessage 0 loginOk]
           [ ELogger LLog "登录成功";
             EWriteLog (mkEntry INFO AUTH "登录成功" VUndefined);
             ELogger LLog "订阅订单频道...";
             EWriteLog (mkEntry INFO SUBSCRIBE "发送订阅请求" subscribeMessage);
             ESend 0 (PJson subscribeMessage) ]).
  - exact connected_reachable.
  - vm_compute. reflexivity.
  - vm_compute. reflexivity.
  - repeat constructor; discriminate.
  - vm_compute. reflexivity.
  - vm_compute. reflexivity.
  - cbn. tauto.
Qed.

(** C3 fails as stated: when socket 0 of the connected service emits
    ['error'], the heartbeat timer stays armed, [ws] still refers to the
    socket and no reconnect timer is armed. *)
Lemma error_event_resets_nothing :
  ~ close_or_error_disconnects (P := node).
Proof.
  intros Hclaim.
  destruct (Hclaim connected (after [SocketError 0 "read ECONNRESET"] connected)
              (SocketError 0 "read ECONNRESET") connected_reachable) as (Hping & _).
  - right. eauto.
  - vm_compute. reflexivity.
  - vm_compute in Hping. discriminate.
Qed.

(** C5 fails as stated: the frame [{}] parses to an object that matches
    none of the known frames, and the handler writes nothing for it. *)
Lemma unclassified_frame_is_not_logged :
  ~ decode_fault_is_logged (P := node).
Proof.
  intros Hclaim.
  destruct (Hclaim "{}" connected) as (tr & entry & Hrun & Hin).
  - discriminate.
  - right. exists []. split; [vm_compute; reflexivity|]. split; reflexivity.
  - apply (f_equal (fun r => length (out (snd r)))) in Hrun.
    vm_compute in Hrun. destruct tr; [destruct Hin | cbn in Hrun; lia].
Qed.

(** Witness of C1: the login success received on the open connection 0 is
    answered with one subscribe request. *)
Lemma requests_follow_login_answers_witness :
  session (requests_on 0 (out connected)) /\
  requests_on 0 (out (after [SocketMessage 0 loginOk] connected)) =
    requests_on 0 (out connected)
      ++ requested (P := node) (SocketMessage 0 loginOk) connected 0.
Proof.
  destruct (requests_follow_login_answers (P := node) connected connected_reachable)
    as [Hshape Hstep].
  split; [apply Hshape|]. apply Hstep. vm_compute. reflexivity.
Defined.

(** Witness of C2: the frame with two order records, the second with an
    empty average price. *)
Lemma orders_frame_notifies_each_record_witness :
  exists tr,
    handleMessage (P := node) ordersFrame connected =
      (inr tt, mkWorld (svc connected) (rt connected) (out connected ++ tr)) /\
    rendered (P := node) (notifications tr) [order1; order2] /\
    length (notifications tr) = length [order1; order2].
Proof.
  apply (orders_frame_notifies_each_record (P := node) ordersFrame ordersProps
           [order1; order2] connected).
  - intros H. vm_compute in H. discriminate.
  - vm_compute. reflexivity.
  - vm_compute. reflexivity.
  - vm_compute. reflexivity.
  - vm_compute. reflexivity.
  - repeat constructor.
Defined.

(** Witness of C4: shutdown of the connected service, then the close event
    of its socket and a minute without events. *)
Lemma shutdown_is_final_witness :
  let w1 := after [ModuleDestroy] connected in
  let w2 := after [SocketClose 0 1005 ""; TimeElapses 60000] w1 in
  shouldReconnect (svc w1) = false /\
  pingInterval (svc w1) = None /\ reconnectTimeout (svc w1) = None /\
  timers (rt w1) = ∅ /\
  ws (svc w1) = None /\
  (forall s st, sockets (rt w1) !! s = Some st -> st = CLOSING \/ st = CLOSED) /\
  shouldReconnect (svc w2) = false /\
  sockets_created (out w2) = sockets_created (out w1).
Proof.
  apply (shutdown_is_final (P := node) connected (after [ModuleDestroy] connected)
           (after [SocketClose 0 1005 ""; TimeElapses 60000] (after [ModuleDestroy] connected))
           [SocketClose 0 1005 ""; TimeElapses 60000] connected_reachable).
  - vm_compute. reflexivity.
  - repeat constructor; discriminate.
  - vm_compute. reflexivity.
Defined.

(** Witness of C5: the text [{] is not JSON and is logged; the object [{}]
    is dropped silently. *)
Lemma undecodable_frame_is_dropped_witness :
  handleMessage (P := node) "{" connected =
    (inr tt,
     mkWorld (svc connected) (rt connected)
       (out connected ++ decodeFailureLog "{" (SyntaxError "Unexpected token in JSON"))) /\
  handleMessage (P := node) "{}" connected = (inr tt, connected).
Proof.
  split.
  - apply (proj1 (undecodable_frame_is_dropped (P := node) "{" connected
                    ltac:(discriminate))).
    vm_compute. reflexivity.
  - apply (proj2 (undecodable_frame_is_dropped (P := node) "{}" connected
                    ltac:(discriminate)) []).
    + vm_compute. reflexivity.
    + split; reflexivity.
Defined.

(** Witness of C7: four calls in a row on the fresh service. *)
Lemma repeated_connect_creates_one_socket_witness :
  let w1 := exec connectWebSocket world0 in
  let wn := exec (repeatedly 3 connectWebSocket) w1 in
  isConnecting (svc w1) = true /\
  sockets_created (out w1) = sockets_created (out world0) ++ [nextHandle (rt world0)] /\
  svc wn = svc w1 /\ rt wn = rt w1 /\
  sockets_created (out wn) = sockets_created (out w1).
Proof.
  apply (repeated_connect_creates_one_socket world0 3). reflexivity.
Defined.

(** Witness of C8: the scenario of the specification, size ["0.1"] at
    average price ["95000"]. *)
Lemma formatted_size_is_size_at_price_witness :
  formatSize order1 = inr (VStr "0.1 @ 95000") /\
  map n_size (notifications (out (snd (handleOrder (P := node) order1 connected)))) =
    map n_size (notifications (out connected)) ++ [VStr "0.1 @ 95000"].
Proof.
  destruct (formatted_size_is_size_at_price (P := node)
              [ ("side", VStr "buy"); ("state", VStr "filled"); ("sz", VStr "0.1");
                ("avgPx", VStr "95000"); ("instId", VStr "BTC-USDT");
                ("uTime", VStr "1735200600000") ]
              "0.1" (Some "95000") connected eq_refl eq_refl) as [Hsize Hsent].
  split; [exact Hsize|]. apply Hsent. repeat constructor.
Defined.

(** Witness of C10: a login event that carries an orders payload. *)
Lemma control_event_never_dispatches_witness :
  notifications (out (snd (handleMessage (P := node) mixedFrame connected))) =
    notifications (out connected).
Proof.
  apply (control_event_never_dispatches (P := node) mixedFrame mixedProps connected).
  - vm_compute. reflexivity.
  - reflexivity.
Defined.

End Runs.

(** * Further runs on the concrete platform *)

Module Checks.
Import Scenario Cases.

Example nullFrame_parses : Node.parse nullFrame = inr (VObj nullProps).
Proof. vm_compute. reflexivity. Qed.

Example numberFrame_parses : Node.parse numberFrame = inr (VObj numberProps).
Proof. vm_compute. reflexivity. Qed.

(** the formatted entry: separator, time, level and category, message,
    data, empty line *)
Example logLine0_lines :
  tail (Logging.split_lines logLine0) =
    [ "📅 2024/12/26 08:10:00";
      "✅ [INFO] 🔗 [CONNECTION]";
      "💬 WebSocket连接已建立";
      "📦 数据: " +:+ Node.text "{'url':'wss://ws.okx.com:8443/ws/v5/private'}";
      ""; "" ].
Proof. vm_compute. reflexivity. Qed.

Lemma waiting_reachable : reachable (P := node) waiting.
Proof.
  apply (run_reachable (P := node) [SocketClose 0 1006 ""; TimeElapses 5000] connected).
  - exact Runs.connected_reachable.
  - repeat constructor; discriminate.
  - vm_compute. reflexivity.
Qed.

Lemma beating_reachable : reachable (P := node) beating.
Proof.
  apply (run_reachable (P := node) [TimeElapses 25000] connected).
  - exact Runs.connected_reachable.
  - repeat constructor; discriminate.
  - vm_compute. reflexivity.
Qed.

(** Socket 0 is the only socket of the connected service, and [ws] refers
    to it. *)
Lemma at_most_one_live_socket_witness :
  (forall s s' st st',
     sockets (rt connected) !! s = Some st -> sockets (rt connected) !! s' = Some st' ->
     st <> CLOSED -> st' <> CLOSED -> s = s') /\
  (forall s st, sockets (rt connected) !! s = Some st -> st = CONNECTING \/ st = OPEN ->
     ws (svc connected) = Some s).
Proof.
  apply (at_most_one_live_socket (P := node) connected Runs.connected_reachable).
Defined.

(** Timer 1 of the connected service is the heartbeat. *)
Lemma armed_timers_are_tracked_witness :
  (PingTick = PingTick /\ pingInterval (svc connected) = Some 1%nat /\
   Some 25000 = Some 25000 /\
   forall s, sockets (rt connected) !! s <> Some CONNECTING) \/
  (PingTick = Reconnect /\ reconnectTimeout (svc connected) = Some 1%nat /\
   Some 25000 = None /\ isConnecting (svc connected) = false /\
   forall s st, sockets (rt connected) !! s = Some st -> st = CLOSED).
Proof.
  apply (armed_timers_are_tracked (P := node) connected 1
           (mkTimer PingTick 1735200625123 (Some 25000)) Runs.connected_reachable).
  vm_compute. reflexivity.
Defined.

(** Five seconds after socket 0 has closed, timer 2 fires and socket 3 is
    created. *)
Lemma reconnect_timer_opens_new_socket_witness :
  let w' := after [TimerFires 2] waiting in
  isConnecting (svc w') = true /\
  ws (svc w') = Some (nextHandle (rt waiting)) /\
  pingInterval (svc w') = None /\ reconnectTimeout (svc w') = None /\
  sockets (rt w') = <[nextHandle (rt waiting) := CONNECTING]> (sockets (rt waiting)) /\
  (forall s st, sockets (rt waiting) !! s = Some st -> st = CLOSED) /\
  timers (rt w') = ∅ /\
  sockets_created (out w') = sockets_created (out waiting) ++ [nextHandle (rt waiting)] /\
  In (ENewWebSocket (nextHandle (rt waiting)) (wsUrl (svc waiting))) (out w').
Proof.
  apply (reconnect_timer_opens_new_socket (P := node) waiting (after [TimerFires 2] waiting) 2
           (mkTimer Reconnect 1735200605123 None) waiting_reachable).
  - vm_compute. reflexivity.
  - reflexivity.
  - vm_compute. reflexivity.
Defined.

(** The first heartbeat of the connected service. *)
Lemma heartbeat_pings_the_open_socket_witness :
  let w' := after [TimerFires 1] beating in
  svc w' = svc beating /\
  sockets (rt w') = sockets (rt beating) /\
  timers (rt w') =
    <[1%nat := mkTimer PingTick (clock (rt beating) + 25000) (Some 25000)]> (timers (rt beating)) /\
  exists tr, out w' = out beating ++ tr /\
    notifications tr = [] /\
    forall s, sent_on s tr =
      match sockets (rt beating) !! s with Some OPEN => [PText "ping"] | _ => [] end.
Proof.
  apply (heartbeat_pings_the_open_socket (P := node) beating (after [TimerFires 1] beating) 1
           (mkTimer PingTick 1735200625123 (Some 25000)) beating_reachable).
  - vm_compute. reflexivity.
  - reflexivity.
  - vm_compute. reflexivity.
Defined.

(** After shutdown a late login success and the close of socket 0 send
    nothing. *)
Lemma nothing_is_sent_after_shutdown_witness :
  let w2 := after [SocketMessage 0 loginOk; SocketClose 0 1000 ""] destroyed in
  ws (svc w2) = None /\
  timers (rt w2) = ∅ /\
  (forall s st, sockets (rt w2) !! s = Some st -> st = CLOSING \/ st = CLOSED) /\
  forall s, sent_on s (out w2) = sent_on s (out destroyed).
Proof.
  apply (nothing_is_sent_after_shutdown (P := node) connected destroyed
           (after [SocketMessage 0 loginOk; SocketClose 0 1000 ""] destroyed)
           [SocketMessage 0 loginOk; SocketClose 0 1000 ""] Runs.connected_reachable).
  - vm_compute. reflexivity.
  - repeat constructor; discriminate.
  - vm_compute. reflexivity.
Defined.

Lemma no_unhandled_rejection_witness : rejections (out connected) = [].
Proof. apply (no_unhandled_rejection (P := node) connected Runs.connected_reachable). Defined.

(** The record before the [null] is notified, the record after it is not. *)
Lemma null_record_aborts_the_frame_witness :
  exists tr,
    handleMessage (P := node) nullFrame connected =
      (inr tt,
       mkWorld (svc connected) (rt connected)
         (out connected ++ tr ++
            nullRecordLog (P := node) :: decodeFailureLog nullFrame nullRecordError)) /\
    rendered (P := node) (notifications tr) [order1] /\
    notifications (tr ++ nullRecordLog (P := node)
                      :: decodeFailureLog nullFrame nullRecordError) =
      notifications tr.
Proof.
  apply (null_record_aborts_the_frame (P := node) nullFrame nullProps [order1] [order2]
           connected).
  - intros H. vm_compute in H. discriminate.
  - vm_compute. reflexivity.
  - reflexivity.
  - reflexivity.
  - reflexivity.
  - repeat constructor.
Defined.

Example opaqueFrame_parses : Node.parse opaqueFrame = inr (VObj opaqueProps).
Proof. vm_compute. reflexivity. Qed.

(** The record before the one with the unconvertible [side] is notified;
    that record is logged and the record after it is not looked at. *)
Lemma unconvertible_record_aborts_the_frame_witness :
  exists tr,
    handleMessage (P := node) opaqueFrame connected =
      (inr tt,
       mkWorld (svc connected) (rt connected)
         (out connected ++ tr ++ taken (P := node) opaqueOrder
            ++ decodeFailureLog opaqueFrame notPrimitive)) /\
    rendered (P := node) (notifications tr) [order1] /\
    notifications (tr ++ taken (P := node) opaqueOrder
                      ++ decodeFailureLog opaqueFrame notPrimitive) =
      notifications tr.
Proof.
  apply (unconvertible_record_aborts_the_frame (P := node) opaqueFrame opaqueProps
           [order1] [order2] opaqueOrder connected).
  - intros H. vm_compute in H. discriminate.
  - vm_compute. reflexivity.
  - reflexivity.
  - reflexivity.
  - reflexivity.
  - repeat constructor.
  - right. left. reflexivity.
Defined.

(** the whole frame leaves one notification, that of the first record *)
Example opaqueFrame_notifications :
  map inr (notifications (out (snd (handleMessage (P := node) opaqueFrame connected)))) =
    [ rendering (P := node) order1 ].
Proof. vm_compute. reflexivity. Qed.

Lemma non_iterable_data_is_a_decode_failure_witness :
  handleMessage (P := node) numberFrame connected =
    (inr tt,
     mkWorld (svc connected) (rt connected)
       (out connected ++ decodeFailureLog numberFrame notIterable)).
Proof.
  apply (non_iterable_data_is_a_decode_failure (P := node) numberFrame numberProps connected).
  - intros H. vm_compute in H. discriminate.
  - vm_compute. reflexivity.
  - reflexivity.
  - reflexivity.
  - split; [reflexivity|exact I].
Defined.

Lemma unlisted_side_and_state_pass_through_witness :
  map (fun n => (n_side n, n_state n))
      (notifications (out (snd (handleOrder (P := node) (VObj unlistedProps) connected)))) =
    map (fun n => (n_side n, n_state n)) (notifications (out connected))
      ++ [(VStr "net", VStr "order_failed")].
Proof.
  apply (unlisted_side_and_state_pass_through (P := node) unlistedProps "net" "order_failed"
           connected); [repeat constructor|reflexivity..].
Defined.

(** The new entry goes in front of the older line. *)
Lemma writeLog_puts_the_newest_entry_first_witness :
  exists text,
    Logging.writeLog (P := node) "2024/12/26 08:10:00" entry0 logState0 =
      (inr tt,
       Logging.mkLogState (Logging.mkDisk true false (Logging.Content text))
         (Logging.wallClock logState0) (Logging.console logState0)) /\
    Logging.split_lines text =
      take Logging.maxLines
        (Logging.split_lines (logLine0 +:+ Logging.existing (Logging.disk logState0))) /\
    ((Logging.lineCount (logLine0 +:+ Logging.existing (Logging.disk logState0))
        <= Logging.maxLines)%nat ->
     text = logLine0 +:+ Logging.existing (Logging.disk logState0)).
Proof.
  apply (LoggingFacts.writeLog_puts_the_newest_entry_first (P := node) logState0
           "2024/12/26 08:10:00" entry0 logLine0).
  - repeat split; discriminate.
  - vm_compute. reflexivity.
Defined.

(** The service with other secrets goes through the same session. *)
Lemma secrets_reach_only_the_frames_sent_witness :
  exists w2',
    run (P := node) [ModuleInit; SocketOpen 0; SocketMessage 0 loginOk]
      (boot otherService 1735200600123) = Some w2' /\
    alike (after [SocketMessage 0 loginOk] connected) w2' /\
    log_entries (out w2') = log_entries (out (after [SocketMessage 0 loginOk] connected)) /\
    notifications (out w2') = notifications (out (after [SocketMessage 0 loginOk] connected)).
Proof.
  apply (secrets_reach_only_the_frames_sent (P := node)
           [ModuleInit; SocketOpen 0; SocketMessage 0 loginOk]
           world0 (boot otherService 1735200600123)).
  - repeat split.
  - vm_compute. reflexivity.
Defined.

(** Two records on a platform whose second notification fails: the second
    [NOTIFY] entry is an error. *)
Lemma each_record_is_logged_with_its_outcome_witness :
  exists tr,
    handleOrderData (P := flaky) (VArr [order1; order2]) connected =
      (inr tt, mkWorld (svc connected) (rt connected) (out connected ++ tr)) /\
    rendered (P := flaky) (notifications tr) [order1; order2] /\
    map (fun e => (category e, level e)) (log_entries tr) =
      concat (imap (fun i n =>
                      recordLogged (P := flaky) (length (notifications (out connected)) + i) n)
                (notifications tr)).
Proof.
  apply (each_record_is_logged_with_its_outcome (P := flaky) [order1; order2] connected).
  repeat constructor.
Defined.

Example flaky_outcomes :
  map (fun e => (category e, level e))
    (log_entries (out (snd (handleOrderData (P := flaky) (VArr [order1; order2]) world0)))) =
    [ (ORDER, INFO); (NOTIFY, INFO); (ORDER, INFO); (NOTIFY, ERROR) ].
Proof. vm_compute. reflexivity. Qed.

(** The entry written in front of the older line is read back. *)
Lemma newest_entry_is_read_back_witness :
  exists st',
    Logging.writeLog (P := node) "2024/12/26 08:10:00" entry0 logState0 = (inr tt, st') /\
    Logging.getRecentLogs (Some (Z.of_nat (Logging.lineCount body0))) st' = (inr body0, st').
Proof.
  apply (LoggingFacts.newest_entry_is_read_back (P := node) logState0
           "2024/12/26 08:10:00" entry0 body0).
  - repeat split; discriminate.
  - vm_compute. reflexivity.
  - assert (Hcount : Logging.lineCount
                       ((body0 +:+ Logging.newline)
                          +:+ Logging.existing (Logging.disk logState0)) = 8%nat)
      by (vm_compute; reflexivity).
    rewrite Hcount. unfold Logging.maxLines. lia.
Defined.

(** *** The log file *)

(** a function as [data]: [JSON.stringify] gives [undefined], reading its
    [length] raises, [writeLog] reports it and leaves the file alone *)
Example unserialisable_entry_is_reported :
  Logging.writeLog (P := node) "2024/12/26 08:10:00"
    (mkEntry INFO SYSTEM "started" (VNative "toString")) logState0 =
    (inr tt,
     Logging.mkLogState (Logging.disk logState0) (Logging.wallClock logState0)
       [ Logging.mkCall LError "写入日志失败"
           (Some (TypeError "Cannot read properties of undefined (reading 'length')")) ]).
Proof. vm_compute. reflexivity. Qed.

Example first_two_lines :
  fst (Logging.getRecentLogs (Some 2)
         (Logging.mkLogState
            (Logging.mkDisk true false
               (Logging.Content ("one" +:+ Logging.newline +:+ "two" +:+ Logging.newline
                                   +:+ "three")))
            "" [])) =
    inr ("one" +:+ Logging.newline +:+ "two").
Proof. vm_compute. reflexivity. Qed.

(** a negative count drops lines from the end *)
Example all_but_the_last_line :
  fst (Logging.getRecentLogs (Some (-1))
         (Logging.mkLogState
            (Logging.mkDisk true false
               (Logging.Content ("one" +:+ Logging.newline +:+ "two" +:+ Logging.newline
                                   +:+ "three")))
            "" [])) =
    inr ("one" +:+ Logging.newline +:+ "two").
Proof. vm_compute. reflexivity. Qed.

(** 2500 characters of data are cut to 2000 and the mark *)
Example long_data_is_cut :
  match Logging.formatLogEntry (P := node) ""
          (mkEntry INFO ORDER "" (VStr (Logging.repeat_string "x" 2500))) with
  | inr logLine =>
      nth 4 (Logging.split_lines logLine) "" =
        "📦 数据: " +:+ Logging.repeat_string "x" 2000 +:+ Logging.truncationMark
  | inl _ => False
  end.
Proof. vm_compute. reflexivity. Qed.

(** *** The notification endpoint *)

(** an error code without a [success] field is reported as a success *)
Example error_code_alone_is_accepted :
  fst (Wechat.sendOrderNotification (P := node) Node.stringify
         (answering (VObj [ ("errcode", VNum "40001"); ("errmsg", VStr "invalid") ]))
         wechat "2024/12/26 08:10:00" (VStr "BTC-USDT") (VStr "买入") (VStr "0.1 @ 95000")
         (VStr "完全成交")) = true.
Proof. reflexivity. Qed.

Example refusal_is_a_failure :
  fst (Wechat.sendOrderNotification (P := node) Node.stringify
         (answering (VObj [ ("success", VBool false); ("errcode", VNum "40001") ]))
         wechat "2024/12/26 08:10:00" (VStr "BTC-USDT") (VStr "买入") (VStr "0.1 @ 95000")
         (VStr "完全成交")) = false.
Proof. reflexivity. Qed.

Example timeout_is_a_failure :
  fst (Wechat.sendOrderNotification (P := node) Node.stringify failing
         wechat "2024/12/26 08:10:00" (VStr "BTC-USDT") (VStr "买入") (VStr "0.1 @ 95000")
         (VStr "完全成交")) = false.
Proof. reflexivity. Qed.

(** *** The earlier revision *)

Example remark_of_a_filled_order :
  Legacy.formatOrderRemark (fun _ => true)
    (VObj [ ("pnl", VStr "12.5"); ("fee", VStr "-0.5"); ("feeCcy", VStr "USDT");
            ("lever", VStr ""); ("ordId", VStr "680800019749904384") ]) =
    inr "盈亏: +12.5 | 手续费: -0.5 USDT | 订单ID: 680800019749904384".
Proof. vm_compute. reflexivity. Qed.

(** a side that names a member of [Object.prototype] is replaced by that
    member, which prints as a function *)
Example title_of_a_constructor_order :
  Legacy.formatOrderTitle
    (VObj [ ("side", VStr "constructor"); ("state", VStr "live");
            ("instId", VStr "BTC-USDT") ]) =
    inr "【OKX订单通知】function Object() { [native code] } BTC-USDT - 等待成交".
Proof. vm_compute. reflexivity. Qed.

(** an object with an own [toString] member as [pnl] cannot be formatted *)
Example remark_of_an_opaque_order :
  Legacy.formatOrderRemark (fun _ => true)
    (VObj [ ("pnl", VObj [ ("toString", VNull) ]); ("ordId", VStr "1") ]) =
    inl notPrimitive.
Proof. vm_compute. reflexivity. Qed.

(** The texts of a filled spot order. *)
Lemma order_texts_carry_their_fixed_parts_witness :
  exists title content remark typeText sideText szText ordIdText,
    Legacy.formatOrderTitle (VObj filledProps) = inr title /\
    Legacy.formatOrderContent (VObj filledProps) = inr content /\
    Legacy.formatOrderRemark (fun _ => true) (VObj filledProps) = inr remark /\
    Legacy.labelText Legacy.INST_TYPE_MAP (lookupObject filledProps "instType")
      = inr typeText /\
    Legacy.labelText ORDER_SIDE_MAP (lookupObject filledProps "side") = inr sideText /\
    ToString (lookupObject filledProps "sz") = inr szText /\
    ToString (lookupObject filledProps "ordId") = inr ordIdText /\
    (exists rest,
       content =
         ("类型: " +:+ typeText) +:+ " | " +:+ ("方向: " +:+ sideText)
         +:+ " | " +:+ ("数量: " +:+ szText) +:+ rest) /\
    (exists front, remark = front +:+ "订单ID: " +:+ ordIdText) /\
    forall date,
      Legacy.path (Legacy.templateData title date content (Some remark)) "remark" "value"
        = VStr remark.
Proof.
  apply (LegacyFacts.order_texts_carry_their_fixed_parts (fun _ => true) filledProps).
  repeat constructor.
Defined.

Example content_of_a_filled_order :
  Legacy.formatOrderContent
    (VObj [ ("instType", VStr "SPOT"); ("side", VStr "buy"); ("sz", VStr "0.1");
            ("px", VStr "0"); ("avgPx", VStr "95000"); ("accFillSz", VStr "0.1") ]) =
    inr "类型: 现货 | 方向: 买入 | 数量: 0.1 | 均价: 95000 | 成交: 0.1".
Proof. vm_compute. reflexivity. Qed.

End Checks.
